(** * Note parsers: registry, HackerNews, TimeEntry, Training and Generic

    A shallow embedding of [parsers/base.py], [parsers/hackernews_parser.py],
    [parsers/time_entry_parser.py], [parsers/training_parser.py],
    [parsers/generic_notes_parser.py] and of the registry set up by
    [parse_notes.py], followed by the properties of the specification that
    concern them.

    Python [str] values are lists of code points.  The regular expressions
    of the parsers are written as syntax trees and run by a backtracking
    matcher that explores alternatives in the order of Python's [re]. *)

From Stdlib Require Import String Ascii.
From Stdlib Require Import List NArith ZArith Bool Lia.
From Stdlib Require Import Sorting.Permutation Sorting.Sorted.
From Stdlib Require Import DecimalString.
Import ListNotations.

Set Implicit Arguments.
Local Open Scope N_scope.

(** ** Strings *)

Definition char := N.
Definition str := list char.

(** An ASCII literal as a Python string. *)
Definition lit (s : string) : str :=
  List.map N_of_ascii (list_ascii_of_string s).
Arguments lit s%_string.

Fixpoint str_eqb (a b : str) : bool :=
  match a, b with
  | [], [] => true
  | x :: a', y :: b' => (x =? y) && str_eqb a' b'
  | _, _ => false
  end.

(** [a < b] on [str]: lexicographic on code points. *)
Fixpoint str_ltb (a b : str) : bool :=
  match a, b with
  | _, [] => false
  | [], _ :: _ => true
  | x :: a', y :: b' => (x <? y) || ((x =? y) && str_ltb a' b')
  end.

Definition str_leb (a b : str) : bool := negb (str_ltb b a).

(** Code points the parsers name. *)
Definition NEWLINE : char := 10.
Definition UNCHECKED_BOX : char := 9744. (* U+2610 *)
Definition CHECKED_BOX : char := 9745.   (* U+2611 *)
Definition TIMES_SIGN : char := 215.     (* U+00D7 *)

(** ** The part of the Python runtime that lies outside the repository

    Character classification beyond ASCII comes from the interpreter's
    Unicode tables, and [datetime.fromisoformat] from its standard library.
    Both are parameters.  The ASCII rows of the tables are written out
    below, so every function computes on ASCII text whatever the
    parameters are. *)

Class Runtime := {
  (** [Py_UNICODE_ISSPACE] on code points from 128 on *)
  uni_isspace : char -> bool;
  (** [Py_UNICODE_TODECIMAL] on code points from 128 on *)
  uni_todecimal : char -> option N;
  (** [Py_UNICODE_ISALNUM] on code points from 128 on *)
  uni_isalnum : char -> bool;
  (** [uni_ignorecase lo x]: under [re.IGNORECASE], does the code point
      [x >= 128] match the pattern literal whose lower case is [lo] *)
  uni_ignorecase : char -> char -> bool;
  (** [datetime.fromisoformat(s).strftime('%Y-%m-%d')]; [None] when
      [fromisoformat] raises [ValueError] *)
  fromisoformat_date : str -> option str
}.

(** A runtime whose tables stop at ASCII and whose [fromisoformat] accepts
    nothing; it serves to run the definitions on concrete inputs. *)
Definition ascii_runtime : Runtime :=
  {| uni_isspace := fun _ => false;
     uni_todecimal := fun _ => None;
     uni_isalnum := fun _ => false;
     uni_ignorecase := fun _ _ => false;
     fromisoformat_date := fun _ => None |}.

(** ** Exceptions *)

Inductive exn :=
| ValueError (msg : str)
| TypeError (msg : str)
| KeyError (key : str).

Inductive result (A : Type) :=
| Ok (a : A)
| Raise (e : exn).
Arguments Ok {A} a.
Arguments Raise {A} e.

Definition bind {A B} (r : result A) (k : A -> result B) : result B :=
  match r with
  | Ok a => k a
  | Raise e => Raise e
  end.

Notation "x <- r ;; k" := (bind r (fun x => k))
  (at level 61, r at next level, right associativity).

Fixpoint foldM {A S} (f : S -> A -> result S) (l : list A) (s : S) : result S :=
  match l with
  | [] => Ok s
  | a :: l' => s' <- f s a ;; foldM f l' s'
  end.

Fixpoint mapM {A B} (f : A -> result B) (l : list A) : result (list B) :=
  match l with
  | [] => Ok []
  | a :: l' => b <- f a ;; bs <- mapM f l' ;; Ok (b :: bs)
  end.

Section Python.
Context {RT : Runtime}.

(** *** Character classes *)

Definition isspace (c : char) : bool :=
  if c <? 128
  then ((9 <=? c) && (c <=? 13)) || ((28 <=? c) && (c <=? 32))
  else uni_isspace c.

Definition todecimal (c : char) : option N :=
  if c <? 128
  then if (48 <=? c) && (c <=? 57) then Some (c - 48) else None
  else uni_todecimal c.

Definition isdecimal (c : char) : bool :=
  match todecimal c with Some _ => true | None => false end.

Definition ascii_isalnum (c : char) : bool :=
  ((48 <=? c) && (c <=? 57)) || ((65 <=? c) && (c <=? 90))
  || ((97 <=? c) && (c <=? 122)).

(** [\w]: alphanumeric or underscore *)
Definition isword (c : char) : bool :=
  if c <? 128 then ascii_isalnum c || (c =? 95) else uni_isalnum c.

Definition ascii_lower (c : char) : char :=
  if (65 <=? c) && (c <=? 90) then c + 32 else c.

(** A pattern literal [p] under [re.IGNORECASE] against the code point [x] *)
Definition ignorecase_eqb (p x : char) : bool :=
  if x <? 128 then ascii_lower x =? ascii_lower p
  else uni_ignorecase (ascii_lower p) x.

(** *** [str] methods *)

Fixpoint lstrip (s : str) : str :=
  match s with
  | c :: t => if isspace c then lstrip t else s
  | [] => []
  end.

Definition rstrip (s : str) : str := rev (lstrip (rev s)).

Definition strip (s : str) : str := rstrip (lstrip s).

(** [s.split(sep)] for a separator of one character *)
Fixpoint split (sep : char) (s : str) : list str :=
  match s with
  | [] => [[]]
  | c :: t =>
      if c =? sep then [] :: split sep t
      else match split sep t with
           | h :: r => (c :: h) :: r
           | [] => [[c]]
           end
  end.

(** [s.replace(old, new)] for [old] of one character *)
Definition replace (old : char) (new : str) (s : str) : str :=
  flat_map (fun c => if c =? old then new else [c]) s.

(** [old in s] for [old] of one character *)
Definition contains (c : char) (s : str) : bool :=
  existsb (N.eqb c) s.

(** [s.find(c, start)]: the least index [>= start] holding [c], or [-1] *)
Fixpoint find_from (c : char) (s : str) (start : nat) (i : Z) : Z :=
  match s with
  | [] => (-1)%Z
  | x :: t =>
      match start with
      | S k => find_from c t k (i + 1)%Z
      | O => if x =? c then i else find_from c t O (i + 1)%Z
      end
  end.

Definition py_find (c : char) (s : str) (start : nat) : Z :=
  find_from c s start 0%Z.

(** [s.rfind(c, 0, stop)]: the greatest index [< stop] holding [c], or [-1] *)
Fixpoint rfind_upto (c : char) (s : str) (stop : nat) (i : Z) (best : Z) : Z :=
  match stop, s with
  | S k, x :: t => rfind_upto c t k (i + 1)%Z (if x =? c then i else best)
  | _, _ => best
  end.

Definition py_rfind (c : char) (s : str) (stop : nat) : Z :=
  rfind_upto c s stop 0%Z (-1)%Z.

(** [s[a:b]] for indices that are not negative *)
Definition slice (s : str) (a b : nat) : str :=
  firstn (b - a) (skipn a s).

(** [s.zfill(width)] *)
Definition zfill (width : nat) (s : str) : str :=
  let pad := repeat 48 (width - length s) in
  match s with
  | c :: t => if (c =? 43) || (c =? 45) then c :: pad ++ t else pad ++ s
  | [] => pad
  end.

(** [repr] of a string of printable characters without quote or backslash,
    which is what the time strings of this program are *)
Definition repr_str (s : str) : str := [39] ++ s ++ [39].

Fixpoint join (sep : str) (l : list str) : str :=
  match l with
  | [] => []
  | [s] => s
  | s :: l' => s ++ sep ++ join sep l'
  end.

(** [repr] of a list of such strings, as an f-string prints it *)
Definition repr_list (l : list str) : str :=
  [91] ++ join (lit ", ") (List.map repr_str l) ++ [93].

(** [str(n)] for a number that is not negative *)
Definition str_of_nat (n : nat) : str :=
  lit (NilZero.string_of_uint (Nat.to_uint n)).

(** [sys.get_int_max_str_digits()]: the program leaves it at its default. *)
Definition INT_MAX_STR_DIGITS : nat := 4300.

(** What [int] raises on a run of [digits] digits that is longer *)
Definition int_limit_error (digits : nat) : exn :=
  ValueError
    (lit "Exceeds the limit (4300 digits) for integer string conversion: value has "
     ++ str_of_nat digits
     ++ lit " digits; use sys.set_int_max_str_digits() to increase the limit").

(** [int(s)] on a non-empty run of decimal digits, the only shape this
    program passes: its value when the run has [INT_MAX_STR_DIGITS] digits
    at most, leading zeros counted, and [ValueError] when it has more.
    Other strings that [int] rejects raise [ValueError] (the signs, blanks
    and underscores that [int] also reads are left out: no pattern of the
    program captures them) *)
Fixpoint digits_value (acc : N) (s : str) : option N :=
  match s with
  | [] => Some acc
  | c :: t =>
      match todecimal c with
      | Some d => digits_value (10 * acc + d) t
      | None => None
      end
  end.

Definition py_int (s : str) : result Z :=
  match s with
  | [] => Raise (ValueError (lit "invalid literal for int() with base 10: " ++ repr_str s))
  | _ =>
      match digits_value 0 s with
      | Some n =>
          if (INT_MAX_STR_DIGITS <? length s)%nat
          then Raise (int_limit_error (length s))
          else Ok (Z.of_N n)
      | None => Raise (ValueError (lit "invalid literal for int() with base 10: " ++ repr_str s))
      end
  end.

(** A [float] that is not negative: the double [m * 2^e] in the form of
    IEEE 754 ([m < 2^53] and [-1074 <= e <= 971], with [2^52 <= m] unless
    [e = -1074]; zero is [Finite 0 (-1074)]), or [inf]. *)
Inductive double :=
| Finite (m : N) (e : Z)
| Infinity.

(** [num / den] rounded to the nearest integer, a tie going to the even
    one *)
Definition round_half_even (num den : N) : N :=
  let q := num / den in
  match 2 * (num mod den) ?= den with
  | Lt => q
  | Eq => if N.even q then q else q + 1
  | Gt => q + 1
  end.

(** [2^e <= num / den] *)
Definition below_ratio (e : Z) (num den : N) : bool :=
  if (0 <=? e)%Z then den * 2 ^ Z.to_N e <=? num
  else den <=? num * 2 ^ Z.to_N (- e).

(** The greatest [e] with [2^e <= num / den], for [num] and [den] that
    are not zero *)
Definition ilog2_ratio (num den : N) : Z :=
  let e0 := (Z.of_N (N.log2 num) - Z.of_N (N.log2 den))%Z in
  if below_ratio e0 num den then e0 else (e0 - 1)%Z.

(** [num / den / 2^e] rounded to the nearest integer *)
Definition round_scaled (num den : N) (e : Z) : N :=
  if (0 <=? e)%Z then round_half_even num (den * 2 ^ Z.to_N e)
  else round_half_even (num * 2 ^ Z.to_N (- e)) den.

(** The double nearest to [num / den], a tie going to the even mantissa,
    and [inf] from [2^1024 - 2^970] on: what [float] returns for a decimal
    literal of that value. *)
Definition nearest_double (num den : N) : double :=
  if num =? 0 then Finite 0 (-1074)
  else
    let e := Z.max (ilog2_ratio num den - 52) (-1074) in
    let q := round_scaled num den e in
    let '(q, e) := if q =? 2 ^ 53 then (2 ^ 52, (e + 1)%Z) else (q, e) in
    if (971 <? e)%Z then Infinity else Finite q e.

(** [float(s)] on a decimal literal [digits] or [digits.digits], the
    shapes this program passes; [float] has no limit on the digits. *)
Definition py_float (s : str) : result double :=
  let bad := Raise (ValueError (lit "could not convert string to float: " ++ repr_str s)) in
  match split 46 s with
  | [ip] =>
      match ip, digits_value 0 ip with
      | _ :: _, Some n => Ok (nearest_double n 1)
      | _, _ => bad
      end
  | [ip; fp] =>
      match ip, fp, digits_value 0 (ip ++ fp) with
      | _ :: _, _ :: _, Some n =>
          Ok (nearest_double n (10 ^ N.of_nat (length fp)))
      | _, _, _ => bad
      end
  | _ => bad
  end.

End Python.

(** ** Regular expressions

    The subset of [re] syntax the parsers use.  Repetition applies to a
    single-character class, which is all the patterns need; [Opt] is the
    greedy [(?:...)?]. *)

#[warnings="-register-all"]
Inductive cls :=
| CAny                    (* [.] : anything but a newline *)
| CLit (c : char)         (* a literal character *)
| CLitI (c : char)        (* a literal character under [re.IGNORECASE] *)
| CSpace                  (* [\s] *)
| CDigit                  (* [\d] *)
| CWord                   (* [\w] *)
| CSet (l : list cls)     (* [[...]] *)
| CNot (l : list cls).    (* [[^...]] *)

Inductive re :=
| Eps
| Chr (c : cls)
| Seq (r1 r2 : re)
| Alt (r1 r2 : re)                          (* [r1|r2] *)
| Rep (lo : nat) (hi : option nat) (c : cls) (* greedy [c{lo,hi}] *)
| Opt (r : re)                              (* greedy [(?:r)?] *)
| Group (n : nat) (r : re)                  (* the [n]-th capturing group *)
| Bol                                       (* [^] *)
| Eol                                       (* [$] *)
| WordB.                                    (* [\b] *)

(** A sequence [r1 r2 ... rn] *)
Definition cat (l : list re) : re := fold_right Seq Eps l.

(** The characters of [s], each a literal *)
Definition lits (s : str) : re := cat (List.map (fun c => Chr (CLit c)) s).

(** The same under [re.IGNORECASE] *)
Definition litsI (s : str) : re := cat (List.map (fun c => Chr (CLitI c)) s).

Definition star (c : cls) : re := Rep 0 None c.
Definition plus (c : cls) : re := Rep 1 None c.
Definition opt1 (c : cls) : re := Rep 0 (Some 1%nat) c.
Definition times (n : nat) (c : cls) : re := Rep n (Some n) c.

(** Where a match attempt stands: the character just before the current
    position ([None] at the start of the string), the text still to read,
    and the groups captured so far (latest first). *)
Record mstate := {
  prev : option char;
  rest : str;
  caps : list (nat * str)
}.

(** A match object: [start()], [group(0)] and the captured groups. *)
Record match_obj := {
  m_start : nat;
  m_text : str;
  m_caps : list (nat * str)
}.

Definition m_end (m : match_obj) : nat := (m_start m + length (m_text m))%nat.

(** [m.group(n)] for [n >= 1].  Every group of the patterns below takes
    part in every match of its pattern, so the [None] of a group left out
    is not modelled: the default is the empty string. *)
Fixpoint lookup_group (n : nat) (l : list (nat * str)) : str :=
  match l with
  | [] => []
  | (k, w) :: l' => if Nat.eqb k n then w else lookup_group n l'
  end.

Definition group (m : match_obj) (n : nat) : str := lookup_group n (m_caps m).

Section Matcher.
Context {RT : Runtime}.

Fixpoint cls_test (k : cls) (x : char) : bool :=
  match k with
  | CAny => negb (x =? NEWLINE)
  | CLit c => x =? c
  | CLitI c => ignorecase_eqb c x
  | CSpace => isspace x
  | CDigit => isdecimal x
  | CWord => isword x
  | CSet l => existsb (fun k' => cls_test k' x) l
  | CNot l => negb (existsb (fun k' => cls_test k' x) l)
  end.

Definition hi_allows (hi : option nat) : bool :=
  match hi with Some O => false | _ => true end.

Definition hi_pred (hi : option nat) : option nat :=
  match hi with Some h => Some (Nat.pred h) | None => None end.

(** The ways [c{lo,hi}] can match at the head of [s], longest first: each
    is the text taken, the character before the new position and the text
    left. *)
Fixpoint rep_matches (test : char -> bool) (lo : nat) (hi : option nat)
    (p : option char) (s : str) : list (str * (option char * str)) :=
  let stop := match lo with O => [([], (p, s))] | S _ => [] end in
  match s with
  | x :: t =>
      if test x && hi_allows hi
      then List.map (fun '(w, e) => (x :: w, e))
             (rep_matches test (Nat.pred lo) (hi_pred hi) (Some x) t) ++ stop
      else stop
  | [] => stop
  end.

Definition word_before (st : mstate) : bool :=
  match prev st with Some c => isword c | None => false end.

Definition word_after (st : mstate) : bool :=
  match rest st with c :: _ => isword c | [] => false end.

(** All the ways [r] matches at [st], in the order in which a backtracking
    matcher tries them; each is the text consumed and the state reached.
    The first of the list is the match [re] reports. *)
Fixpoint matches (r : re) (st : mstate) : list (str * mstate) :=
  match r with
  | Eps => [([], st)]
  | Chr c =>
      match rest st with
      | x :: t =>
          if cls_test c x
          then [([x], {| prev := Some x; rest := t; caps := caps st |})]
          else []
      | [] => []
      end
  | Seq r1 r2 =>
      flat_map (fun '(w1, s1) =>
                  List.map (fun '(w2, s2) => (w1 ++ w2, s2)) (matches r2 s1))
               (matches r1 st)
  | Alt r1 r2 => matches r1 st ++ matches r2 st
  | Rep lo hi c =>
      List.map (fun '(w, (p, s)) =>
                  (w, {| prev := p; rest := s; caps := caps st |}))
               (rep_matches (cls_test c) lo hi (prev st) (rest st))
  | Opt r1 => matches r1 st ++ [([], st)]
  | Group n r1 =>
      List.map (fun '(w, s1) =>
                  (w, {| prev := prev s1; rest := rest s1;
                         caps := (n, w) :: caps s1 |}))
               (matches r1 st)
  | Bol => match prev st with None => [([], st)] | Some _ => [] end
  | Eol =>
      match rest st with
      | [] => [([], st)]
      | [c] => if c =? NEWLINE then [([], st)] else []
      | _ => []
      end
  | WordB => if xorb (word_before st) (word_after st) then [([], st)] else []
  end.

(** The match of [r] that starts at the position [pos], where [p] is the
    character before it and [s] the text from it on. *)
Definition match_at (r : re) (pos : nat) (p : option char) (s : str)
  : option match_obj :=
  match matches r {| prev := p; rest := s; caps := [] |} with
  | (w, st) :: _ => Some {| m_start := pos; m_text := w; m_caps := caps st |}
  | [] => None
  end.

(** [re.match(r, s)] *)
Definition re_match (r : re) (s : str) : option match_obj :=
  match_at r 0 None s.

(** [re.search]: the match at the leftmost position that has one. *)
Fixpoint search_from (r : re) (pos : nat) (p : option char) (s : str)
  : option match_obj :=
  match match_at r pos p s with
  | Some m => Some m
  | None =>
      match s with
      | x :: t => search_from r (S pos) (Some x) t
      | [] => None
      end
  end.

Definition re_search (r : re) (s : str) : option match_obj :=
  search_from r 0 None s.

(** [re.finditer]: the matches from left to right, none overlapping.
    [skip] counts the characters still inside the previous match.  After an
    empty match the scan moves one character on; no pattern of the parsers
    matches the empty string. *)
Fixpoint finditer_from (r : re) (pos : nat) (p : option char) (s : str)
    (skip : nat) : list match_obj :=
  match skip with
  | S k =>
      match s with
      | x :: t => finditer_from r (S pos) (Some x) t k
      | [] => []
      end
  | O =>
      match match_at r pos p s with
      | Some m =>
          m :: match s with
               | x :: t =>
                   finditer_from r (S pos) (Some x) t
                     (Nat.pred (length (m_text m)))
               | [] => []
               end
      | None =>
          match s with
          | x :: t => finditer_from r (S pos) (Some x) t O
          | [] => []
          end
      end
  end.

Definition re_finditer (r : re) (s : str) : list match_obj :=
  finditer_from r 0 None s 0.

End Matcher.

(** ** Notes

    A note is what [json.load] returns for a note file: a dict with the
    keys below, each of which may be absent and, when present, has the
    type the parsers annotate it with, or some value that is no dict. *)

Inductive label :=
| LabelStr (s : str)
| LabelOther (shown : str).   (* a label that is no string; [shown] is its [str()] *)

Definition str_of_label (l : label) : str :=
  match l with LabelStr s => s | LabelOther s => s end.

Record timestamps_t := {
  ts_created : option str;
  ts_edited : option str
}.

Record note := {
  n_id : option str;
  n_title : option str;
  n_text : option str;
  n_labels : option (list label);
  n_timestamps : option timestamps_t
}.

Inductive note_data :=
| NotADict
| Dict (n : note).

(** [d.get(key, '')] and its like *)
Definition get_or {A} (d : A) (o : option A) : A :=
  match o with Some a => a | None => d end.

Definition get_created (n : note) : str :=
  match n_timestamps n with Some t => get_or [] (ts_created t) | None => [] end.

Definition get_edited (n : note) : str :=
  match n_timestamps n with Some t => get_or [] (ts_edited t) | None => [] end.

Definition is_some {A} (o : option A) : bool :=
  match o with Some _ => true | None => false end.

(** Truth value of a string *)
Definition nonempty (s : str) : bool :=
  match s with [] => false | _ :: _ => true end.

Definition must_be_dict : exn := ValueError (lit "note_data must be a dictionary").

(** ** [list.sort(key=...)]: the stable sort by [<] on string keys *)

Section Sort.
Variable A : Type.
Variable key : A -> str.

Fixpoint insert_by (x : A) (l : list A) : list A :=
  match l with
  | [] => [x]
  | y :: t => if str_ltb (key y) (key x) then y :: insert_by x t else x :: l
  end.

Fixpoint sort_by (l : list A) : list A :=
  match l with
  | [] => []
  | x :: t => insert_by x (sort_by t)
  end.

End Sort.

(** ** [parsers/time_entry_parser.py] *)

Module TimeEntryParser.

Record time_entry := {
  timestamp : str;
  time : str;
  date : str;
  activity : str;
  raw_line : str
}.

Record ParseResult := {
  note_id : str;
  title : str;
  result_date : str;
  created : str;
  last_updated : str;
  time_entries : list time_entry;
  raw_text : str;
  warnings : list str
}.

(** [^\s*[☐☑]?\s*(\d{3,4})\s+(.+)$] *)
Definition TIME_CODE_PATTERN : re :=
  cat [ Bol; star CSpace; opt1 (CSet [CLit UNCHECKED_BOX; CLit CHECKED_BOX]);
        star CSpace; Group 1 (Rep 3 (Some 4%nat) CDigit); plus CSpace;
        Group 2 (plus CAny); Eol ].

Section WithRuntime.
Context {RT : Runtime}.

Definition _is_valid_time_code (time_code : str) : result bool :=
  match time_code with
  | [a; b; c] =>
      hours <- py_int [a] ;;
      minutes <- py_int [b; c] ;;
      Ok ((0 <=? hours)%Z && (hours <=? 23)%Z
          && (0 <=? minutes)%Z && (minutes <=? 59)%Z)
  | [a; b; c; d] =>
      hours <- py_int [a; b] ;;
      minutes <- py_int [c; d] ;;
      Ok ((0 <=? hours)%Z && (hours <=? 23)%Z
          && (0 <=? minutes)%Z && (minutes <=? 59)%Z)
  | _ => Ok false
  end.

(** The lines of [text] as both [can_parse] and [_extract_time_entries]
    read them: [text.strip().split('\n')], each then stripped. *)
Definition stripped_lines (text : str) : list str :=
  List.map strip (split NEWLINE (strip text)).

Definition can_parse (nd : note_data) : result bool :=
  match nd with
  | NotADict => Ok false
  | Dict n =>
      let text := get_or [] (n_text n) in
      if negb (nonempty text) then Ok false
      else
        time_entry_count <-
          foldM (fun (count : nat) line =>
                   match re_match TIME_CODE_PATTERN line with
                   | Some m =>
                       valid <- _is_valid_time_code (group m 1) ;;
                       Ok (if valid then S count else count)
                   | None => Ok count
                   end)
                (stripped_lines text) O ;;
        Ok (2 <=? time_entry_count)%nat
  end.

Definition _parse_time_code (time_code : str) : str :=
  match time_code with
  | [a; b; c] => zfill 2 [a] ++ lit ":" ++ zfill 2 [b; c]
  | [a; b; c; d] => zfill 2 [a; b] ++ lit ":" ++ zfill 2 [c; d]
  | _ => []
  end.

Definition _extract_date_from_timestamp (ts : str) : str :=
  if negb (nonempty ts) then []
  else
    match fromisoformat_date (replace 90 (lit "+00:00") ts) with
    | Some d => d
    | None =>
        if contains 84 ts then hd [] (split 84 ts) else hd [] (split 32 ts)
    end.

(** One turn of the loop of [_extract_time_entries]: the entries and
    [original_order] collected so far, then the line. *)
Definition extract_line (base_date : str)
    (acc : list time_entry * list str) (line : str)
  : result (list time_entry * list str) :=
  let '(entries, original_order) := acc in
  match re_match TIME_CODE_PATTERN line with
  | Some m =>
      let time_code := group m 1 in
      let act := strip (group m 2) in
      valid <- _is_valid_time_code time_code ;;
      if valid then
        let time_str := _parse_time_code time_code in
        let timestamp_str :=
          if nonempty base_date
          then base_date ++ lit "T" ++ time_str ++ lit ":00"
          else time_str ++ lit ":00" in
        Ok (entries ++ [ {| timestamp := timestamp_str; time := time_str;
                            date := base_date; activity := act;
                            raw_line := line |} ],
            original_order ++ [time_str])
      else Ok acc
  | None => Ok acc
  end.

Definition warning_msg (original_order sorted_order : list str) : str :=
  lit "Time entries are out of chronological order. "
  ++ lit "Original order: " ++ repr_list original_order
  ++ lit ", Sorted order: " ++ repr_list sorted_order.

Definition list_str_eqb (a b : list str) : bool :=
  (length a =? length b)%nat
  && forallb (fun '(x, y) => str_eqb x y) (combine a b).

Definition _extract_time_entries (text created_timestamp : str)
  : result (list time_entry * list str) :=
  let base_date := _extract_date_from_timestamp created_timestamp in
  collected <- foldM (extract_line base_date) (stripped_lines text) ([], []) ;;
  let '(unsorted, original_order) := collected in
  let entries := sort_by time unsorted in
  let sorted_order := List.map time entries in
  let parse_warnings :=
    if negb (list_str_eqb original_order sorted_order)
    then [warning_msg original_order sorted_order]
    else [] in
  Ok (entries, parse_warnings).

Definition parse (nd : note_data) : result ParseResult :=
  match nd with
  | NotADict => Raise must_be_dict
  | Dict n =>
      let text := get_or [] (n_text n) in
      let created_ts := get_created n in
      extracted <- _extract_time_entries text created_ts ;;
      let '(entries, parse_warnings) := extracted in
      Ok {| note_id := get_or [] (n_id n);
            title := get_or [] (n_title n);
            result_date := _extract_date_from_timestamp created_ts;
            created := created_ts;
            last_updated := get_edited n;
            time_entries := entries;
            raw_text := text;
            warnings := parse_warnings |}
  end.

End WithRuntime.
End TimeEntryParser.

(** ** [parsers/hackernews_parser.py] *)

Module HackerNewsParser.

Record HNLink := {
  link_url : str;
  link_item_id : str
}.

Record ParsedNote := {
  note_id : str;
  title : str;
  url : str;
  item_id : str;
  labels : list str;
  description : str;
  hn_links : list HNLink
}.

(** [https?://news\.ycombinator\.com/item\?id=(\d+)] *)
Definition HN_URL_PATTERN : re :=
  cat [ lits (lit "http"); opt1 (CLit 115);
        lits (lit "://news.ycombinator.com/item?id="); Group 1 (plus CDigit) ].

Definition DOWNLOAD_HN_LABEL : str := lit "Download-HN".

(** [#(\w+)] *)
Definition HASHTAG_PATTERN : re := cat [ Chr (CLit 35); Group 1 (plus CWord) ].

Section WithRuntime.
Context {RT : Runtime}.

Definition can_parse (nd : note_data) : bool :=
  match nd with
  | NotADict => false
  | Dict n =>
      let text := get_or [] (n_text n) in
      let title := get_or [] (n_title n) in
      let labels := get_or [] (n_labels n) in
      let has_hn_label :=
        existsb (fun l => str_eqb (str_of_label l) DOWNLOAD_HN_LABEL) labels in
      let has_hn_url :=
        is_some (re_search HN_URL_PATTERN text)
        || is_some (re_search HN_URL_PATTERN title) in
      has_hn_label || has_hn_url
  end.

Definition _extract_hn_urls (text : str) : list HNLink :=
  List.map (fun m => {| link_url := m_text m; link_item_id := group m 1 |})
           (re_finditer HN_URL_PATTERN text).

Definition _extract_hn_urls_from_title_and_body (title text : str)
  : list HNLink :=
  _extract_hn_urls title ++ _extract_hn_urls text.

Definition _extract_hashtag_labels (text : str) : list str :=
  List.map (fun m => group m 1) (re_finditer HASHTAG_PATTERN text).

Definition parse (nd : note_data) : result ParsedNote :=
  match nd with
  | NotADict => Raise must_be_dict
  | Dict n =>
      let text := get_or [] (n_text n) in
      let title := get_or [] (n_title n) in
      let labels := get_or [] (n_labels n) in
      let hn_urls := _extract_hn_urls_from_title_and_body title text in
      let all_labels :=
        List.map str_of_label labels ++ _extract_hashtag_labels text in
      Ok {| note_id := get_or [] (n_id n);
            title := title;
            url := match hn_urls with l :: _ => link_url l | [] => [] end;
            item_id := match hn_urls with l :: _ => link_item_id l | [] => [] end;
            labels := all_labels;
            description := text;
            hn_links := hn_urls |}
  end.

End WithRuntime.
End HackerNewsParser.

(** ** [parsers/generic_notes_parser.py] *)

Module GenericNotesParser.

Record Checkbox := {
  checked : bool;
  text : str
}.

Record GenericNote := {
  note_id : str;
  title : str;
  links : list str;
  checkboxes : list Checkbox;
  rest : list str
}.

(** The class that ends a URL: anything but white space, [<], [>], the
    quotation mark (34), the apostrophe (39), [)], [}] and the closing
    square bracket *)
Definition URL_BODY : cls :=
  CNot [ CSpace; CLit 60; CLit 62; CLit 34; CLit 39; CLit 41; CLit 125;
         CLit 93 ].

(** [https?://B+|www\.B+] where [B] is the class above *)
Definition URL_PATTERN : re :=
  Alt (cat [ lits (lit "http"); opt1 (CLit 115); lits (lit "://");
             plus URL_BODY ])
      (cat [ lits (lit "www."); plus URL_BODY ]).

(** [^\s*([☐☑])\s*(.+)$] *)
Definition CHECKBOX_PATTERN : re :=
  cat [ Bol; star CSpace;
        Group 1 (Chr (CSet [CLit UNCHECKED_BOX; CLit CHECKED_BOX]));
        star CSpace; Group 2 (plus CAny); Eol ].

Section WithRuntime.
Context {RT : Runtime}.

Definition can_parse (nd : note_data) : bool :=
  match nd with
  | NotADict => false
  | Dict _ => true
  end.

(** The loop of [_extract_links]: [links] and [seen_links] so far, then
    the next URL found. *)
Definition see_link (acc : list str * list str) (link : str)
  : list str * list str :=
  let '(links, seen_links) := acc in
  if existsb (str_eqb link) seen_links then acc
  else (links ++ [link], link :: seen_links).

Definition _extract_links (text : str) : list str :=
  fst (fold_left see_link
         (List.map m_text (re_finditer URL_PATTERN text)) ([], [])).

(** The loop of [parse]: [checkboxes] and [rest] so far, then the line. *)
Definition classify_line (acc : list Checkbox * list str) (line : str)
  : list Checkbox * list str :=
  let '(checkboxes, rest) := acc in
  let stripped_line := strip line in
  if negb (nonempty stripped_line) then acc
  else
    match re_match CHECKBOX_PATTERN stripped_line with
    | Some m =>
        let checkbox_char := group m 1 in
        let checkbox_text := strip (group m 2) in
        let is_checked := str_eqb checkbox_char [CHECKED_BOX] in
        (checkboxes ++ [ {| checked := is_checked; text := checkbox_text |} ],
         rest)
    | None => (checkboxes, rest ++ [stripped_line])
    end.

Definition parse (nd : note_data) : result GenericNote :=
  match nd with
  | NotADict => Raise must_be_dict
  | Dict n =>
      let text := get_or [] (n_text n) in
      let title := get_or [] (n_title n) in
      let links := _extract_links text in
      let '(checkboxes, rest) :=
        fold_left classify_line (split NEWLINE text) ([], []) in
      Ok {| note_id := get_or [] (n_id n);
            title := title;
            links := links;
            checkboxes := checkboxes;
            rest := rest |}
  end.

End WithRuntime.
End GenericNotesParser.

(** ** [parsers/training_parser.py] *)

Module TrainingParser.

Record SetData := {
  set : Z;
  reps : Z;
  weight : double
}.

Record ExerciseData := {
  exercise_name : str;
  abbreviation : str;
  sets : list SetData;
  total_sets : nat;
  raw_line : str
}.

Record CompletedActivity := {
  timestamp : str;
  activity : str
}.

Record WorkoutData := {
  note_id : str;
  title : str;
  workout_date : str;
  last_updated : str;
  exercises : list ExerciseData;
  completed_activities : list CompletedActivity;
  raw_text : str
}.

(** The abbreviation table, in the order of its declaration, which is the
    order in which a Python dict is iterated. *)
Definition EXERCISE_PATTERNS : list (str * str) :=
  [ (lit "Bp", lit "Bench Press");
    (lit "Mr", lit "Machine Row");
    (lit "Ms", lit "Machine Squat");
    (lit "Sq", lit "Squat");
    (lit "Dl", lit "Deadlift");
    (lit "Pu", lit "Pull-up");
    (lit "Dip", lit "Dip");
    (lit "Row", lit "Row");
    (lit "Curl", lit "Curl");
    (lit "Press", lit "Press") ].

(** [rf'\b{abbr}\b'] with [re.IGNORECASE]; the keys of the table are
    letters only, so the interpolated text is a run of literals. *)
Definition abbr_pattern (abbr : str) : re := cat [ WordB; litsI abbr; WordB ].

Definition X_OR_TIMES : cls := CSet [CLit 120; CLit TIMES_SIGN].

(** [(\d+)\s*[x×]\s*(\d+)\s*[x×]\s*(\d+(?:\.\d+)?)] *)
Definition SET_REP_WEIGHT_PATTERN : re :=
  cat [ Group 1 (plus CDigit); star CSpace; Chr X_OR_TIMES; star CSpace;
        Group 2 (plus CDigit); star CSpace; Chr X_OR_TIMES; star CSpace;
        Group 3 (Seq (plus CDigit)
                     (Opt (Seq (Chr (CLit 46)) (plus CDigit)))) ].

(** [(\d{4}-\d{2}-\d{2}[T\s]\d{2}:\d{2}:\d{2})] *)
Definition timestamp_pattern : re :=
  Group 1 (cat [ times 4 CDigit; Chr (CLit 45); times 2 CDigit;
                 Chr (CLit 45); times 2 CDigit; Chr (CSet [CLit 84; CSpace]);
                 times 2 CDigit; Chr (CLit 58); times 2 CDigit;
                 Chr (CLit 58); times 2 CDigit ]).

(** The state of the scan of [_extract_exercises]. *)
Record scan_state := {
  exercises_dict : list (str * ExerciseData);
  current_exercise : option str;
  previous_indent : nat
}.

Definition initial_state : scan_state :=
  {| exercises_dict := []; current_exercise := None; previous_indent := 0 |}.

(** Dicts keyed by strings, in insertion order *)
Fixpoint dict_get {V} (k : str) (d : list (str * V)) : option V :=
  match d with
  | [] => None
  | (k', v) :: d' => if str_eqb k' k then Some v else dict_get k d'
  end.

(** [d[k] = v]: in place when the key is there, at the end otherwise *)
Fixpoint dict_set {V} (k : str) (v : V) (d : list (str * V)) : list (str * V) :=
  match d with
  | [] => [(k, v)]
  | (k', v') :: d' =>
      if str_eqb k' k then (k', v) :: d' else (k', v') :: dict_set k v d'
  end.

(** [d[k]] *)
Definition dict_item {V} (k : str) (d : list (str * V)) : result V :=
  match dict_get k d with
  | Some v => Ok v
  | None => Raise (KeyError k)
  end.

(** Truth value of a value that is a string or [None] *)
Definition truthy (o : option str) : bool :=
  match o with Some s => nonempty s | None => false end.

Section WithRuntime.
Context {RT : Runtime}.

Definition _normalize_checkboxes (text : str) : str :=
  replace CHECKED_BOX (lit "- [x] ")
    (replace UNCHECKED_BOX (lit "- [ ] ") text).

Definition abbr_found (text : str) (abbr : str) : bool :=
  is_some (re_search (abbr_pattern abbr) text).

Definition can_parse (nd : note_data) : bool :=
  match nd with
  | NotADict => false
  | Dict n =>
      let text := get_or [] (n_text n) in
      if negb (nonempty text) then false
      else
        let text := _normalize_checkboxes text in
        let has_exercise :=
          existsb (abbr_found text) (List.map fst EXERCISE_PATTERNS) in
        let has_set_format :=
          is_some (re_search SET_REP_WEIGHT_PATTERN text) in
        has_exercise && has_set_format
  end.

Definition set_of_match (m : match_obj) : result SetData :=
  set_num <- py_int (group m 1) ;;
  reps_num <- py_int (group m 2) ;;
  w <- py_float (group m 3) ;;
  Ok {| set := set_num; reps := reps_num; weight := w |}.

Definition _extract_sets (line : str) : result (list SetData) :=
  mapM set_of_match (re_finditer SET_REP_WEIGHT_PATTERN line).

(** The inner loop over the table: the first key, in table order, with a
    word-bounded match on the line. *)
Definition first_matching_abbr (line : str) : option str :=
  option_map fst
    (find (fun '(abbr, _) => abbr_found line abbr) EXERCISE_PATTERNS).

Definition indent_of (line : str) : nat :=
  (length line - length (lstrip line))%nat.

(** One turn of the loop of [_extract_exercises]. *)
Definition scan_line (st : scan_state) (line : str) : result scan_state :=
  let current_indent := indent_of line in
  let matched_abbr := first_matching_abbr line in
  let current_exercise1 :=
    match matched_abbr with
    | Some abbr => Some abbr
    | None => current_exercise st
    end in
  let previous_indent1 :=
    match matched_abbr with
    | Some _ => current_indent
    | None => previous_indent st
    end in
  line_sets <- _extract_sets line ;;
  exercises_dict1 <-
    match line_sets with
    | _ :: _ =>
        let abbr_to_use :=
          if truthy matched_abbr then matched_abbr else current_exercise1 in
        match abbr_to_use with
        | Some abbr =>
            if nonempty abbr then
              full_name <- dict_item abbr EXERCISE_PATTERNS ;;
              match dict_get abbr (exercises_dict st) with
              | Some e =>
                  let all_sets := sets e ++ line_sets in
                  Ok (dict_set abbr
                        {| exercise_name := exercise_name e;
                           abbreviation := abbreviation e;
                           sets := all_sets;
                           total_sets := length all_sets;
                           raw_line := raw_line e ++ [NEWLINE] ++ strip line |}
                        (exercises_dict st))
              | None =>
                  Ok (dict_set abbr
                        {| exercise_name := full_name;
                           abbreviation := abbr;
                           sets := line_sets;
                           total_sets := length line_sets;
                           raw_line := strip line |}
                        (exercises_dict st))
              end
            else Ok (exercises_dict st)
        | None => Ok (exercises_dict st)
        end
    | [] => Ok (exercises_dict st)
    end ;;
  let current_exercise2 :=
    if (current_indent <=? previous_indent1)%nat
       && negb (truthy matched_abbr)
       && match line_sets with [] => true | _ :: _ => false end
    then None
    else current_exercise1 in
  Ok {| exercises_dict := exercises_dict1;
        current_exercise := current_exercise2;
        previous_indent := previous_indent1 |}.

(** The scan of the lines from a given state. *)
Definition scan (lines : list str) (st : scan_state) : result scan_state :=
  foldM scan_line lines st.

Definition _extract_exercises (text : str) : result (list ExerciseData) :=
  final <- scan (split NEWLINE text) initial_state ;;
  Ok (List.map snd (exercises_dict final)).

(** What the created timestamp is compared with:
    [created_timestamp.split('.')[0].replace(' ', 'T')] *)
Definition created_key (created_timestamp : str) : str :=
  replace 32 (lit "T") (hd [] (split 46 created_timestamp)).

(** The body of the loop of [_extract_completed_activities] for one match:
    the activity it appends, if any. *)
Definition activity_of_match (text created_timestamp : str) (m : match_obj)
  : option CompletedActivity :=
  let timestamp_str := group m 1 in
  if negb (str_eqb timestamp_str (created_key created_timestamp)) then
    let line_start := py_rfind NEWLINE text (m_start m) in
    let line_end := py_find NEWLINE text (m_end m) in
    let line_end := if (line_end =? -1)%Z then Z.of_nat (length text) else line_end in
    let line_start := if (line_start =? -1)%Z then 0%Z else line_start in
    let activity_line :=
      strip (slice text (Z.to_nat line_start) (Z.to_nat line_end)) in
    Some {| timestamp := timestamp_str; activity := activity_line |}
  else None.

Definition keep_some {A} (l : list (option A)) : list A :=
  flat_map (fun o => match o with Some a => [a] | None => [] end) l.

Definition _extract_completed_activities (text created_timestamp : str)
  : list CompletedActivity :=
  let activities :=
    keep_some (List.map (activity_of_match text created_timestamp)
                        (re_finditer timestamp_pattern text)) in
  match activities with
  | [] =>
      if nonempty created_timestamp
      then [ {| timestamp := created_timestamp;
                activity := lit "Workout logged" |} ]
      else []
  | _ :: _ => activities
  end.

Definition parse (nd : note_data) : result WorkoutData :=
  match nd with
  | NotADict => Raise must_be_dict
  | Dict n =>
      let text := _normalize_checkboxes (get_or [] (n_text n)) in
      let created := get_created n in
      exs <- _extract_exercises text ;;
      Ok {| note_id := get_or [] (n_id n);
            title := get_or [] (n_title n);
            workout_date := created;
            last_updated := get_edited n;
            exercises := exs;
            completed_activities := _extract_completed_activities text created;
            raw_text := text |}
  end.

End WithRuntime.
End TrainingParser.

(** ** [parsers/base.py] *)

Module ParserRegistry.

Section Registry.

(** What a parser returns, what [jsonschema.validate] receives and the
    schema documents. *)
Variables parsed json schema : Type.

(** Lines 53-56 of [base.py]: [asdict(parsed_data)] for a dataclass
    instance, [parsed_data] itself otherwise. *)
Variable validation_data : parsed -> json.

(** [jsonschema.validate(instance, schema)]: [None] when it returns,
    [Some msg] when it raises a [ValidationError] whose [message] is [msg]. *)
Variable validate : json -> schema -> option str.

(** The interface [NoteParser]. *)
Record NoteParser := {
  can_parse : note_data -> bool;
  parse : note_data -> result parsed;
  get_schema : schema
}.

(** A class object handed to [register]: a subclass of [NoteParser], or
    some other class, [shown] being what [str()] prints for it. *)
Inductive class_obj :=
| ParserClass (p : NoteParser)
| OtherClass (shown : str).

(** The list [_parsers]. *)
Definition registry := list NoteParser.

Definition empty : registry := [].

Definition register (reg : registry) (parser_class : class_obj)
  : result registry :=
  match parser_class with
  | ParserClass p => Ok (reg ++ [p])
  | OtherClass shown =>
      Raise (TypeError (shown ++ lit " must be a subclass of NoteParser"))
  end.

Definition no_parser_found : exn :=
  ValueError (lit "No suitable parser found for the given note data").

Fixpoint get_parser (reg : registry) (nd : note_data) : result NoteParser :=
  match reg with
  | [] => Raise no_parser_found
  | parser :: reg' =>
      if can_parse parser nd then Ok parser else get_parser reg' nd
  end.

Definition schema_violation (message : str) : exn :=
  ValueError (lit "Parsed data does not conform to schema: " ++ message).

Definition registry_parse (reg : registry) (nd : note_data) : result parsed :=
  parser <- get_parser reg nd ;;
  parsed_data <- parse parser nd ;;
  let sch := get_schema parser in
  match validate (validation_data parsed_data) sch with
  | Some message => Raise (schema_violation message)
  | None => Ok parsed_data
  end.

End Registry.
End ParserRegistry.

(** ** [parse_notes.py]: the registry of the batch driver *)

(** The records of the three registered parsers and of the generic one. *)
Inductive parsed_data :=
| HackerNewsRecord (r : HackerNewsParser.ParsedNote)
| TimeEntryRecord (r : TimeEntryParser.ParseResult)
| WorkoutRecord (r : TrainingParser.WorkoutData)
| GenericRecord (r : GenericNotesParser.GenericNote).

(** The validation library and the schema files, which lie outside the
    source tree: [asdict] of [dataclasses], [validate] of [jsonschema]
    ([None] when it returns, [Some msg] when it raises a [ValidationError]
    whose [message] is [msg]), and the document [load_schema name] that
    [get_schema] reads from [schemas/name]; reading it is taken to
    succeed. *)
Class Validation := {
  json : Type;
  schema : Type;
  asdict : parsed_data -> json;
  validate : json -> schema -> option str;
  load_schema : str -> schema
}.

Section Driver.
Context {RT : Runtime} {V : Validation}.

Definition map_result {A B} (f : A -> B) (r : result A) : result B :=
  x <- r ;; Ok (f x).

(** The value a call that is known to return gives.  [can_parse] of
    [TimeEntryParser] goes through [int], which can raise in general;
    it never does on the groups the time-code pattern captures. *)
Definition returned (r : result bool) : bool :=
  match r with Ok b => b | Raise _ => false end.

Definition HackerNews : ParserRegistry.NoteParser parsed_data schema :=
  {| ParserRegistry.can_parse := HackerNewsParser.can_parse;
     ParserRegistry.parse :=
       fun nd => map_result HackerNewsRecord (HackerNewsParser.parse nd);
     ParserRegistry.get_schema := load_schema (lit "hackernews.schema.json") |}.

Definition TimeEntry : ParserRegistry.NoteParser parsed_data schema :=
  {| ParserRegistry.can_parse :=
       fun nd => returned (TimeEntryParser.can_parse nd);
     ParserRegistry.parse :=
       fun nd => map_result TimeEntryRecord (TimeEntryParser.parse nd);
     ParserRegistry.get_schema := load_schema (lit "time_entry.schema.json") |}.

Definition Training : ParserRegistry.NoteParser parsed_data schema :=
  {| ParserRegistry.can_parse := TrainingParser.can_parse;
     ParserRegistry.parse :=
       fun nd => map_result WorkoutRecord (TrainingParser.parse nd);
     ParserRegistry.get_schema := load_schema (lit "training.schema.json") |}.

Definition Generic : ParserRegistry.NoteParser parsed_data schema :=
  {| ParserRegistry.can_parse := GenericNotesParser.can_parse;
     ParserRegistry.parse :=
       fun nd => map_result GenericRecord (GenericNotesParser.parse nd);
     ParserRegistry.get_schema := load_schema (lit "generic_notes.schema.json") |}.

(** The three [registry.register(...)] calls of [main]. *)
Definition main_registry
  : result (ParserRegistry.registry parsed_data schema) :=
  r1 <- ParserRegistry.register (ParserRegistry.empty _ _)
          (ParserRegistry.ParserClass HackerNews) ;;
  r2 <- ParserRegistry.register r1 (ParserRegistry.ParserClass TimeEntry) ;;
  ParserRegistry.register r2 (ParserRegistry.ParserClass Training).

(** [registry.parse(note_data)] as [process_json_file] calls it. *)
Definition main_parse (nd : note_data) : result parsed_data :=
  reg <- main_registry ;;
  ParserRegistry.registry_parse asdict validate reg nd.

End Driver.

(** A validation oracle that accepts every record and takes the file name
    for the schema; it serves to run the registry on concrete notes. *)
Definition accept_all : Validation :=
  {| json := parsed_data;
     schema := str;
     asdict := fun r => r;
     validate := fun _ _ => None;
     load_schema := fun name => name |}.

(** A note with the given title and text and nothing else. *)
Definition note_of (title text : option str) : note :=
  {| n_id := None; n_title := title; n_text := text; n_labels := None;
     n_timestamps := None |}.

(** ** Definitions the statements use *)

(** The title and the text of the HackerNews example. *)
Definition HN_TITLE : str := lit "https://news.ycombinator.com/item?id=11111".
Definition HN_TEXT : str := lit "https://news.ycombinator.com/item?id=22222".

(** The first occurrences of the elements of a list, in their order: an
    element is kept and its later copies are dropped. *)
Fixpoint first_occurrences (l : list str) : list str :=
  match l with
  | [] => []
  | x :: t => x :: filter (fun y => negb (str_eqb x y)) (first_occurrences t)
  end.

(** What the loop of [_extract_links] adds when it starts with [seen]. *)
Fixpoint fresh (seen : list str) (l : list str) : list str :=
  match l with
  | [] => []
  | x :: t =>
      if existsb (str_eqb x) seen then fresh seen t
      else x :: fresh (x :: seen) t
  end.

Section TimeCodeSpec.
Context {RT : Runtime}.

(** The value of a decimal digit. *)
Definition digit (c : char) : Z :=
  match todecimal c with Some d => Z.of_N d | None => 0%Z end.

(** Hours and minutes of a time code as the specification splits it: one
    digit and two for a code of three digits, two and two for one of
    four. *)
Definition hours_minutes (code : str) : option (Z * Z) :=
  match code with
  | [h; m1; m2] => Some (digit h, 10 * digit m1 + digit m2)%Z
  | [h1; h2; m1; m2] =>
      Some (10 * digit h1 + digit h2, 10 * digit m1 + digit m2)%Z
  | _ => None
  end.

(** A code is valid when its hours are within 0..23 and its minutes
    within 0..59. *)
Definition valid_code (code : str) : bool :=
  match hours_minutes code with
  | Some (h, m) => (0 <=? h)%Z && (h <=? 23)%Z && (0 <=? m)%Z && (m <=? 59)%Z
  | None => false
  end.

(** The lines of a text, each stripped. *)
Definition text_lines (text : str) : list str :=
  List.map strip (split NEWLINE text).

(** A stripped line matches the time-code pattern with a valid code. *)
Definition valid_time_line (line : str) : bool :=
  match re_match TimeEntryParser.TIME_CODE_PATTERN line with
  | Some m => valid_code (group m 1)
  | None => false
  end.

(** The entry of a stripped line that matches with a valid code. *)
Definition line_entry (base_date line : str)
  : option TimeEntryParser.time_entry :=
  match re_match TimeEntryParser.TIME_CODE_PATTERN line with
  | Some m =>
      if valid_code (group m 1) then
        let time_str := TimeEntryParser._parse_time_code (group m 1) in
        Some {| TimeEntryParser.timestamp :=
                  if nonempty base_date
                  then base_date ++ lit "T" ++ time_str ++ lit ":00"
                  else time_str ++ lit ":00";
                TimeEntryParser.time := time_str;
                TimeEntryParser.date := base_date;
                TimeEntryParser.activity := strip (group m 2);
                TimeEntryParser.raw_line := line |}
      else None
  | None => None
  end.

(** The entries of the matching lines of a text, in the order of the
    lines. *)
Definition line_entries (base_date text : str)
  : list TimeEntryParser.time_entry :=
  flat_map (fun line =>
              match line_entry base_date line with
              | Some e => [e]
              | None => []
              end)
           (text_lines text).

End TimeCodeSpec.

(** The text and the creation timestamp of the TimeEntry example. *)
Definition TE_TEXT : str :=
  lit "1420 Lunch" ++ [NEWLINE] ++ lit "0637 Woke up" ++ [NEWLINE]
  ++ lit "1053 Coffee".
Definition TE_CREATED : str := lit "2024-01-15T06:37:00Z".

(** A runtime as [ascii_runtime] whose [fromisoformat] reads one
    timestamp, the creation timestamp above with its [Z] replaced, and
    prints its date. *)
Definition one_date_runtime : Runtime :=
  {| uni_isspace := fun _ => false;
     uni_todecimal := fun _ => None;
     uni_isalnum := fun _ => false;
     uni_ignorecase := fun _ _ => false;
     fromisoformat_date :=
       fun s => if str_eqb s (lit "2024-01-15T06:37:00+00:00")
                then Some (lit "2024-01-15") else None |}.

(** [a <= b] on the keys of two entries. *)
Definition time_le (a b : TimeEntryParser.time_entry) : Prop :=
  str_leb (TimeEntryParser.time a) (TimeEntryParser.time b) = true.

(** ** Set-triples and the numbers [int] reads *)

Section SetTriples.
Context {RT : Runtime}.

(** The number a run of decimal digits writes. *)
Definition number (s : str) : N :=
  fold_left (fun n c => 10 * n + get_or 0 (todecimal c)) s 0.

(** The number a decimal literal writes, [digits] or [digits.digits], as
    the double nearest to it. *)
Definition weight_written (s : str) : double :=
  match split 46 s with
  | [ip; fp] =>
      nearest_double (number (ip ++ fp)) (10 ^ N.of_nat (length fp))
  | _ => nearest_double (number s) 1
  end.

(** The set-triple a match of the set-triple pattern writes: its first
    number as the set, its second as the reps, its third as the weight. *)
Definition set_triple (m : match_obj) : TrainingParser.SetData :=
  {| TrainingParser.set := Z.of_N (number (group m 1));
     TrainingParser.reps := Z.of_N (number (group m 2));
     TrainingParser.weight := weight_written (group m 3) |}.

(** The set-triples of a line, from left to right. *)
Definition set_triples (line : str) : list TrainingParser.SetData :=
  List.map set_triple
    (re_finditer TrainingParser.SET_REP_WEIGHT_PATTERN line).

(** The runs of digits of a line that go to [int], in the order in which
    they go: the set and the reps of each set-triple. *)
Definition int_texts (line : str) : list str :=
  flat_map (fun m => [group m 1; group m 2])
    (re_finditer TrainingParser.SET_REP_WEIGHT_PATTERN line).

(** A run of digits longer than [int] takes. *)
Definition too_long (s : str) : bool :=
  (INT_MAX_STR_DIGITS <? length s)%nat.

(** The first run of a line that is too long for [int], and the first of
    a list of lines. *)
Definition first_long_number (line : str) : option str :=
  find too_long (int_texts line).

Definition long_number (lines : list str) : option str :=
  find too_long (flat_map int_texts lines).

End SetTriples.

(** The keys of the abbreviation table, in the order of the table. *)
Definition abbreviations : list str :=
  List.map fst TrainingParser.EXERCISE_PATTERNS.

Section TrainingSpec.
Context {RT : Runtime}.

(** The indent of the most recent line with a match of a table key, 0 when
    no line has one. *)
Definition last_matched_indent (lines : list str) : nat :=
  match find (fun l => is_some (TrainingParser.first_matching_abbr l))
             (rev lines) with
  | Some l => TrainingParser.indent_of l
  | None => 0
  end.

(** A line establishes or continues an exercise context, in the words of
    the specification: it matches a table key, or it has set-triples and
    they go to the exercise carried over from the lines before. *)
Definition keeps_context (st : TrainingParser.scan_state) (line : str) : bool :=
  is_some (TrainingParser.first_matching_abbr line)
  || (match TrainingParser._extract_sets line with
      | Ok (_ :: _) => true
      | _ => false
      end
      && TrainingParser.truthy (TrainingParser.current_exercise st)).

(** The indent of the most recent line that established or continued an
    exercise context along the scan that starts in [st]; [last] is the
    value before the first line. *)
Fixpoint context_indent (lines : list str) (st : TrainingParser.scan_state)
    (last : nat) : nat :=
  match lines with
  | [] => last
  | line :: t =>
      match TrainingParser.scan_line st line with
      | Ok st' =>
          context_indent t st'
            (if keeps_context st line then TrainingParser.indent_of line
             else last)
      | Raise _ => last
      end
  end.

(** The sets an abbreviation has collected so far. *)
Definition sets_so_far (abbr : str) (st : TrainingParser.scan_state)
  : list TrainingParser.SetData :=
  match TrainingParser.dict_get abbr (TrainingParser.exercises_dict st) with
  | Some e => TrainingParser.sets e
  | None => []
  end.

(** What the scan keeps true of its state: the current exercise, when
    there is one, is a key of the table. *)
Definition state_ok (st : TrainingParser.scan_state) : Prop :=
  forall a, TrainingParser.current_exercise st = Some a -> In a abbreviations.

End TrainingSpec.

(** Two lines: a table key, then an indented line of set-triples. *)
Definition INDENTED_SETS : list str := [lit "Bp"; lit "  3x8x100"].

(** A text whose only timestamp is the creation timestamp, both written
    with a space between date and time. *)
Definition CREATED_WITH_SPACE : str := lit "2024-01-01 10:00:00".
Definition CREATED_NOTE_TEXT : str := lit "2024-01-01 10:00:00 Created note".

(** ** [parsers/base.py]: the registry as a list of class objects

    [_parsers] holds classes; [unregister] compares them with [==], which
    on classes is identity, and [get_parser] instantiates each in turn.
    [classes] stands for the subclasses of [NoteParser], [class_eqb] for
    their [==] and [instantiate c] for [c()]. *)

Module ParserClasses.

Section Classes.
Variables parsed schema classes : Type.
Variable class_eqb : classes -> classes -> bool.
Variable instantiate : classes -> ParserRegistry.NoteParser parsed schema.

(** [l.remove(c)] on a list that holds [c]: the first element equal to [c]
    goes (on a list without [c], where Python raises, nothing goes) *)
Fixpoint list_remove (c : classes) (l : list classes) : list classes :=
  match l with
  | [] => []
  | x :: t => if class_eqb c x then t else x :: list_remove c t
  end.

Definition register (reg : list classes) (parser_class : classes)
  : list classes :=
  reg ++ [parser_class].

Definition unregister (reg : list classes) (parser_class : classes)
  : list classes :=
  if existsb (class_eqb parser_class) reg then list_remove parser_class reg
  else reg.

Definition clear (reg : list classes) : list classes := [].

(** The parsers [get_parser] tries, in its order *)
Definition parsers (reg : list classes)
  : ParserRegistry.registry parsed schema :=
  List.map instantiate reg.

Definition get_parser (reg : list classes) (nd : note_data)
  : result (ParserRegistry.NoteParser parsed schema) :=
  ParserRegistry.get_parser (parsers reg) nd.

End Classes.
End ParserClasses.

(** The four parser classes of the repository. *)
Inductive parser_class :=
| HackerNewsParser_class
| TimeEntryParser_class
| TrainingParser_class
| GenericNotesParser_class.

Definition parser_class_eqb (a b : parser_class) : bool :=
  match a, b with
  | HackerNewsParser_class, HackerNewsParser_class => true
  | TimeEntryParser_class, TimeEntryParser_class => true
  | TrainingParser_class, TrainingParser_class => true
  | GenericNotesParser_class, GenericNotesParser_class => true
  | _, _ => false
  end.

Section ParserInstances.
Context {RT : Runtime} {V : Validation}.

Definition new_parser (c : parser_class)
  : ParserRegistry.NoteParser parsed_data schema :=
  match c with
  | HackerNewsParser_class => HackerNews
  | TimeEntryParser_class => TimeEntry
  | TrainingParser_class => Training
  | GenericNotesParser_class => Generic
  end.

End ParserInstances.

(** A note carries the label that marks it for the HackerNews parser. *)
Definition has_download_label (n : note) : bool :=
  existsb (fun l => str_eqb (str_of_label l) HackerNewsParser.DOWNLOAD_HN_LABEL)
          (get_or [] (n_labels n)).

(** A labelled note whose text is the three time-code lines. *)
Definition LABELLED_TIME_NOTE : note :=
  {| n_id := None; n_title := None; n_text := Some TE_TEXT;
     n_labels := Some [LabelStr HackerNewsParser.DOWNLOAD_HN_LABEL];
     n_timestamps := None |}.

Section TimeOfDay.
Context {RT : Runtime}.

(** The minutes since midnight a time code stands for. *)
Definition minutes_of_day (code : str) : Z :=
  match hours_minutes code with
  | Some (h, m) => (60 * h + m)%Z
  | None => 0%Z
  end.

End TimeOfDay.

(** A string of the ASCII digits 0 to 9. *)
Definition ascii_digits (s : str) : bool :=
  forallb (fun c => (48 <=? c) && (c <=? 57)) s.

Section TrainingRecords.
Context {RT : Runtime}.

(** The dict of exercises after the set-triples of a line have gone to
    the abbreviation [abbr], whose full name is [full_name]: its record
    grows when it has one and is created otherwise. *)
Definition add_sets (abbr full_name line : str)
    (line_sets : list TrainingParser.SetData)
    (d : list (str * TrainingParser.ExerciseData))
  : list (str * TrainingParser.ExerciseData) :=
  TrainingParser.dict_set abbr
    match TrainingParser.dict_get abbr d with
    | Some e =>
        {| TrainingParser.exercise_name := TrainingParser.exercise_name e;
           TrainingParser.abbreviation := TrainingParser.abbreviation e;
           TrainingParser.sets := TrainingParser.sets e ++ line_sets;
           TrainingParser.total_sets :=
             length (TrainingParser.sets e ++ line_sets);
           TrainingParser.raw_line :=
             TrainingParser.raw_line e ++ [NEWLINE] ++ strip line |}
    | None =>
        {| TrainingParser.exercise_name := full_name;
           TrainingParser.abbreviation := abbr;
           TrainingParser.sets := line_sets;
           TrainingParser.total_sets := length line_sets;
           TrainingParser.raw_line := strip line |}
    end d.

End TrainingRecords.

(** A record stored under the key [k] is well formed: it carries [k] as
    its abbreviation and the full name the table gives for [k], it has at
    least one set, and its count of sets is the length of its sets. *)
Definition record_ok (k : str) (e : TrainingParser.ExerciseData) : Prop :=
  TrainingParser.abbreviation e = k
  /\ TrainingParser.dict_get k TrainingParser.EXERCISE_PATTERNS
     = Some (TrainingParser.exercise_name e)
  /\ TrainingParser.total_sets e = length (TrainingParser.sets e)
  /\ TrainingParser.sets e <> [].

Definition dict_ok (d : list (str * TrainingParser.ExerciseData)) : Prop :=
  NoDup (List.map fst d)
  /\ Forall (fun ke => record_ok (fst ke) (snd ke)) d.

(** [d2] continues [d1]: the keys of [d1] are the first keys of [d2], in
    the same order, and the sets of each record of [d1] are the first sets
    of the record [d2] has for the same key. *)
Definition grows (d1 d2 : list (str * TrainingParser.ExerciseData)) : Prop :=
  (exists extra, List.map fst d2 = List.map fst d1 ++ extra)
  /\ forall k e1,
       TrainingParser.dict_get k d1 = Some e1 ->
       exists e2 more,
         TrainingParser.dict_get k d2 = Some e2
         /\ TrainingParser.sets e2 = TrainingParser.sets e1 ++ more.

Section GenericLines.
Context {RT : Runtime}.

(** A stripped line is a checkbox line. *)
Definition is_checkbox_line (line : str) : bool :=
  is_some (re_match GenericNotesParser.CHECKBOX_PATTERN line).

(** The checkbox of a stripped line that is a checkbox line. *)
Definition checkbox_of_line (line : str)
  : option GenericNotesParser.Checkbox :=
  match re_match GenericNotesParser.CHECKBOX_PATTERN line with
  | Some m =>
      Some {| GenericNotesParser.checked := str_eqb (group m 1) [CHECKED_BOX];
              GenericNotesParser.text := strip (group m 2) |}
  | None => None
  end.

(** The lines of a text that are not blank, each stripped. *)
Definition nonblank_lines (text : str) : list str :=
  filter nonempty (text_lines text).

End GenericLines.

Section BoxLines.
Context {RT : Runtime}.

(** One of the two ballot boxes *)
Definition is_box (c : char) : bool :=
  (c =? UNCHECKED_BOX) || (c =? CHECKED_BOX).

(** A line that opens with a ballot box and goes on after it. *)
Definition box_line (line : str) : bool :=
  match line with
  | c :: _ :: _ => is_box c
  | _ => false
  end.

(** The checkbox such a line stands for: checked with the second box, and
    what follows the box, stripped, as its text. *)
Definition box_of_line (line : str) : GenericNotesParser.Checkbox :=
  match line with
  | c :: body =>
      {| GenericNotesParser.checked := c =? CHECKED_BOX;
         GenericNotesParser.text := strip body |}
  | [] =>
      {| GenericNotesParser.checked := false;
         GenericNotesParser.text := [] |}
  end.

End BoxLines.

Section UrlChars.
Context {RT : Runtime}.

(** A character a URL goes on with: no white space and none of [<], [>],
    the quotation mark (34), the apostrophe (39), [)], [}] and the closing
    square bracket. *)
Definition url_char (c : char) : bool :=
  negb (isspace c) && negb (contains c [60; 62; 34; 39; 41; 125; 93]).

(** The three ways a URL opens *)
Definition url_openings : list str :=
  [lit "http://"; lit "https://"; lit "www."].

End UrlChars.

Section PlacesInText.
Context {RT : Runtime}.

(** The pattern has neither [^] nor [$]. *)
Fixpoint anchor_free (r : re) : bool :=
  match r with
  | Seq r1 r2 | Alt r1 r2 => anchor_free r1 && anchor_free r2
  | Opt r1 | Group _ r1 => anchor_free r1
  | Bol | Eol => false
  | Eps | Chr _ | Rep _ _ _ | WordB => true
  end.

(** The character before the position reached by reading [a] from a
    position that has [p] before it. *)
Fixpoint prev_after (p : option char) (a : str) : option char :=
  match a with
  | [] => p
  | x :: a' => prev_after (Some x) a'
  end.

(** [p], the character before a position, is a word character. *)
Definition word_prev (p : option char) : bool :=
  match p with Some c => isword c | None => false end.

(** The text [t] does not open with a word character. *)
Definition no_word_ahead (t : str) : bool :=
  match t with c :: _ => negb (isword c) | [] => true end.

(** [st2] stands in a longer text where [st1] stands in a piece of it:
    [t] follows the piece, and the characters before the two positions
    are both word characters or both not. *)
Definition follows (t : str) (st1 st2 : mstate) : Prop :=
  rest st2 = rest st1 ++ t /\ caps st2 = caps st1
  /\ word_before st2 = word_before st1.

End PlacesInText.

(** ** Completed activities, in the words of the specification *)

Section ActivityLines.
Context {RT : Runtime}.

(** What comes before the first dot of a string. *)
Fixpoint before_dot (s : str) : str :=
  match s with
  | [] => []
  | c :: t => if c =? 46 then [] else c :: before_dot t
  end.

(** The creation timestamp as the timestamps of the text are compared
    with it: cut at its first dot, each of its spaces turned into a [T]. *)
Definition creation_stamp (created_timestamp : str) : str :=
  List.map (fun c => if c =? 32 then 84 else c) (before_dot created_timestamp).

(** The line of a text around a piece of it, stripped: what stands before
    the piece since the last newline, the piece, and what follows it up
    to the next newline. *)
Definition line_around (before piece after : str) : str :=
  strip (last (split NEWLINE before) [] ++ piece
         ++ hd [] (split NEWLINE after)).

End ActivityLines.

(** * Properties *)

(** ** Strings and results *)

Lemma str_eqb_eq (a b : str) : str_eqb a b = true <-> a = b.
Proof.
  revert b; induction a as [|x a IH]; intros [|y b]; simpl;
    try (split; [discriminate | discriminate]); try tauto.
  rewrite andb_true_iff, N.eqb_eq, IH.
  split; [intros [-> ->]; reflexivity | intros H; injection H; auto].
Qed.

Lemma str_eqb_refl (a : str) : str_eqb a a = true.
Proof. apply str_eqb_eq; reflexivity. Qed.

Lemma str_eqb_neq (a b : str) : str_eqb a b = false <-> a <> b.
Proof.
  rewrite <- str_eqb_eq. destruct (str_eqb a b); split; congruence.
Qed.

Lemma bind_Ok {A B} (r : result A) (k : A -> result B) (b : B) :
  bind r k = Ok b -> exists a, r = Ok a /\ k a = Ok b.
Proof. destruct r as [a|e]; simpl; [eauto | discriminate]. Qed.

(** ** The matcher *)

Section MatcherFacts.
Context {RT : Runtime}.

Lemma in_rep_matches (test : char -> bool) (s : str) :
  forall lo hi p w e,
    In (w, e) (rep_matches test lo hi p s) ->
    forallb test w = true /\ (lo <= length w)%nat
    /\ (forall h, hi = Some h -> (length w <= h)%nat)
    /\ s = w ++ snd e.
Proof.
  induction s as [|x t IH]; intros lo hi p w e H.
  - simpl in H. destruct lo; [|contradiction].
    destruct H as [[= <- <-]|[]]. simpl.
    repeat split; auto; try (intros; lia).
  - simpl in H.
    assert (Stop : In (w, e) match lo with O => [([], (p, x :: t))] | S _ => [] end ->
                   forallb test w = true /\ (lo <= length w)%nat
                   /\ (forall h, hi = Some h -> (length w <= h)%nat)
                   /\ x :: t = w ++ snd e).
    { destruct lo; [|contradiction]. intros [[= <- <-]|[]]. simpl.
      repeat split; auto; try (intros; lia). }
    destruct (test x && hi_allows hi) eqn:Hx; [|auto].
    apply in_app_or in H. destruct H as [H|H]; [|auto].
    apply in_map_iff in H. destruct H as ([w' e'] & [= <- <-] & H).
    apply andb_true_iff in Hx. destruct Hx as [Hx Hhi].
    destruct (IH _ _ _ _ _ H) as (Hall & Hlo & Hh & ->).
    simpl. rewrite Hx, Hall. repeat split; auto.
    + lia.
    + intros h ->. destruct h; [discriminate|].
      specialize (Hh h eq_refl). lia.
Qed.

Lemma in_matches_Seq (r1 r2 : re) (st st' : mstate) (w : str) :
  In (w, st') (matches (Seq r1 r2) st) ->
  exists w1 s1 w2,
    In (w1, s1) (matches r1 st) /\ In (w2, st') (matches r2 s1)
    /\ w = w1 ++ w2.
Proof.
  simpl. intros H. apply in_flat_map in H. destruct H as ([w1 s1] & H1 & H).
  apply in_map_iff in H. destruct H as ([w2 s2] & [= <- <-] & H2).
  eauto 6.
Qed.

Lemma matches_Rep_inv (lo : nat) (hi : option nat) (c : cls)
    (st st' : mstate) (w : str) :
  In (w, st') (matches (Rep lo hi c) st) ->
  caps st' = caps st /\ forallb (cls_test c) w = true
  /\ (lo <= length w)%nat /\ (forall h, hi = Some h -> (length w <= h)%nat)
  /\ rest st = w ++ rest st'.
Proof.
  simpl. intros H. apply in_map_iff in H.
  destruct H as ([w' [p s]] & [= <- <-] & H).
  apply in_rep_matches in H. simpl in *. tauto.
Qed.

Lemma matches_Chr_inv (c : cls) (st st' : mstate) (w : str) :
  In (w, st') (matches (Chr c) st) ->
  caps st' = caps st
  /\ exists x, w = [x] /\ cls_test c x = true /\ rest st = x :: rest st'.
Proof.
  simpl. destruct (rest st) as [|x t]; [contradiction|].
  destruct (cls_test c x) eqn:Hx; [|contradiction].
  intros [[= <- <-]|[]]. simpl. eauto.
Qed.

Lemma matches_Group_inv (n : nat) (r : re) (st st' : mstate) (w : str) :
  In (w, st') (matches (Group n r) st) ->
  exists s1, In (w, s1) (matches r st) /\ caps st' = (n, w) :: caps s1
             /\ rest st' = rest s1.
Proof.
  simpl. intros H. apply in_map_iff in H.
  destruct H as ([w' s1] & [= <- <-] & H). eauto.
Qed.

Lemma matches_Opt_inv (r : re) (st st' : mstate) (w : str) :
  In (w, st') (matches (Opt r) st) ->
  In (w, st') (matches r st) \/ (w = [] /\ st' = st).
Proof.
  simpl. intros H. apply in_app_or in H.
  destruct H as [H|[[= <- <-]|[]]]; auto.
Qed.

Lemma matches_Alt_inv (r1 r2 : re) (st st' : mstate) (w : str) :
  In (w, st') (matches (Alt r1 r2) st) ->
  In (w, st') (matches r1 st) \/ In (w, st') (matches r2 st).
Proof. simpl. apply in_app_or. Qed.

Lemma matches_Eps_inv (st st' : mstate) (w : str) :
  In (w, st') (matches Eps st) -> w = [] /\ st' = st.
Proof. simpl. intros [[= <- <-]|[]]; auto. Qed.

Lemma matches_Bol_inv (st st' : mstate) (w : str) :
  In (w, st') (matches Bol st) -> w = [] /\ st' = st.
Proof.
  simpl. destruct (prev st); [contradiction|]. intros [[= <- <-]|[]]; auto.
Qed.

Lemma matches_Eol_inv (st st' : mstate) (w : str) :
  In (w, st') (matches Eol st) -> w = [] /\ st' = st.
Proof.
  simpl. destruct (rest st) as [|c [|d t]]; try contradiction.
  - intros [[= <- <-]|[]]; auto.
  - destruct (c =? NEWLINE); [|contradiction]. intros [[= <- <-]|[]]; auto.
Qed.

Lemma matches_WordB_inv (st st' : mstate) (w : str) :
  In (w, st') (matches WordB st) -> w = [] /\ st' = st.
Proof.
  simpl. destruct (xorb (word_before st) (word_after st)); [|contradiction].
  intros [[= <- <-]|[]]; auto.
Qed.

Lemma match_at_In (r : re) (pos : nat) (p : option char) (s : str)
    (m : match_obj) :
  match_at r pos p s = Some m ->
  exists st',
    In (m_text m, st') (matches r {| prev := p; rest := s; caps := [] |})
    /\ m_caps m = caps st' /\ m_start m = pos.
Proof.
  unfold match_at.
  destruct (matches r _) as [|[w st'] l] eqn:E; [discriminate|].
  intros [= <-]. exists st'. simpl. auto.
Qed.

Lemma finditer_from_In (r : re) (s : str) :
  forall pos p skip m,
    In m (finditer_from r pos p s skip) ->
    exists pos' p' s', match_at r pos' p' s' = Some m.
Proof.
  induction s as [|x t IH]; intros pos p skip m H.
  - destruct skip; simpl in H; [|contradiction].
    destruct (match_at r pos p []) eqn:E; [|contradiction].
    destruct H as [<-|[]]. eauto.
  - destruct skip; simpl in H; [|eauto].
    destruct (match_at r pos p (x :: t)) eqn:E; [|eauto].
    destruct H as [<-|H]; eauto.
Qed.

End MatcherFacts.

(** Takes a hypothesis [In (w, st') (matches r st)] apart along the
    syntax of [r]. *)
Ltac inv_matches H :=
  lazymatch type of H with
  | In _ (matches (Seq _ _) _) =>
      let w1 := fresh "w" in
      let s1 := fresh "s" in
      let w2 := fresh "w" in
      let H1 := fresh "H" in
      let H2 := fresh "H" in
      let E := fresh "E" in
      apply in_matches_Seq in H; destruct H as (w1 & s1 & w2 & H1 & H2 & E);
      inv_matches H1; inv_matches H2
  | In _ (matches (Group _ _) _) =>
      let s1 := fresh "s" in
      let H1 := fresh "H" in
      let C := fresh "C" in
      let R := fresh "R" in
      apply matches_Group_inv in H; destruct H as (s1 & H1 & C & R);
      inv_matches H1
  | In _ (matches (Rep _ _ _) _) =>
      let C := fresh "C" in
      let A := fresh "A" in
      let L := fresh "L" in
      let U := fresh "U" in
      let R := fresh "R" in
      apply matches_Rep_inv in H; destruct H as (C & A & L & U & R)
  | In _ (matches (Chr _) _) =>
      let C := fresh "C" in
      let x := fresh "x" in
      let E := fresh "E" in
      let T := fresh "T" in
      let R := fresh "R" in
      apply matches_Chr_inv in H; destruct H as (C & x & E & T & R)
  | In _ (matches (Opt _) _) =>
      let E := fresh "E" in
      let E' := fresh "E" in
      apply matches_Opt_inv in H; destruct H as [H|[E E']]; [inv_matches H|]
  | In _ (matches Eps _) =>
      let E := fresh "E" in
      let E' := fresh "E" in
      apply matches_Eps_inv in H; destruct H as [E E']
  | In _ (matches Bol _) =>
      let E := fresh "E" in
      let E' := fresh "E" in
      apply matches_Bol_inv in H; destruct H as [E E']
  | In _ (matches Eol _) =>
      let E := fresh "E" in
      let E' := fresh "E" in
      apply matches_Eol_inv in H; destruct H as [E E']
  | In _ (matches WordB _) =>
      let E := fresh "E" in
      let E' := fresh "E" in
      apply matches_WordB_inv in H; destruct H as [E E']
  end.


(** ** The order on strings and the stable sort *)

Lemma str_ltb_irrefl (a : str) : str_ltb a a = false.
Proof.
  induction a as [|x a IH]; simpl; [reflexivity|].
  rewrite N.ltb_irrefl, N.eqb_refl, IH. reflexivity.
Qed.

Lemma str_ltb_trans (a b c : str) :
  str_ltb a b = true -> str_ltb b c = true -> str_ltb a c = true.
Proof.
  revert b c; induction a as [|x a IH]; intros [|y b] [|z c]; simpl;
    try discriminate; auto.
  rewrite !orb_true_iff, !andb_true_iff, !N.ltb_lt, !N.eqb_eq.
  intros [H1|[-> H1]] [H2|[-> H2]]; auto.
  - left; lia.
  - right; split; [reflexivity|]. eapply IH; eassumption.
Qed.

Lemma str_ltb_trichotomy (a b : str) :
  str_ltb a b = true \/ a = b \/ str_ltb b a = true.
Proof.
  revert b; induction a as [|x a IH]; intros [|y b]; simpl; auto.
  destruct (N.lt_trichotomy x y) as [H|[->|H]].
  - left. apply orb_true_iff; left. apply N.ltb_lt; assumption.
  - rewrite N.ltb_irrefl, N.eqb_refl. simpl.
    destruct (IH b) as [H|[->|H]]; auto.
  - right; right. apply orb_true_iff; left. apply N.ltb_lt; assumption.
Qed.

Lemma str_leb_refl (a : str) : str_leb a a = true.
Proof. unfold str_leb. rewrite str_ltb_irrefl. reflexivity. Qed.

Lemma str_ltb_leb (a b : str) : str_ltb a b = true -> str_leb a b = true.
Proof.
  intros H. unfold str_leb. destruct (str_ltb b a) eqn:E; [|reflexivity].
  pose proof (str_ltb_trans _ _ _ H E) as F. rewrite str_ltb_irrefl in F.
  discriminate.
Qed.

Lemma str_leb_trans (a b c : str) :
  str_leb a b = true -> str_leb b c = true -> str_leb a c = true.
Proof.
  unfold str_leb. rewrite !negb_true_iff. intros H1 H2.
  destruct (str_ltb c a) eqn:E; [|reflexivity].
  destruct (str_ltb_trichotomy b c) as [H|[->|H]].
  - rewrite (str_ltb_trans _ _ _ H E) in H1. discriminate.
  - congruence.
  - congruence.
Qed.

Lemma str_leb_antisym (a b : str) :
  str_leb a b = true -> str_leb b a = true -> a = b.
Proof.
  unfold str_leb. rewrite !negb_true_iff. intros H1 H2.
  destruct (str_ltb_trichotomy a b) as [H|[->|H]]; congruence.
Qed.

Section SortFacts.
Variable A : Type.
Variable key : A -> str.

Local Abbreviation le := (fun a b : A => str_leb (key a) (key b) = true).

Lemma insert_by_perm (x : A) (l : list A) :
  Permutation (x :: l) (insert_by key x l).
Proof.
  induction l as [|y t IH]; simpl; [apply Permutation_refl|].
  destruct (str_ltb (key y) (key x)); [|apply Permutation_refl].
  eapply perm_trans; [apply perm_swap|]. apply perm_skip. exact IH.
Qed.

Lemma sort_by_perm (l : list A) : Permutation l (sort_by key l).
Proof.
  induction l as [|x t IH]; simpl; [constructor|].
  eapply perm_trans; [apply perm_skip; exact IH|]. apply insert_by_perm.
Qed.

Lemma insert_by_sorted (x : A) (l : list A) :
  StronglySorted le l -> StronglySorted le (insert_by key x l).
Proof.
  induction 1 as [|y t Hs IH Hy]; simpl.
  - constructor; constructor.
  - destruct (str_ltb (key y) (key x)) eqn:E.
    + constructor; [exact IH|].
      apply Forall_forall. intros z Hz.
      apply (Permutation_in _ (Permutation_sym (insert_by_perm x t))) in Hz.
      destruct Hz as [<-|Hz].
      * apply str_ltb_leb; assumption.
      * rewrite Forall_forall in Hy. auto.
    + assert (Hxy : le x y) by (cbv beta; unfold str_leb; rewrite E; reflexivity).
      constructor; [constructor; assumption|].
      constructor; [exact Hxy|].
      apply Forall_forall. intros z Hz. rewrite Forall_forall in Hy.
      eapply str_leb_trans; [exact Hxy | auto].
Qed.

Lemma sort_by_sorted (l : list A) : StronglySorted le (sort_by key l).
Proof.
  induction l as [|x t IH]; simpl; [constructor|].
  apply insert_by_sorted; exact IH.
Qed.

Lemma insert_by_filter (k : str) (x : A) (l : list A) :
  filter (fun e => str_eqb (key e) k) (insert_by key x l)
  = filter (fun e => str_eqb (key e) k) (x :: l).
Proof.
  induction l as [|y t IH]; [reflexivity|].
  simpl insert_by. destruct (str_ltb (key y) (key x)) eqn:E; [|reflexivity].
  simpl in *. rewrite IH.
  destruct (str_eqb (key y) k) eqn:Ey, (str_eqb (key x) k) eqn:Ex;
    try reflexivity.
  apply str_eqb_eq in Ey, Ex. rewrite Ey, Ex, str_ltb_irrefl in E.
  discriminate.
Qed.

Lemma sort_by_stable (k : str) (l : list A) :
  filter (fun e => str_eqb (key e) k) (sort_by key l)
  = filter (fun e => str_eqb (key e) k) l.
Proof.
  induction l as [|x t IH]; [reflexivity|].
  simpl sort_by. rewrite insert_by_filter. simpl. rewrite IH. reflexivity.
Qed.

Lemma sort_by_fixed (l : list A) : StronglySorted le l -> sort_by key l = l.
Proof.
  induction 1 as [|x t Hs IH Hx]; [reflexivity|].
  simpl. rewrite IH. destruct t as [|y t]; [reflexivity|].
  simpl. inversion Hx as [|? ? Hxy _]; subst.
  unfold str_leb in Hxy. apply negb_true_iff in Hxy. rewrite Hxy.
  reflexivity.
Qed.

Lemma sorted_of_keys (l : list A) :
  StronglySorted (fun a b => str_leb a b = true) (List.map key l) ->
  StronglySorted le l.
Proof.
  induction l as [|x t IH]; simpl; intros H; [constructor|].
  inversion H as [|? ? Hs Hx]; subst. constructor; [auto|].
  rewrite Forall_map in Hx. exact Hx.
Qed.

Lemma keys_of_sorted (l : list A) :
  StronglySorted le l ->
  StronglySorted (fun a b => str_leb a b = true) (List.map key l).
Proof.
  induction 1 as [|x t Hs IH Hx]; simpl; constructor; [assumption|].
  rewrite Forall_map. exact Hx.
Qed.

(** The sort leaves a list as it is exactly when its keys stay as they
    are. *)
Lemma sort_by_same_keys (l : list A) :
  List.map key (sort_by key l) = List.map key l -> sort_by key l = l.
Proof.
  intros H. apply sort_by_fixed. apply sorted_of_keys. rewrite <- H.
  apply keys_of_sorted. apply sort_by_sorted.
Qed.

End SortFacts.

(** ** Lines of a text *)

Section LineFacts.
Context {RT : Runtime}.

Lemma split_nonempty (sep : char) (s : str) : split sep s <> [].
Proof.
  destruct s as [|c t]; simpl; [discriminate|].
  destruct (c =? sep); [discriminate|].
  destruct (split sep t); discriminate.
Qed.

Lemma strip_nil : strip [] = [].
Proof. reflexivity. Qed.

Lemma strip_cons_space (c : char) (s : str) :
  isspace c = true -> strip (c :: s) = strip s.
Proof. intros H. unfold strip. simpl. rewrite H. reflexivity. Qed.

Lemma rstrip_snoc (s : str) (c : char) :
  rstrip (s ++ [c]) = if isspace c then rstrip s else s ++ [c].
Proof.
  unfold rstrip. rewrite rev_app_distr. simpl.
  destruct (isspace c); [reflexivity|].
  simpl. rewrite rev_involutive. reflexivity.
Qed.

Lemma lstrip_snoc_space (s : str) (c : char) :
  isspace c = true ->
  lstrip (s ++ [c]) = if forallb isspace s then [] else lstrip s ++ [c].
Proof.
  intros Hc. induction s as [|x s IH]; simpl.
  - rewrite Hc. reflexivity.
  - destruct (isspace x); simpl; [exact IH | reflexivity].
Qed.

Lemma lstrip_all_space (s : str) :
  forallb isspace s = true -> lstrip s = [].
Proof.
  induction s as [|x s IH]; simpl; [reflexivity|].
  destruct (isspace x); simpl; [exact IH | discriminate].
Qed.

Lemma strip_snoc_space (s : str) (c : char) :
  isspace c = true -> strip (s ++ [c]) = strip s.
Proof.
  intros Hc. unfold strip. rewrite (@lstrip_snoc_space s c Hc).
  destruct (forallb isspace s) eqn:E.
  - rewrite (@lstrip_all_space s E). reflexivity.
  - rewrite rstrip_snoc, Hc. reflexivity.
Qed.

(** The lines of [s ++ [c]]: a new empty line after a newline, the last
    line grown by [c] otherwise. *)
Lemma split_snoc (s : str) (c : char) :
  exists init lst,
    split NEWLINE s = init ++ [lst]
    /\ split NEWLINE (s ++ [c])
       = if c =? NEWLINE then init ++ [lst; []] else init ++ [lst ++ [c]].
Proof.
  induction s as [|x s (init & lst & Hs & Hc)].
  - exists [], []. simpl. split; [reflexivity|].
    destruct (c =? NEWLINE); reflexivity.
  - simpl. rewrite Hs, Hc. destruct (x =? NEWLINE).
    + exists ([] :: init), lst. split; [reflexivity|].
      destruct (c =? NEWLINE); reflexivity.
    + destruct init as [|h r].
      * exists [], (x :: lst). split; [reflexivity|].
        destruct (c =? NEWLINE); reflexivity.
      * exists ((x :: h) :: r), lst. split; [reflexivity|].
        destruct (c =? NEWLINE); reflexivity.
Qed.

Lemma lines_of_lstrip (t : str) :
  filter nonempty (text_lines (lstrip t)) = filter nonempty (text_lines t).
Proof.
  induction t as [|c t IH]; [reflexivity|].
  simpl lstrip. destruct (isspace c) eqn:Hc; [|reflexivity].
  rewrite IH. unfold text_lines. simpl split.
  destruct (c =? NEWLINE); [reflexivity|].
  destruct (split NEWLINE t) as [|h r] eqn:E;
    [exfalso; exact (@split_nonempty _ _ E)|].
  simpl. rewrite (@strip_cons_space c h Hc). reflexivity.
Qed.

Lemma lines_of_rstrip (t : str) :
  filter nonempty (text_lines (rstrip t)) = filter nonempty (text_lines t).
Proof.
  induction t as [|c t IH] using rev_ind; [reflexivity|].
  rewrite rstrip_snoc. destruct (isspace c) eqn:Hc; [|reflexivity].
  rewrite IH. unfold text_lines.
  destruct (split_snoc t c) as (init & lst & -> & ->).
  destruct (c =? NEWLINE); rewrite !map_app, !filter_app; f_equal; simpl;
    rewrite ?(@strip_snoc_space lst c Hc); reflexivity.
Qed.

(** Stripping the text before it is cut into lines only drops lines that
    are empty once stripped. *)
Lemma stripped_lines_text_lines (text : str) :
  filter nonempty (TimeEntryParser.stripped_lines text)
  = filter nonempty (text_lines text).
Proof.
  unfold TimeEntryParser.stripped_lines, strip at 2.
  change (List.map strip (split NEWLINE (rstrip (lstrip text))))
    with (text_lines (rstrip (lstrip text))).
  rewrite lines_of_rstrip. apply lines_of_lstrip.
Qed.

Lemma filter_through_nonempty (f : str -> bool) (l : list str) :
  f [] = false -> filter f l = filter f (filter nonempty l).
Proof.
  intros H. induction l as [|x l IH]; simpl; [reflexivity|].
  destruct x as [|c x]; simpl; [rewrite H; exact IH|].
  destruct (f (c :: x)); rewrite IH; reflexivity.
Qed.

Lemma flat_map_through_nonempty {B} (g : str -> list B) (l : list str) :
  g [] = [] -> flat_map g l = flat_map g (filter nonempty l).
Proof.
  intros H. induction l as [|x l IH]; simpl; [reflexivity|].
  destruct x as [|c x]; simpl; [rewrite H; exact IH|].
  rewrite IH; reflexivity.
Qed.

End LineFacts.

(** ** Time codes *)

Section TimeCodeFacts.
Context {RT : Runtime}.
Import TimeEntryParser.

Lemma digits_value_decimal (s : str) :
  forall acc, forallb isdecimal s = true ->
              exists n, digits_value acc s = Some n.
Proof.
  induction s as [|c t IH]; intros acc H; simpl; [eauto|].
  simpl in H. apply andb_true_iff in H. destruct H as [Hc Ht].
  unfold isdecimal in Hc. destruct (todecimal c); [auto | discriminate].
Qed.

Lemma digits_value_number (s : str) :
  forall acc,
    forallb isdecimal s = true ->
    digits_value acc s
    = Some (fold_left (fun n c => 10 * n + get_or 0 (todecimal c)) s acc).
Proof.
  induction s as [|c t IH]; intros acc H; [reflexivity|].
  cbn [forallb] in H. apply andb_true_iff in H. destruct H as [Hc Ht].
  unfold isdecimal in Hc. cbn [digits_value fold_left].
  destruct (todecimal c); [apply IH; exact Ht | discriminate].
Qed.

(** [int] on a run of decimal digits: its value, unless the run is too
    long. *)
Lemma py_int_digits (s : str) :
  s <> [] -> forallb isdecimal s = true ->
  py_int s = if too_long s then Raise (int_limit_error (length s))
             else Ok (Z.of_N (number s)).
Proof.
  intros Hs H. unfold py_int. rewrite (digits_value_number s 0 H).
  destruct s; [congruence | reflexivity].
Qed.

Lemma py_int_one (a : char) :
  isdecimal a = true -> py_int [a] = Ok (digit a).
Proof.
  unfold isdecimal, py_int, digit. cbn [digits_value].
  change ((INT_MAX_STR_DIGITS <? length [a])%nat) with false.
  destruct (todecimal a); [intros _; f_equal; lia | discriminate].
Qed.

Lemma py_int_two (a b : char) :
  isdecimal a = true -> isdecimal b = true ->
  py_int [a; b] = Ok (10 * digit a + digit b)%Z.
Proof.
  unfold isdecimal, py_int, digit. cbn [digits_value].
  change ((INT_MAX_STR_DIGITS <? length [a; b])%nat) with false.
  destruct (todecimal a); [|discriminate]. cbn [digits_value].
  destruct (todecimal b); [|discriminate].
  intros _ _. f_equal. lia.
Qed.

(** On a run of decimal digits [_is_valid_time_code] returns, and what it
    returns is the validity of the specification. *)
Lemma is_valid_time_code_spec (code : str) :
  forallb isdecimal code = true ->
  _is_valid_time_code code = Ok (valid_code code).
Proof.
  destruct code as [|a [|b [|c [|d [|e t]]]]]; try reflexivity;
    cbn [forallb]; rewrite ?andb_true_iff; intros H; decompose [and] H;
    clear H; unfold _is_valid_time_code.
  - rewrite py_int_one, py_int_two by assumption. reflexivity.
  - rewrite !py_int_two by assumption. reflexivity.
Qed.

Lemma time_code_group (line : str) (m : match_obj) :
  re_match TIME_CODE_PATTERN line = Some m ->
  forallb isdecimal (group m 1) = true
  /\ (length (group m 1) = 3 \/ length (group m 1) = 4)%nat.
Proof.
  intros H. apply match_at_In in H. destruct H as (st' & H & Hc & _).
  unfold group. rewrite Hc. clear Hc.
  unfold TIME_CODE_PATTERN, cat, star, plus, opt1 in H. simpl fold_right in H.
  inv_matches H. subst.
  repeat match goal with C : caps _ = _ |- _ => rewrite C; clear C end.
  cbn [lookup_group Nat.eqb].
  match goal with
  | A : forallb (cls_test CDigit) ?w = true,
    U : forall h, Some 4%nat = Some h -> (length ?w <= h)%nat
    |- forallb isdecimal ?w = true /\ _ =>
      split; [exact A | specialize (U _ eq_refl); lia]
  end.
Qed.

Lemma valid_on_match (line : str) (m : match_obj) :
  re_match TIME_CODE_PATTERN line = Some m ->
  _is_valid_time_code (group m 1) = Ok (valid_code (group m 1)).
Proof.
  intros H. apply is_valid_time_code_spec. apply (time_code_group line H).
Qed.

Lemma count_lines (lines : list str) :
  forall count : nat,
    foldM (fun (count : nat) line =>
             match re_match TIME_CODE_PATTERN line with
             | Some m =>
                 valid <- _is_valid_time_code (group m 1) ;;
                 Ok (if valid then S count else count)
             | None => Ok count
             end) lines count
    = Ok (count + length (filter valid_time_line lines))%nat.
Proof.
  induction lines as [|l t IH]; intros count; simpl.
  - f_equal. lia.
  - unfold valid_time_line at 1.
    destruct (re_match TIME_CODE_PATTERN l) as [m|] eqn:E; simpl.
    + rewrite (valid_on_match l E). simpl.
      destruct (valid_code (group m 1)); simpl; rewrite IH; f_equal; lia.
    + rewrite IH. reflexivity.
Qed.

Lemma valid_code_iff (code : str) :
  valid_code code = true <->
  exists h mi,
    hours_minutes code = Some (h, mi)
    /\ (0 <= h <= 23)%Z /\ (0 <= mi <= 59)%Z.
Proof.
  unfold valid_code. destruct (hours_minutes code) as [[h mi]|].
  - rewrite !andb_true_iff, !Z.leb_le. split.
    + intros H. exists h, mi. repeat split; tauto.
    + intros (h' & mi' & [= <- <-] & H1 & H2). tauto.
  - split; [discriminate | intros (h & mi & H & _); discriminate].
Qed.


(** C7: [can_parse] of the TimeEntry parser always returns, and it returns
    true exactly for a dict note with at least two lines of its text that,
    once stripped, match the time-code pattern with a valid code; the matched code is a run of three or four decimal digits, read
    as one digit of hours and two of minutes, or two and two, and it is
    valid exactly when the hours are within 0..23 and the minutes within
    0..59. *)
Theorem time_entry_can_parse_two_valid_lines :
  forall nd : note_data,
    (can_parse nd = Ok true \/ can_parse nd = Ok false)
    /\ (can_parse nd = Ok true <->
        exists n,
          nd = Dict n
          /\ (2 <= length (filter valid_time_line
                             (text_lines (get_or [] (n_text n)))))%nat)
    /\ (forall line,
          valid_time_line line = true <->
          exists m h mi,
            re_match TIME_CODE_PATTERN line = Some m
            /\ forallb isdecimal (group m 1) = true
            /\ hours_minutes (group m 1) = Some (h, mi)
            /\ (0 <= h <= 23)%Z /\ (0 <= mi <= 59)%Z)
    /\ (forall a b c,
          hours_minutes [a; b; c]
          = Some (digit a, 10 * digit b + digit c)%Z)
    /\ (forall a b c d,
          hours_minutes [a; b; c; d]
          = Some (10 * digit a + digit b, 10 * digit c + digit d)%Z)
    /\ (forall code,
          length code <> 3%nat -> length code <> 4%nat ->
          hours_minutes code = None).
Proof.
  intros nd.
  assert (Hcan : can_parse nd
                 = Ok match nd with
                      | NotADict => false
                      | Dict n =>
                          (2 <=? length (filter valid_time_line
                                           (text_lines
                                              (get_or [] (n_text n)))))%nat
                      end).
  { destruct nd as [|n]; [reflexivity|]. unfold can_parse.
    destruct (get_or [] (n_text n)) as [|c t] eqn:E; [reflexivity|].
    cbn [nonempty negb]. rewrite count_lines.
    rewrite (@filter_through_nonempty valid_time_line (stripped_lines (c :: t)))
      by reflexivity.
    rewrite stripped_lines_text_lines, <- filter_through_nonempty
      by reflexivity.
    reflexivity. }
  split; [|split; [|split; [|split; [|split]]]].
  - rewrite Hcan. destruct nd as [|n]; [auto|].
    destruct (2 <=? _)%nat; auto.
  - rewrite Hcan. destruct nd as [|n].
    + split; [discriminate | intros (n & H & _); discriminate].
    + split.
      * intros [= H]. exists n. split; [reflexivity|].
        apply Nat.leb_le; assumption.
      * intros (n' & [= <-] & H). f_equal. apply Nat.leb_le; assumption.
  - intros line. unfold valid_time_line.
    destruct (re_match TIME_CODE_PATTERN line) as [m|] eqn:E.
    + rewrite valid_code_iff. split.
      * intros (h & mi & H). exists m, h, mi. split; [reflexivity|].
        split; [apply (time_code_group line E) | exact H].
      * intros (m' & h & mi & [= <-] & _ & H). eauto.
    + split; [discriminate | intros (m & h & mi & H & _); discriminate].
  - reflexivity.
  - reflexivity.
  - intros [|a [|b [|c [|d [|e t]]]]] H3 H4; simpl in *;
      try reflexivity; congruence.
Qed.

(** ** Time entries *)

Lemma list_str_eqb_eq (a b : list str) : list_str_eqb a b = true <-> a = b.
Proof.
  unfold list_str_eqb. revert b.
  induction a as [|x a IH]; intros [|y b]; simpl;
    try (split; discriminate); [tauto|].
  specialize (IH b). rewrite andb_true_iff in *.
  rewrite andb_true_iff, str_eqb_eq. split.
  - intros (Hl & Hx & Hf). f_equal; [assumption|]. apply IH. auto.
  - intros [= -> ->]. destruct IH as [_ IH]. specialize (IH eq_refl).
    tauto.
Qed.

Lemma extract_lines_spec (base_date : str) (lines : list str) :
  forall entries original_order,
    foldM (extract_line base_date) lines (entries, original_order)
    = Ok (entries
            ++ flat_map (fun line =>
                           match line_entry base_date line with
                           | Some e => [e]
                           | None => []
                           end) lines,
          original_order
            ++ List.map time
                 (flat_map (fun line =>
                              match line_entry base_date line with
                              | Some e => [e]
                              | None => []
                              end) lines)).
Proof.
  induction lines as [|l t IH]; intros entries original_order; simpl.
  - rewrite !app_nil_r. reflexivity.
  - unfold line_entry at 1 3.
    destruct (re_match TIME_CODE_PATTERN l) as [m|] eqn:E; simpl.
    + rewrite (valid_on_match l E). simpl.
      destruct (valid_code (group m 1)); simpl; rewrite IH.
      * rewrite <- !app_assoc. reflexivity.
      * reflexivity.
    + rewrite IH. reflexivity.
Qed.

Lemma line_entries_stripped (base_date text : str) :
  flat_map (fun line =>
              match line_entry base_date line with
              | Some e => [e]
              | None => []
              end) (stripped_lines text)
  = line_entries base_date text.
Proof.
  unfold line_entries.
  rewrite (@flat_map_through_nonempty _ _ (stripped_lines text))
    by reflexivity.
  rewrite stripped_lines_text_lines, <- flat_map_through_nonempty
    by reflexivity.
  reflexivity.
Qed.

Lemma zfill_one (a : char) :
  isdecimal a = true -> zfill 2 [a] = [48; a].
Proof.
  intros H. unfold zfill. simpl length.
  destruct (a =? 43) eqn:E1; [apply N.eqb_eq in E1; subst; discriminate|].
  destruct (a =? 45) eqn:E2; [apply N.eqb_eq in E2; subst; discriminate|].
  reflexivity.
Qed.

Lemma zfill_two (a b : char) : zfill 2 [a; b] = [a; b].
Proof. unfold zfill. simpl. destruct ((a =? 43) || (a =? 45)); reflexivity. Qed.

(** The time of an entry is [HH:MM], four decimal digits around a colon. *)
Lemma line_entry_time (base_date line : str) (e : time_entry) :
  line_entry base_date line = Some e ->
  exists h1 h2 m1 m2,
    time e = [h1; h2; 58; m1; m2]
    /\ forallb isdecimal [h1; h2; m1; m2] = true.
Proof.
  unfold line_entry.
  destruct (re_match TIME_CODE_PATTERN line) as [m|] eqn:E; [|discriminate].
  destruct (valid_code (group m 1)); [|discriminate].
  intros [= <-]. simpl time.
  destruct (time_code_group line E) as (Hd & Hl).
  destruct (group m 1) as [|a [|b [|c [|d [|x t]]]]]; simpl in Hl;
    try (destruct Hl; discriminate); clear Hl;
    cbn [forallb] in Hd; rewrite ?andb_true_iff in Hd;
    decompose [and] Hd; clear Hd; unfold _parse_time_code.
  - rewrite zfill_one, zfill_two by assumption.
    exists 48, a, b, c. split; [reflexivity|].
    cbn [forallb]. rewrite !andb_true_iff. auto.
  - rewrite !zfill_two. exists a, b, c, d. split; [reflexivity|].
    cbn [forallb]. rewrite !andb_true_iff. auto.
Qed.


(** C3: [_extract_time_entries] always returns; its entries are those of
    the matching lines, rearranged (a permutation) into ascending order of
    their [HH:MM] time strings, entries with equal times keeping the order
    of their lines; the warnings are empty when that order is the order of
    the lines, and otherwise one message that holds the list of times in
    line order and the list in sorted order, both printed as Python lists.
    The three lines 1420, 0637, 1053 give the times 06:37, 10:53, 14:20
    and that one message. *)
Theorem time_entries_sorted_with_one_warning :
  forall text created_timestamp : str,
    let unsorted :=
      line_entries (_extract_date_from_timestamp created_timestamp) text in
    exists entries parse_warnings,
      _extract_time_entries text created_timestamp
      = Ok (entries, parse_warnings)
      /\ Permutation unsorted entries
      /\ StronglySorted time_le entries
      /\ (forall k,
            filter (fun e => str_eqb (time e) k) entries
            = filter (fun e => str_eqb (time e) k) unsorted)
      /\ Forall (fun e =>
                   exists h1 h2 m1 m2,
                     time e = [h1; h2; 58; m1; m2]
                     /\ forallb isdecimal [h1; h2; m1; m2] = true) entries
      /\ (entries = unsorted <->
          List.map time entries = List.map time unsorted)
      /\ (entries = unsorted -> parse_warnings = [])
      /\ (entries <> unsorted ->
          parse_warnings
          = [ lit "Time entries are out of chronological order. "
              ++ lit "Original order: " ++ repr_list (List.map time unsorted)
              ++ lit ", Sorted order: " ++ repr_list (List.map time entries) ])
      /\ match _extract_time_entries TE_TEXT TE_CREATED with
         | Ok (es, ws) =>
             List.map time es = [lit "06:37"; lit "10:53"; lit "14:20"]
             /\ ws = [ lit "Time entries are out of chronological order. Original order: ['14:20', '06:37', '10:53'], Sorted order: ['06:37', '10:53', '14:20']" ]
         | Raise _ => False
         end.
Proof.
  intros text created_timestamp unsorted.
  assert (Hrun : _extract_time_entries text created_timestamp
                 = Ok (sort_by time unsorted,
                       if negb (list_str_eqb (List.map time unsorted)
                                  (List.map time (sort_by time unsorted)))
                       then [warning_msg (List.map time unsorted)
                               (List.map time (sort_by time unsorted))]
                       else [])).
  { unfold _extract_time_entries. rewrite extract_lines_spec.
    cbn [app]. rewrite line_entries_stripped. reflexivity. }
  assert (Hsame : sort_by time unsorted = unsorted <->
                  List.map time (sort_by time unsorted)
                  = List.map time unsorted).
  { split; [intros ->; reflexivity | apply sort_by_same_keys]. }
  eexists. eexists. split; [exact Hrun|].
  split; [apply sort_by_perm|].
  split; [apply (sort_by_sorted time)|].
  split; [intros k; apply sort_by_stable|].
  split.
  { apply Forall_forall. intros e He.
    apply (Permutation_in _ (Permutation_sym (sort_by_perm time unsorted)))
      in He.
    unfold unsorted, line_entries in He. apply in_flat_map in He.
    destruct He as (line & _ & He).
    destruct (line_entry _ line) as [e'|] eqn:E; [|contradiction].
    destruct He as [<-|[]]. eapply line_entry_time; eassumption. }
  split; [exact Hsame|].
  split; [|split].
  - intros H. apply Hsame in H. rewrite H.
    assert (list_str_eqb (List.map time unsorted) (List.map time unsorted)
            = true) as -> by (apply list_str_eqb_eq; reflexivity).
    reflexivity.
  - intros H.
    destruct (list_str_eqb (List.map time unsorted)
                (List.map time (sort_by time unsorted))) eqn:E.
    + apply list_str_eqb_eq in E. symmetry in E. apply Hsame in E.
      contradiction.
    + reflexivity.
  - vm_compute. split; reflexivity.
Qed.

End TimeCodeFacts.

(** ** Set-triples *)

Section SetFacts.
Context {RT : Runtime}.
Import TrainingParser.

Lemma split_no_sep (sep : char) (s : str) :
  forallb (fun c => negb (c =? sep)) s = true -> split sep s = [s].
Proof.
  induction s as [|c t IH]; simpl; [reflexivity|].
  rewrite andb_true_iff, negb_true_iff. intros [Hc Ht].
  rewrite Hc, (IH Ht). reflexivity.
Qed.

Lemma split_app_sep (sep : char) (a b : str) :
  forallb (fun c => negb (c =? sep)) a = true ->
  split sep (a ++ sep :: b) = a :: split sep b.
Proof.
  induction a as [|c t IH]; simpl.
  - rewrite N.eqb_refl. reflexivity.
  - rewrite andb_true_iff, negb_true_iff. intros [Hc Ht].
    rewrite Hc, (IH Ht). reflexivity.
Qed.

Lemma decimal_no_dot (s : str) :
  forallb isdecimal s = true -> forallb (fun c => negb (c =? 46)) s = true.
Proof.
  induction s as [|c t IH]; simpl; [reflexivity|].
  rewrite !andb_true_iff. intros [Hc Ht]. split; [|auto].
  destruct (c =? 46) eqn:E; [|reflexivity].
  apply N.eqb_eq in E. subst c. discriminate.
Qed.

Lemma py_float_decimal (d1 : str) :
  d1 <> [] -> forallb isdecimal d1 = true ->
  py_float d1 = Ok (weight_written d1).
Proof.
  intros Hn Hd. unfold py_float, weight_written.
  rewrite (split_no_sep _ _ (decimal_no_dot _ Hd)). cbv beta iota zeta.
  pose proof (digits_value_number d1 0 Hd) as E.
  destruct d1; [congruence|]. rewrite E. reflexivity.
Qed.

Lemma py_float_decimal_point (d1 d2 : str) :
  d1 <> [] -> forallb isdecimal d1 = true ->
  d2 <> [] -> forallb isdecimal d2 = true ->
  py_float (d1 ++ 46 :: d2) = Ok (weight_written (d1 ++ 46 :: d2)).
Proof.
  intros Hn1 Hd1 Hn2 Hd2. unfold py_float, weight_written.
  rewrite (split_app_sep _ _ _ (decimal_no_dot _ Hd1)).
  rewrite (split_no_sep _ _ (decimal_no_dot _ Hd2)).
  cbv beta iota zeta.
  assert (Hd : forallb isdecimal (d1 ++ d2) = true).
  { rewrite forallb_app, Hd1, Hd2. reflexivity. }
  pose proof (digits_value_number (d1 ++ d2) 0 Hd) as E.
  destruct d1; [congruence|]. destruct d2; [congruence|].
  rewrite E. reflexivity.
Qed.

Lemma nonempty_of_length (w : str) : (1 <= length w)%nat -> w <> [].
Proof. destruct w; simpl; [lia | discriminate]. Qed.

Lemma set_pattern_groups (pos : nat) (p : option char) (s : str)
    (m : match_obj) :
  match_at SET_REP_WEIGHT_PATTERN pos p s = Some m ->
  (group m 1 <> [] /\ forallb isdecimal (group m 1) = true)
  /\ (group m 2 <> [] /\ forallb isdecimal (group m 2) = true)
  /\ exists d1,
       d1 <> [] /\ forallb isdecimal d1 = true
       /\ (group m 3 = d1
           \/ exists d2, d2 <> [] /\ forallb isdecimal d2 = true
                         /\ group m 3 = d1 ++ 46 :: d2).
Proof.
  intros H. apply match_at_In in H. destruct H as (st' & H & Hc & _).
  unfold group. rewrite Hc. clear Hc.
  unfold SET_REP_WEIGHT_PATTERN, cat, star, plus, X_OR_TIMES in H.
  simpl fold_right in H.
  inv_matches H; subst;
    repeat match goal with C : caps _ = _ |- _ => rewrite C; clear C end;
    cbn [lookup_group Nat.eqb];
    repeat match goal with
           | L : (1 <= length ?w)%nat |- _ =>
               apply nonempty_of_length in L
           end.
  - split; [split; assumption|]. split; [split; assumption|].
    match goal with
    | T : cls_test (CLit 46) ?x = true |- context [?d1 ++ [?x] ++ ?d2] =>
        simpl in T; apply N.eqb_eq in T; subst x;
        exists d1; split; [assumption|]; split; [assumption|];
        right; exists d2; split; [assumption|]; split; [assumption|];
        reflexivity
    end.
  - split; [split; assumption|]. split; [split; assumption|].
    match goal with
    | |- context [?d1 ++ []] =>
        exists d1; split; [assumption|]; split; [assumption|];
        left; apply app_nil_r
    end.
Qed.

(** What [set_of_match] makes of a match of the pattern: the set-triple
    the match writes, unless its set or its reps is too long for [int]. *)
Lemma set_of_match_spec (pos : nat) (p : option char) (s : str)
    (m : match_obj) :
  match_at SET_REP_WEIGHT_PATTERN pos p s = Some m ->
  set_of_match m
  = match find too_long [group m 1; group m 2] with
    | Some w => Raise (int_limit_error (length w))
    | None => Ok (set_triple m)
    end.
Proof.
  intros H. apply set_pattern_groups in H.
  destruct H as ((N1 & D1) & (N2 & D2) & d1 & Nd & Dd & H3).
  unfold set_of_match. cbn [find].
  rewrite (py_int_digits N1 D1).
  destruct (too_long (group m 1)); [reflexivity|]. cbn [bind].
  rewrite (py_int_digits N2 D2).
  destruct (too_long (group m 2)); [reflexivity|]. cbn [bind].
  assert (Hw : py_float (group m 3) = Ok (weight_written (group m 3))).
  { destruct H3 as [->|(d2 & Nd2 & Dd2 & ->)].
    - apply py_float_decimal; assumption.
    - apply py_float_decimal_point; assumption. }
  rewrite Hw. reflexivity.
Qed.

Lemma mapM_set_of_match (l : list match_obj) :
  (forall m, In m l ->
             set_of_match m
             = match find too_long [group m 1; group m 2] with
               | Some w => Raise (int_limit_error (length w))
               | None => Ok (set_triple m)
               end) ->
  mapM set_of_match l
  = match find too_long (flat_map (fun m => [group m 1; group m 2]) l) with
    | Some w => Raise (int_limit_error (length w))
    | None => Ok (List.map set_triple l)
    end.
Proof.
  induction l as [|m l IH]; intros H; [reflexivity|].
  cbn [mapM flat_map List.map]. rewrite (H m (or_introl eq_refl)).
  cbn [app find].
  destruct (too_long (group m 1)); [reflexivity|].
  destruct (too_long (group m 2)); [reflexivity|]. cbn [bind].
  rewrite IH by (intros m' Hm'; apply H; right; exact Hm').
  destruct (find too_long _); reflexivity.
Qed.

(** [_extract_sets] on a line: the set-triples the line writes, unless a
    set or a reps is too long for [int]; then the error of the first
    that is. *)
Lemma extract_sets_spec (line : str) :
  _extract_sets line
  = match first_long_number line with
    | Some w => Raise (int_limit_error (length w))
    | None => Ok (set_triples line)
    end.
Proof.
  unfold _extract_sets, first_long_number, int_texts, set_triples.
  apply mapM_set_of_match. intros m Hm.
  apply finditer_from_In in Hm. destruct Hm as (pos & p & s & Hm).
  eapply set_of_match_spec; eassumption.
Qed.

End SetFacts.

(** ** The scan of the training lines *)

Section ScanFacts.
Context {RT : Runtime}.
Import TrainingParser.

Lemma find_first {A} (f : A -> bool) (l : list A) (x : A) :
  find f l = Some x ->
  exists l1 l2,
    l = l1 ++ x :: l2 /\ f x = true /\ Forall (fun y => f y = false) l1.
Proof.
  induction l as [|y t IH]; simpl; [discriminate|].
  destruct (f y) eqn:E.
  - intros [= <-]. exists [], t. auto.
  - intros H. destruct (IH H) as (l1 & l2 & -> & Hx & Hl).
    exists (y :: l1), l2. auto.
Qed.

Lemma find_exists {A} (f : A -> bool) (l : list A) (x : A) :
  In x l -> f x = true -> exists y, find f l = Some y.
Proof.
  induction l as [|y t IH]; simpl; [contradiction|].
  intros [->|Hin] Hx.
  - rewrite Hx. eauto.
  - destruct (f y); eauto.
Qed.

Lemma find_snoc {A} (f : A -> bool) (l : list A) (x : A) :
  find f (l ++ [x])
  = match find f l with
    | Some y => Some y
    | None => if f x then Some x else None
    end.
Proof.
  induction l as [|y t IH]; simpl; [reflexivity|].
  destruct (f y); [reflexivity | exact IH].
Qed.

Lemma first_matching_abbr_Some (line w : str) :
  first_matching_abbr line = Some w ->
  exists before after,
    abbreviations = before ++ w :: after /\ abbr_found line w = true
    /\ Forall (fun k => abbr_found line k = false) before.
Proof.
  unfold first_matching_abbr, abbreviations.
  destruct (find _ EXERCISE_PATTERNS) as [[a full]|] eqn:E; [|discriminate].
  intros [= <-]. apply find_first in E.
  destruct E as (l1 & l2 & -> & Ha & Hl).
  exists (List.map fst l1), (List.map fst l2).
  rewrite map_app. split; [reflexivity|]. split; [exact Ha|].
  rewrite Forall_map. eapply Forall_impl; [|exact Hl].
  intros [k v]; auto.
Qed.

Lemma first_matching_abbr_exists (line a : str) :
  In a abbreviations -> abbr_found line a = true ->
  exists w, first_matching_abbr line = Some w.
Proof.
  unfold abbreviations, first_matching_abbr. intros Hin Ha.
  apply in_map_iff in Hin. destruct Hin as ([k v] & <- & Hin).
  destruct (@find_exists _ (fun '(abbr, _) => abbr_found line abbr) _ _ Hin Ha)
    as ([k' v'] & ->).
  simpl. eauto.
Qed.

Lemma abbreviations_nonempty (a : str) :
  In a abbreviations -> nonempty a = true.
Proof.
  unfold abbreviations. simpl.
  intros H; repeat (destruct H as [<-|H]; [reflexivity|]); contradiction.
Qed.

Lemma dict_get_In {V} (k : str) (d : list (str * V)) :
  In k (List.map fst d) -> exists v, dict_get k d = Some v.
Proof.
  induction d as [|[k' v] d IH]; simpl; [contradiction|].
  destruct (str_eqb k' k) eqn:E; [eauto|].
  intros [H|H]; [|auto]. subst k'. rewrite str_eqb_refl in E. discriminate.
Qed.

Lemma full_name_of_key (a : str) :
  In a abbreviations -> exists full, dict_item a EXERCISE_PATTERNS = Ok full.
Proof.
  intros H. unfold dict_item. destruct (@dict_get_In _ _ _ H) as (v & ->). eauto.
Qed.

Lemma dict_get_set_same {V} (k : str) (v : V) (d : list (str * V)) :
  dict_get k (dict_set k v d) = Some v.
Proof.
  induction d as [|[k' v'] d IH]; simpl.
  - rewrite str_eqb_refl. reflexivity.
  - destruct (str_eqb k' k) eqn:E; simpl; rewrite E; auto.
Qed.

Lemma dict_get_set_other {V} (k k' : str) (v : V) (d : list (str * V)) :
  k' <> k -> dict_get k' (dict_set k v d) = dict_get k' d.
Proof.
  intros Hk. induction d as [|[k0 v0] d IH]; simpl.
  - assert (str_eqb k k' = false) as -> by (apply str_eqb_neq; congruence).
    reflexivity.
  - destruct (str_eqb k0 k) eqn:E; simpl.
    + apply str_eqb_eq in E. subst k0.
      assert (str_eqb k k' = false) as -> by (apply str_eqb_neq; congruence).
      reflexivity.
    + rewrite IH. reflexivity.
Qed.

(** A line with a match: the first matching key becomes the current
    exercise, the indent is recorded, and the set-triples of the line, if
    any, are added to that key and to no other. *)
Lemma scan_line_matched (st : scan_state) (line w : str)
    (line_sets : list SetData) :
  first_matching_abbr line = Some w ->
  _extract_sets line = Ok line_sets ->
  exists st',
    scan_line st line = Ok st'
    /\ current_exercise st' = Some w
    /\ previous_indent st' = indent_of line
    /\ (forall k, k <> w ->
                  dict_get k (exercises_dict st')
                  = dict_get k (exercises_dict st))
    /\ (line_sets <> [] ->
        exists e,
          dict_get w (exercises_dict st') = Some e
          /\ sets e = sets_so_far w st ++ line_sets
          /\ total_sets e = length (sets e))
    /\ (line_sets = [] -> exercises_dict st' = exercises_dict st).
Proof.
  intros Hw Hs.
  destruct (@first_matching_abbr_Some _ _ Hw) as (b & a & Hk & _ & _).
  assert (Hin : In w abbreviations) by (rewrite Hk; apply in_elt).
  pose proof (@abbreviations_nonempty _ Hin) as Hne.
  destruct (@full_name_of_key _ Hin) as (full & Hfull).
  unfold scan_line. rewrite Hw, Hs. cbn [bind truthy]. rewrite Hne.
  cbn [negb andb]. rewrite andb_false_r.
  destruct line_sets as [|sd sds].
  - eexists. split; [reflexivity|]. cbn. repeat split; auto.
    intros H; congruence.
  - cbn beta iota. rewrite ?Hne, Hfull. cbn [bind]. unfold sets_so_far.
    destruct (dict_get w (exercises_dict st)) as [e0|] eqn:E0;
      (eexists; split; [reflexivity|]); cbn;
      (split; [reflexivity|]); (split; [reflexivity|]);
      (split; [intros k Hkw; apply dict_get_set_other; assumption|]);
      (split; [|discriminate]); intros _; rewrite dict_get_set_same;
      eexists; split; try reflexivity; cbn; auto.
Qed.

(** A line with a number too long for [int] is not scanned: the error of
    [int] on the first such number comes out. *)
Lemma scan_line_raises (st : scan_state) (line w : str) :
  first_long_number line = Some w ->
  scan_line st line = Raise (int_limit_error (length w)).
Proof.
  intros H. unfold scan_line. rewrite extract_sets_spec, H. reflexivity.
Qed.

Lemma extract_sets_short (line : str) :
  first_long_number line = None ->
  _extract_sets line = Ok (set_triples line).
Proof. intros H. rewrite extract_sets_spec, H. reflexivity. Qed.

Lemma scan_line_Ok_short (st st' : scan_state) (line : str) :
  scan_line st line = Ok st' -> first_long_number line = None.
Proof.
  intros H. destruct (first_long_number line) as [w|] eqn:E; [|reflexivity].
  rewrite (@scan_line_raises st _ _ E) in H. discriminate.
Qed.

(** Every line without such a number is scanned to a new state; the
    recorded indent becomes that of the line when the line matches a key
    and stays otherwise. *)
Lemma scan_line_returns (st : scan_state) (line : str) :
  state_ok st -> first_long_number line = None ->
  exists st',
    scan_line st line = Ok st' /\ state_ok st'
    /\ previous_indent st'
       = match first_matching_abbr line with
         | Some _ => indent_of line
         | None => previous_indent st
         end.
Proof.
  intros Hok Hshort. pose proof (@extract_sets_short _ Hshort) as Hs.
  destruct (first_matching_abbr line) as [w|] eqn:Hw.
  - destruct (@scan_line_matched st _ _ _ Hw Hs) as (st' & Hr & Hc & Hp & _).
    exists st'. split; [exact Hr|]. split; [|exact Hp].
    intros a Ha. rewrite Hc in Ha. injection Ha as <-.
    destruct (@first_matching_abbr_Some _ _ Hw) as (b & a & Hk & _ & _).
    rewrite Hk. apply in_elt.
  - unfold scan_line. rewrite Hw, Hs. cbn [bind truthy negb andb].
    destruct (set_triples line) as [|sd sds].
    + eexists. split; [reflexivity|]. cbn. split; [|reflexivity].
      intros a Ha.
      destruct (indent_of line <=? previous_indent st)%nat;
        [discriminate | auto].
    + rewrite andb_false_r.
      destruct (current_exercise st) as [c|] eqn:Hc.
      * pose proof (Hok c Hc) as Hin.
        cbn beta iota. rewrite ?(@abbreviations_nonempty _ Hin).
        destruct (@full_name_of_key _ Hin) as (full & ->). cbn [bind].
        destruct (dict_get c (exercises_dict st));
          (eexists; split; [reflexivity|]); cbn;
          (split; [|reflexivity]); intros a [= <-]; exact Hin.
      * eexists. split; [reflexivity|]. cbn. split; [|reflexivity].
        intros a Ha. discriminate.
Qed.

Lemma find_app {A} (f : A -> bool) (a b : list A) :
  find f (a ++ b)
  = match find f a with Some x => Some x | None => find f b end.
Proof.
  induction a as [|x a IH]; [reflexivity|]. cbn [app find].
  destruct (f x); [reflexivity | exact IH].
Qed.

Lemma long_number_app (a b : list str) :
  long_number (a ++ b)
  = match long_number a with Some w => Some w | None => long_number b end.
Proof. unfold long_number. rewrite flat_map_app. apply find_app. Qed.

Lemma long_number_cons (l : str) (t : list str) :
  long_number (l :: t)
  = match first_long_number l with
    | Some w => Some w
    | None => long_number t
    end.
Proof. unfold long_number, first_long_number. cbn [flat_map]. apply find_app. Qed.

(** The scan of a list of lines from a state: it stops with the error of
    [int] at the first number that is too long, and returns a state when
    there is none. *)
Lemma scan_returns (lines : list str) :
  forall st,
    state_ok st ->
    match long_number lines with
    | Some w => scan lines st = Raise (int_limit_error (length w))
    | None =>
        exists st',
          scan lines st = Ok st' /\ state_ok st'
          /\ previous_indent st'
             = match find (fun l => is_some (first_matching_abbr l))
                       (rev lines)
               with
               | Some l => indent_of l
               | None => previous_indent st
               end
    end.
Proof.
  induction lines as [|l t IH]; intros st Hok.
  - exists st. simpl. auto.
  - rewrite long_number_cons. unfold scan in *. cbn [foldM].
    destruct (first_long_number l) as [w|] eqn:Hl.
    { rewrite (@scan_line_raises st _ _ Hl). reflexivity. }
    destruct (@scan_line_returns st l Hok Hl) as (st1 & H1 & Hok1 & Hp1).
    rewrite H1. cbn [bind]. specialize (IH st1 Hok1).
    destruct (long_number t) as [w|]; [exact IH|].
    destruct IH as (st' & H' & Hok' & Hp').
    exists st'. split; [exact H'|]. split; [exact Hok'|].
    cbn [rev]. rewrite Hp', find_snoc.
    destruct (find _ (rev t)); [reflexivity|].
    rewrite Hp1. destruct (first_matching_abbr l); reflexivity.
Qed.

(** When the scan returns, no line had such a number. *)
Lemma scan_Ok_short (lines : list str) (st st' : scan_state) :
  state_ok st -> scan lines st = Ok st' -> long_number lines = None.
Proof.
  intros Hok H. pose proof (@scan_returns lines st Hok) as R.
  destruct (long_number lines); [congruence | reflexivity].
Qed.

Lemma foldM_app {A S} (f : S -> A -> result S) (a b : list A) (s : S) :
  foldM f (a ++ b) s = bind (foldM f a s) (foldM f b).
Proof.
  revert s; induction a as [|x a IH]; intros s; simpl; [reflexivity|].
  destruct (f s x); simpl; auto.
Qed.

Lemma initial_state_ok : state_ok initial_state.
Proof. intros a H. discriminate. Qed.

(** C4: on a line where two different keys of the abbreviation table have
    a word-bounded match, the first key of the table, in the order of the
    table, that matches is the winner.  When no set or reps of the line is
    too long for [int], the line is scanned to a new state in which the
    winner is the current exercise; the set-triples the line writes are
    appended to the sets of the winner and the entry of every other key is
    left as it was.  When one is too long, the scan of the line raises the
    error of [int] and no key receives anything.  Both "Row and Press
    3x8x100" and "Press and Row 3x8x100" give one exercise record, that of
    Row, which the table declares before Press, with the one set of 3, 8
    and the double 100.0, which is 7036874417766400 * 2^-46. *)
Theorem first_table_entry_owns_line :
  forall (st : scan_state) (line a1 a2 : str),
    In a1 abbreviations -> In a2 abbreviations -> a1 <> a2 ->
    abbr_found line a1 = true -> abbr_found line a2 = true ->
    (exists winner before after,
        abbreviations = before ++ winner :: after
        /\ abbr_found line winner = true
        /\ Forall (fun k => abbr_found line k = false) before
        /\ match first_long_number line with
           | Some w =>
               scan_line st line = Raise (int_limit_error (length w))
           | None =>
               exists st',
                 _extract_sets line = Ok (set_triples line)
                 /\ scan_line st line = Ok st'
                 /\ current_exercise st' = Some winner
                 /\ (forall k, k <> winner ->
                               dict_get k (exercises_dict st')
                               = dict_get k (exercises_dict st))
                 /\ (set_triples line <> [] ->
                     exists e,
                       dict_get winner (exercises_dict st') = Some e
                       /\ sets e = sets_so_far winner st ++ set_triples line
                       /\ total_sets e = length (sets e))
                 /\ (set_triples line = [] ->
                     exercises_dict st' = exercises_dict st)
           end)
    /\ match _extract_exercises (lit "Row and Press 3x8x100") with
       | Ok [e] =>
           abbreviation e = lit "Row" /\ length (sets e) = 1%nat
           /\ sets e = [ {| set := 3; reps := 8;
                            weight := Finite 7036874417766400 (-46) |} ]
       | _ => False
       end
    /\ match _extract_exercises (lit "Press and Row 3x8x100") with
       | Ok [e] =>
           abbreviation e = lit "Row" /\ length (sets e) = 1%nat
           /\ sets e = [ {| set := 3; reps := 8;
                            weight := Finite 7036874417766400 (-46) |} ]
       | _ => False
       end.
Proof.
  intros st line a1 a2 H1 _ _ F1 _. split; [|split].
  - destruct (@first_matching_abbr_exists _ _ H1 F1) as (w & Hw).
    destruct (@first_matching_abbr_Some _ _ Hw) as (b & a & Hk & Hf & Hb).
    exists w, b, a. split; [exact Hk|]. split; [exact Hf|].
    split; [exact Hb|].
    destruct (first_long_number line) as [n|] eqn:Hl.
    + exact (@scan_line_raises st _ _ Hl).
    + pose proof (@extract_sets_short _ Hl) as Hs.
      destruct (@scan_line_matched st _ _ _ Hw Hs)
        as (st' & Hr & Hc & _ & Ho & Hn & He).
      exists st'. repeat (split; [assumption|]). assumption.
  - vm_compute. repeat split.
  - vm_compute. repeat split.
Qed.

(** C6, as the code has it: the scan of a text stops with the error of
    [int] when a set or a reps of a line is too long, and returns a state
    for the lines read so far otherwise; at every point at which it has
    returned one, the recorded indent is the count of leading white space
    of the most recent line that matched a key of the abbreviation table,
    and 0 when no line has yet; a line that only adds set-triples to the
    exercise carried over leaves it as it was. *)
Theorem previous_indent_is_last_matched_indent :
  forall before after : list str,
    match long_number (before ++ after) with
    | Some w =>
        scan (before ++ after) initial_state
        = Raise (int_limit_error (length w))
    | None =>
        exists st st_end,
          scan before initial_state = Ok st
          /\ scan after st = Ok st_end
          /\ scan (before ++ after) initial_state = Ok st_end
          /\ previous_indent st = last_matched_indent before
    end
    /\ (forall st,
          scan before initial_state = Ok st ->
          previous_indent st = last_matched_indent before)
    /\ (forall a, indent_of a = (length a - length (lstrip a))%nat).
Proof.
  intros before after.
  assert (Hret : forall st,
             scan before initial_state = Ok st ->
             state_ok st
             /\ previous_indent st = last_matched_indent before).
  { intros st Hs.
    pose proof (@scan_returns before initial_state initial_state_ok) as R.
    rewrite (@scan_Ok_short _ _ _ initial_state_ok Hs) in R.
    destruct R as (st1 & Hs1 & Hok & Hp).
    assert (st1 = st) by congruence. subst st1. split; [exact Hok|].
    rewrite Hp. unfold last_matched_indent.
    destruct (find _ (rev before)); reflexivity. }
  split; [|split; [intros st Hs; exact (proj2 (Hret st Hs)) | reflexivity]].
  pose proof (@scan_returns (before ++ after) initial_state initial_state_ok)
    as R.
  destruct (long_number (before ++ after)) as [w|] eqn:Hl; [exact R|].
  destruct R as (st_end & He & _ & _).
  unfold scan in *. rewrite foldM_app in He.
  destruct (foldM scan_line before initial_state) as [st|e] eqn:Hs;
    [|discriminate].
  cbn [bind] in He. exists st, st_end.
  split; [reflexivity|]. split; [exact He|].
  split; [rewrite foldM_app, Hs; exact He|].
  exact (proj2 (Hret st eq_refl)).
Qed.

(** C5, where the code departs from it: an activity is left out exactly
    when the matched text equals the creation timestamp cut at its first
    dot and with its spaces turned into T; the matched text itself is
    compared as it stands, so a creation timestamp written with a space is
    kept as an activity when the text repeats it. *)
Theorem created_timestamp_with_space_is_kept :
  (forall text created_timestamp m,
      activity_of_match text created_timestamp m = None <->
      group m 1 = created_key created_timestamp)
  /\ created_key CREATED_WITH_SPACE = lit "2024-01-01T10:00:00"
  /\ _extract_completed_activities CREATED_NOTE_TEXT CREATED_WITH_SPACE
     = [ {| timestamp := CREATED_WITH_SPACE;
            activity := CREATED_NOTE_TEXT |} ].
Proof.
  split; [|split; vm_compute; reflexivity].
  intros text created_timestamp m. unfold activity_of_match.
  destruct (str_eqb (group m 1) (created_key created_timestamp)) eqn:E;
    simpl.
  - apply str_eqb_eq in E. tauto.
  - apply str_eqb_neq in E. split; [discriminate | contradiction].
Qed.

End ScanFacts.

(** C6 as the specification words it fails on a key followed by an
    indented line of set-triples: that line continues the exercise, its
    indent is 2, and the recorded indent is still 0. *)
Lemma previous_indent_ignores_continuation :
  exists st,
    @TrainingParser.scan ascii_runtime INDENTED_SETS
      TrainingParser.initial_state = Ok st
    /\ TrainingParser.previous_indent st = 0%nat
    /\ @context_indent ascii_runtime INDENTED_SETS
         TrainingParser.initial_state 0 = 2%nat
    /\ TrainingParser.previous_indent st
       <> @context_indent ascii_runtime INDENTED_SETS
            TrainingParser.initial_state 0.
Proof.
  eexists. split; [vm_compute; reflexivity|].
  split; [reflexivity|]. split; [vm_compute; reflexivity|].
  vm_compute. discriminate.
Qed.

(** The line "Row and Press 3x8x100", on which both Row and Press match,
    scanned from the initial state. *)
Lemma first_table_entry_owns_line_witness :
  In (lit "Row") abbreviations /\ In (lit "Press") abbreviations
  /\ lit "Row" <> lit "Press"
  /\ @TrainingParser.abbr_found ascii_runtime (lit "Row and Press 3x8x100")
       (lit "Row") = true
  /\ @TrainingParser.abbr_found ascii_runtime (lit "Row and Press 3x8x100")
       (lit "Press") = true
  /\ exists winner st',
       @TrainingParser.scan_line ascii_runtime TrainingParser.initial_state
         (lit "Row and Press 3x8x100") = Ok st'
       /\ TrainingParser.current_exercise st' = Some winner.
Proof.
  assert (H1 : In (lit "Row") abbreviations) by (vm_compute; tauto).
  assert (H2 : In (lit "Press") abbreviations) by (vm_compute; tauto).
  assert (H3 : lit "Row" <> lit "Press") by (vm_compute; discriminate).
  assert (F1 : @TrainingParser.abbr_found ascii_runtime
                 (lit "Row and Press 3x8x100") (lit "Row") = true)
    by (vm_compute; reflexivity).
  assert (F2 : @TrainingParser.abbr_found ascii_runtime
                 (lit "Row and Press 3x8x100") (lit "Press") = true)
    by (vm_compute; reflexivity).
  repeat (split; [assumption|]).
  destruct (@first_table_entry_owns_line ascii_runtime
              TrainingParser.initial_state (lit "Row and Press 3x8x100")
              (lit "Row") (lit "Press") H1 H2 H3 F1 F2)
    as ((winner & b & a & _ & _ & _ & Hm) & _).
  assert (Hl : @first_long_number ascii_runtime (lit "Row and Press 3x8x100")
               = None) by (vm_compute; reflexivity).
  rewrite Hl in Hm. destruct Hm as (st' & _ & Hr & Hc & _).
  exists winner, st'. split; assumption.
Defined.

(** ** The registry *)

Section RegistryFacts.
Variables parsed json schema : Type.
Variable validation_data : parsed -> json.
Variable validate : json -> schema -> option str.

Import ParserRegistry.

Local Abbreviation NoteParser := (NoteParser parsed schema).
Local Abbreviation registry := (registry parsed schema).

Lemma get_parser_split (reg : registry) (nd : note_data) (p : NoteParser) :
  get_parser reg nd = Ok p ->
  exists before after,
    reg = before ++ p :: after /\ can_parse p nd = true
    /\ Forall (fun q => can_parse q nd = false) before.
Proof.
  induction reg as [|q reg IH]; simpl; [discriminate|].
  destruct (can_parse q nd) eqn:Hq.
  - intros [= <-]. exists [], reg. auto.
  - intros H. destruct (IH H) as (b & a & -> & Hp & Hb).
    exists (q :: b), a. auto.
Qed.

Lemma get_parser_skip (before after : registry) (nd : note_data)
    (p : NoteParser) :
  Forall (fun q => can_parse q nd = false) before ->
  can_parse p nd = true ->
  get_parser (before ++ p :: after) nd = Ok p.
Proof.
  induction 1 as [|q b Hq _ IH]; simpl; intros Hp.
  - rewrite Hp; reflexivity.
  - rewrite Hq; auto.
Qed.

Lemma get_parser_none (reg : registry) (nd : note_data) :
  get_parser reg nd = Raise no_parser_found <->
  forall q, In q reg -> can_parse q nd = false.
Proof.
  induction reg as [|q reg IH]; simpl.
  - split; [intros _ q [] | reflexivity].
  - destruct (can_parse q nd) eqn:Hq.
    + split; [discriminate|]. intros H. specialize (H q (or_introl eq_refl)).
      congruence.
    + rewrite IH. split.
      * intros H q' [<-|Hin]; auto.
      * intros H q' Hin; auto.
Qed.

(** C2: [get_parser] goes through the registered parsers in the order of
    their registration ([register] appends) and returns the first whose
    [can_parse] accepts the note; it raises the "no suitable parser" error
    exactly when none accepts it; one of the two always happens. *)
Theorem get_parser_first_in_registration_order :
  forall (reg : registry) (nd : note_data),
    (forall p, register reg (ParserClass p) = Ok (reg ++ [p]))
    /\ (forall p,
          get_parser reg nd = Ok p <->
          exists before after,
            reg = before ++ p :: after /\ can_parse p nd = true
            /\ Forall (fun q => can_parse q nd = false) before)
    /\ (get_parser reg nd = Raise no_parser_found <->
        forall q, In q reg -> can_parse q nd = false)
    /\ ((exists p, get_parser reg nd = Ok p)
        \/ get_parser reg nd = Raise no_parser_found).
Proof.
  intros reg nd. split; [reflexivity|]. split; [|split].
  - intros p. split.
    + apply get_parser_split.
    + intros (b & a & -> & Hp & Hb). apply get_parser_skip; assumption.
  - apply get_parser_none.
  - induction reg as [|q reg IH]; simpl; [right; reflexivity|].
    destruct (can_parse q nd); [left; eauto | exact IH].
Qed.

(** C1: when some registered parser accepts the note, [parse] of the
    registry validates what that parser extracts against that parser's own
    schema: a validation failure becomes the [ValueError] whose text is
    "Parsed data does not conform to schema: " followed by the validator's
    message, a success returns the record, and a record is returned only
    if it passed the validation. *)
Theorem registry_parse_validates :
  forall (reg : registry) (nd : note_data) (p : NoteParser),
    get_parser reg nd = Ok p ->
    (forall r message,
        parse p nd = Ok r ->
        validate (validation_data r) (get_schema p) = Some message ->
        registry_parse validation_data validate reg nd
        = Raise (ValueError
                   (lit "Parsed data does not conform to schema: "
                    ++ message)))
    /\ (forall r,
          parse p nd = Ok r ->
          validate (validation_data r) (get_schema p) = None ->
          registry_parse validation_data validate reg nd = Ok r)
    /\ (forall r,
          registry_parse validation_data validate reg nd = Ok r ->
          parse p nd = Ok r
          /\ validate (validation_data r) (get_schema p) = None).
Proof.
  intros reg nd p Hp. unfold registry_parse. rewrite Hp. simpl.
  split; [|split].
  - intros r message Hr Hv. rewrite Hr. simpl. rewrite Hv. reflexivity.
  - intros r Hr Hv. rewrite Hr. simpl. rewrite Hv. reflexivity.
  - intros r H. destruct (parse p nd) as [r'|e]; simpl in H; [|discriminate].
    destruct (validate (validation_data r') (get_schema p)) eqn:Hv;
      [discriminate|].
    injection H as <-. auto.
Qed.

End RegistryFacts.

(** ** The registry of the batch driver *)

Section DriverFacts.
Context {RT : Runtime} {V : Validation}.

Lemma main_registry_eq :
  main_registry = Ok [HackerNews; TimeEntry; Training].
Proof. reflexivity. Qed.

Lemma empty_note_rejected_by_all :
  let nd := Dict (note_of None (Some [])) in
  ParserRegistry.can_parse HackerNews nd = false
  /\ ParserRegistry.can_parse TimeEntry nd = false
  /\ ParserRegistry.can_parse Training nd = false
  /\ ParserRegistry.can_parse Generic nd = true.
Proof. repeat split; vm_compute; reflexivity. Qed.

(** C10: the batch driver registers the HackerNews, TimeEntry and Training
    parsers and no other, the generic parser is not among them, and the
    dict note with empty text, which the generic parser accepts, makes
    [parse] of that registry raise the "no suitable parser" error. *)
Theorem main_registry_has_no_fallback :
  main_registry = Ok [HackerNews; TimeEntry; Training]
  /\ ~ In Generic [HackerNews; TimeEntry; Training]
  /\ exists n : note,
       n_text n = Some []
       /\ GenericNotesParser.can_parse (Dict n) = true
       /\ main_parse (Dict n) = Raise ParserRegistry.no_parser_found.
Proof.
  destruct empty_note_rejected_by_all as (Hh & Ht & Hw & Hg).
  split; [reflexivity|]. split.
  - intros [H|[H|[H|[]]]];
      [rewrite <- H in Hg | rewrite <- H in Hg | rewrite <- H in Hg];
      congruence.
  - exists (note_of None (Some [])). split; [reflexivity|].
    split; [reflexivity|].
    unfold main_parse. rewrite main_registry_eq. simpl bind.
    unfold ParserRegistry.registry_parse.
    replace (ParserRegistry.get_parser [HackerNews; TimeEntry; Training]
               (Dict (note_of None (Some []))))
      with (@Raise (ParserRegistry.NoteParser parsed_data schema)
              ParserRegistry.no_parser_found); [reflexivity|].
    symmetry. apply get_parser_none. intros q [<-|[<-|[<-|[]]]]; assumption.
Qed.

End DriverFacts.

(** ** HackerNews links *)

Section HackerNewsFacts.
Context {RT : Runtime}.

Import HackerNewsParser.

Lemma hn_example :
  exists r,
    parse (Dict (note_of (Some HN_TITLE) (Some HN_TEXT))) = Ok r
    /\ url r = HN_TITLE
    /\ item_id r = lit "11111"
    /\ hn_links r
       = [ {| link_url := HN_TITLE; link_item_id := lit "11111" |};
           {| link_url := HN_TEXT; link_item_id := lit "22222" |} ].
Proof. eexists. split; [reflexivity|]. repeat split; vm_compute; reflexivity. Qed.

(** C8: [parse] of the HackerNews parser returns, for every dict note, a
    record whose [hn_links] are all the HN item URLs of the title, in the
    order of their occurrence and with repetitions, followed by all those
    of the text; [url] and [item_id] are those of the first link of that
    list, hence of the first match in the title whenever the title has
    one; a title and a text with one link each give two links, the
    title's first. *)
Theorem hn_links_title_first :
  forall n : note,
    let title := get_or [] (n_title n) in
    let text := get_or [] (n_text n) in
    let link_of m := {| link_url := m_text m; link_item_id := group m 1 |} in
    exists r,
      parse (Dict n) = Ok r
      /\ hn_links r
         = List.map link_of (re_finditer HN_URL_PATTERN title)
           ++ List.map link_of (re_finditer HN_URL_PATTERN text)
      /\ url r = match hn_links r with l :: _ => link_url l | [] => [] end
      /\ item_id r
         = match hn_links r with l :: _ => link_item_id l | [] => [] end
      /\ (forall m ms,
             re_finditer HN_URL_PATTERN title = m :: ms ->
             url r = m_text m /\ item_id r = group m 1)
      /\ (forall m ms,
             re_finditer HN_URL_PATTERN title = [] ->
             re_finditer HN_URL_PATTERN text = m :: ms ->
             url r = m_text m /\ item_id r = group m 1)
      /\ (n = note_of (Some HN_TITLE) (Some HN_TEXT) ->
          url r = HN_TITLE /\ item_id r = lit "11111"
          /\ length (hn_links r) = 2%nat
          /\ option_map link_url (hd_error (hn_links r)) = Some HN_TITLE).
Proof.
  intros n title text link_of. eexists. split; [reflexivity|].
  simpl. fold title text.
  unfold _extract_hn_urls_from_title_and_body, _extract_hn_urls.
  fold link_of.
  split; [reflexivity|]. split; [reflexivity|]. split; [reflexivity|].
  split; [|split].
  - intros m ms Hm. rewrite Hm. simpl. auto.
  - intros m ms Ht Hm. rewrite Ht, Hm. simpl. auto.
  - intros ->. subst title text. repeat split; vm_compute; reflexivity.
Qed.

End HackerNewsFacts.

(** ** Generic links *)

Section GenericFacts.
Context {RT : Runtime}.

Import GenericNotesParser.

Lemma fold_see_link (l links seen : list str) :
  fst (fold_left see_link l (links, seen)) = links ++ fresh seen l.
Proof.
  revert links seen; induction l as [|x l IH]; intros links seen; simpl.
  - rewrite app_nil_r; reflexivity.
  - destruct (existsb (str_eqb x) seen); [apply IH|].
    rewrite IH, <- app_assoc. reflexivity.
Qed.

Lemma filter_filter {A} (f g : A -> bool) (l : list A) :
  filter f (filter g l) = filter (fun x => g x && f x) l.
Proof.
  induction l as [|x l IH]; simpl; [reflexivity|].
  destruct (g x); simpl; [destruct (f x)|]; rewrite ?IH; reflexivity.
Qed.

Lemma fresh_first_occurrences (seen l : list str) :
  fresh seen l
  = filter (fun y => negb (existsb (str_eqb y) seen)) (first_occurrences l).
Proof.
  revert seen; induction l as [|x l IH]; intros seen; simpl; [reflexivity|].
  destruct (existsb (str_eqb x) seen) eqn:Hx; simpl.
  - rewrite IH, filter_filter. apply filter_ext_in. intros y _.
    destruct (str_eqb x y) eqn:Hxy; simpl; [|reflexivity].
    apply str_eqb_eq in Hxy; subst y. rewrite Hx; reflexivity.
  - f_equal. rewrite IH, filter_filter. apply filter_ext. intros y.
    simpl. destruct (str_eqb y x) eqn:Hyx.
    + apply str_eqb_eq in Hyx; subst y. rewrite str_eqb_refl; reflexivity.
    + assert (str_eqb x y = false) as ->.
      { apply str_eqb_neq. apply str_eqb_neq in Hyx. congruence. }
      reflexivity.
Qed.

Lemma first_occurrences_In (l : list str) (x : str) :
  In x (first_occurrences l) <-> In x l.
Proof.
  induction l as [|y l IH]; simpl; [tauto|].
  rewrite filter_In, IH. split.
  - intros [H|[H _]]; auto.
  - intros [H|H]; auto.
    destruct (str_eqb y x) eqn:Hyx.
    + apply str_eqb_eq in Hyx; auto.
    + right; split; [assumption | reflexivity].
Qed.

Lemma first_occurrences_NoDup (l : list str) : NoDup (first_occurrences l).
Proof.
  induction l as [|x l IH]; simpl; constructor.
  - rewrite filter_In. intros [_ H]. rewrite str_eqb_refl in H. discriminate.
  - apply NoDup_filter; assumption.
Qed.

(** C9: the links the generic parser returns are the URL matches of the
    text with each later copy of a URL dropped: no URL occurs twice, every
    match occurs, and the order is that of the first occurrences; the text
    "https://a.com and https://a.com again" gives the single link
    "https://a.com". *)
Theorem extract_links_first_occurrences :
  forall text : str,
    let found := List.map m_text (re_finditer URL_PATTERN text) in
    _extract_links text = first_occurrences found
    /\ NoDup (_extract_links text)
    /\ (forall u, In u (_extract_links text) <-> In u found)
    /\ _extract_links (lit "https://a.com and https://a.com again")
       = [lit "https://a.com"].
Proof.
  intros text found.
  assert (E : _extract_links text = first_occurrences found).
  { unfold _extract_links. fold found. rewrite fold_see_link. simpl.
    rewrite fresh_first_occurrences. simpl.
    clear. induction (first_occurrences found) as [|x l IH]; simpl;
      [reflexivity | f_equal; exact IH]. }
  split; [exact E|]. rewrite E. split; [apply first_occurrences_NoDup|].
  split; [intros u; apply first_occurrences_In|].
  vm_compute. reflexivity.
Qed.

End GenericFacts.

(** ** The registry at work on a note *)

(** A registry holding the HackerNews parser, run on the note of the
    HackerNews example. *)
Lemma registry_parse_validates_witness :
  ParserRegistry.get_parser [@HackerNews ascii_runtime accept_all]
    (Dict (note_of (Some HN_TITLE) (Some HN_TEXT)))
  = Ok (@HackerNews ascii_runtime accept_all)
  /\ forall r,
       ParserRegistry.registry_parse (@asdict accept_all)
         (@validate accept_all) [@HackerNews ascii_runtime accept_all]
         (Dict (note_of (Some HN_TITLE) (Some HN_TEXT))) = Ok r ->
       ParserRegistry.parse (@HackerNews ascii_runtime accept_all)
         (Dict (note_of (Some HN_TITLE) (Some HN_TEXT))) = Ok r
       /\ @validate accept_all (@asdict accept_all r)
            (ParserRegistry.get_schema (@HackerNews ascii_runtime accept_all))
          = None.
Proof.
  assert (Hp : ParserRegistry.get_parser [@HackerNews ascii_runtime accept_all]
                 (Dict (note_of (Some HN_TITLE) (Some HN_TEXT)))
               = Ok (@HackerNews ascii_runtime accept_all)).
  { cbn [ParserRegistry.get_parser].
    assert (ParserRegistry.can_parse (@HackerNews ascii_runtime accept_all)
              (Dict (note_of (Some HN_TITLE) (Some HN_TEXT))) = true) as ->
        by (vm_compute; reflexivity).
    reflexivity. }
  split; [exact Hp|].
  exact (proj2 (proj2 (@registry_parse_validates _ _ _ (@asdict accept_all)
                         (@validate accept_all) _ _ _ Hp))).
Defined.

(** * Further properties *)

(** ** The registry and its classes *)

Section ClassFacts.
Variables parsed schema classes : Type.
Variable class_eqb : classes -> classes -> bool.
Variable instantiate : classes -> ParserRegistry.NoteParser parsed schema.
Hypothesis class_eqb_eq : forall a b, class_eqb a b = true <-> a = b.

Import ParserClasses.

Lemma existsb_class_eqb (c : classes) (reg : list classes) :
  existsb (class_eqb c) reg = true <-> In c reg.
Proof.
  rewrite existsb_exists. split.
  - intros (x & Hx & E). apply class_eqb_eq in E. subst. assumption.
  - intros H. exists c. split; [assumption | apply class_eqb_eq; reflexivity].
Qed.

Lemma list_remove_first (c : classes) (reg : list classes) :
  In c reg ->
  exists before after,
    reg = before ++ c :: after /\ ~ In c before
    /\ list_remove class_eqb c reg = before ++ after.
Proof.
  induction reg as [|x t IH]; simpl; [contradiction|].
  destruct (class_eqb c x) eqn:E.
  - intros _. apply class_eqb_eq in E. subst x. exists [], t. auto.
  - intros [->|H].
    + assert (class_eqb c c = true) by (apply class_eqb_eq; reflexivity).
      congruence.
    + destruct (IH H) as (b & a & -> & Hb & ->).
      exists (x :: b), a. split; [reflexivity|]. split; [|reflexivity].
      intros [->|Hin]; [|auto].
      assert (class_eqb c c = true) by (apply class_eqb_eq; reflexivity).
      congruence.
Qed.

Lemma snoc_eq_middle {A} (b l a : list A) (c x : A) :
  l ++ [c] = b ++ x :: a -> a <> [] -> In x l.
Proof.
  revert l; induction b as [|z b IH]; intros [|z' l] E Ha; simpl in *.
  - injection E as _ E. congruence.
  - injection E as -> _. left. reflexivity.
  - injection E as _ E. destruct b; discriminate.
  - injection E as _ E. right. eapply IH; eassumption.
Qed.

Lemma unregister_absent (c : classes) (reg : list classes) :
  ~ In c reg -> unregister class_eqb reg c = reg.
Proof.
  intros H. unfold unregister.
  destruct (existsb (class_eqb c) reg) eqn:E; [|reflexivity].
  apply existsb_class_eqb in E. contradiction.
Qed.

Lemma unregister_present (c : classes) (reg : list classes) :
  In c reg ->
  exists before after,
    reg = before ++ c :: after /\ ~ In c before
    /\ unregister class_eqb reg c = before ++ after.
Proof.
  intros H. unfold unregister.
  rewrite (proj2 (existsb_class_eqb c reg) H). apply list_remove_first.
  assumption.
Qed.

(** X1: [unregister] leaves a registry without the class as it is, and
    takes out of a registry with the class its first occurrence only, the
    other classes keeping their order; so a class that is registered and
    then unregistered leaves a registry that did not hold it as it was,
    and one that held it loses its earlier occurrence, not the new one. *)
Theorem unregister_removes_first_occurrence :
  forall (reg : list classes) (c : classes),
    (~ In c reg -> unregister class_eqb reg c = reg)
    /\ (In c reg ->
        exists before after,
          reg = before ++ c :: after /\ ~ In c before
          /\ unregister class_eqb reg c = before ++ after)
    /\ (~ In c reg -> unregister class_eqb (register reg c) c = reg)
    /\ (In c reg ->
        exists before after,
          reg = before ++ c :: after /\ ~ In c before
          /\ unregister class_eqb (register reg c) c
             = before ++ after ++ [c]).
Proof.
  intros reg c. split; [apply unregister_absent|].
  split; [apply unregister_present|]. split.
  - intros H.
    destruct (@unregister_present c (register reg c)) as (b & a & E & Hb & ->).
    { unfold register. apply in_or_app. right. left. reflexivity. }
    unfold register in E.
    destruct a as [|y a].
    + apply app_inj_tail in E. destruct E as [-> _]. apply app_nil_r.
    + exfalso. apply H. eapply snoc_eq_middle; [exact E | discriminate].
  - intros H. destruct (@list_remove_first c reg H) as (b & a & -> & Hb & _).
    exists b, a. split; [reflexivity|]. split; [assumption|].
    destruct (@unregister_present c (register (b ++ c :: a) c))
      as (b' & a' & E & Hb' & ->).
    { unfold register. apply in_or_app. right. left. reflexivity. }
    unfold register in E. rewrite <- app_assoc in E. simpl app in E.
    assert (Eb : b' = b /\ a' = a ++ [c]).
    { clear - E Hb Hb'. revert b' E Hb'.
      induction b as [|x b IH]; intros [|x' b'] E Hb'; simpl in *.
      - injection E as E. auto.
      - injection E as -> E. exfalso. apply Hb'. left. reflexivity.
      - injection E as -> E. exfalso. apply Hb. left. reflexivity.
      - injection E as -> E. destruct (IH (fun H => Hb (or_intror H)) b' E)
          as [-> ->]; [intros H; apply Hb'; right; assumption|]. auto. }
    destruct Eb as [-> ->]. reflexivity.
Qed.

Lemma get_parser_remove (c : classes) (nd : note_data) (reg : list classes) :
  ParserRegistry.can_parse (instantiate c) nd = false ->
  get_parser instantiate (list_remove class_eqb c reg) nd
  = get_parser instantiate reg nd.
Proof.
  intros Hc. unfold get_parser, parsers.
  induction reg as [|x t IH]; simpl; [reflexivity|].
  destruct (class_eqb c x) eqn:E.
  - apply class_eqb_eq in E. subst x. rewrite Hc. reflexivity.
  - simpl. rewrite IH. reflexivity.
Qed.

(** X2: unregistering a class whose parser does not accept a note leaves
    the answer of [get_parser] for that note as it was, be it a parser or
    the error. *)
Theorem unregister_keeps_selection :
  forall (reg : list classes) (c : classes) (nd : note_data),
    ParserRegistry.can_parse (instantiate c) nd = false ->
    get_parser instantiate (unregister class_eqb reg c) nd
    = get_parser instantiate reg nd.
Proof.
  intros reg c nd Hc. unfold unregister.
  destruct (existsb (class_eqb c) reg); [|reflexivity].
  apply get_parser_remove. assumption.
Qed.

End ClassFacts.

Lemma parser_class_eqb_eq (a b : parser_class) :
  parser_class_eqb a b = true <-> a = b.
Proof. destruct a, b; simpl; split; congruence. Qed.

(** The HackerNews and TimeEntry classes registered, the TimeEntry class
    then registered again and unregistered. *)
Lemma unregister_removes_first_occurrence_witness :
  (forall a b, parser_class_eqb a b = true <-> a = b)
  /\ In TimeEntryParser_class [HackerNewsParser_class; TimeEntryParser_class]
  /\ exists before after,
       [HackerNewsParser_class; TimeEntryParser_class]
       = before ++ TimeEntryParser_class :: after
       /\ ~ In TimeEntryParser_class before
       /\ ParserClasses.unregister parser_class_eqb
            (ParserClasses.register
               [HackerNewsParser_class; TimeEntryParser_class]
               TimeEntryParser_class)
            TimeEntryParser_class
          = before ++ after ++ [TimeEntryParser_class].
Proof.
  assert (Hin : In TimeEntryParser_class
                  [HackerNewsParser_class; TimeEntryParser_class])
    by (right; left; reflexivity).
  split; [exact parser_class_eqb_eq|]. split; [exact Hin|].
  exact (proj2 (proj2 (proj2
           (@unregister_removes_first_occurrence parser_class
              parser_class_eqb parser_class_eqb_eq
              [HackerNewsParser_class; TimeEntryParser_class]
              TimeEntryParser_class))) Hin).
Defined.

(** The TimeEntry class taken out of the driver's three while the note of
    the HackerNews example is looked up. *)
Lemma unregister_keeps_selection_witness :
  (forall a b, parser_class_eqb a b = true <-> a = b)
  /\ ParserRegistry.can_parse
       (@new_parser ascii_runtime accept_all TimeEntryParser_class)
       (Dict (note_of (Some HN_TITLE) (Some HN_TEXT))) = false
  /\ ParserClasses.get_parser (@new_parser ascii_runtime accept_all)
       (ParserClasses.unregister parser_class_eqb
          [HackerNewsParser_class; TimeEntryParser_class;
           TrainingParser_class] TimeEntryParser_class)
       (Dict (note_of (Some HN_TITLE) (Some HN_TEXT)))
     = ParserClasses.get_parser (@new_parser ascii_runtime accept_all)
         [HackerNewsParser_class; TimeEntryParser_class;
          TrainingParser_class]
         (Dict (note_of (Some HN_TITLE) (Some HN_TEXT))).
Proof.
  assert (H : ParserRegistry.can_parse
                (@new_parser ascii_runtime accept_all TimeEntryParser_class)
                (Dict (note_of (Some HN_TITLE) (Some HN_TEXT))) = false)
    by (vm_compute; reflexivity).
  split; [exact parser_class_eqb_eq|]. split; [exact H|].
  exact (@unregister_keeps_selection _ _ parser_class parser_class_eqb
           (@new_parser ascii_runtime accept_all) parser_class_eqb_eq
           [HackerNewsParser_class; TimeEntryParser_class;
            TrainingParser_class]
           TimeEntryParser_class _ H).
Defined.

Section RegistryMore.
Variables parsed schema : Type.

Lemma get_parser_app (r1 r2 : ParserRegistry.registry parsed schema)
    (nd : note_data) :
  ParserRegistry.get_parser (r1 ++ r2) nd
  = match ParserRegistry.get_parser r1 nd with
    | Ok p => Ok p
    | Raise _ => ParserRegistry.get_parser r2 nd
    end.
Proof.
  induction r1 as [|q r1 IH]; simpl; [reflexivity|].
  destruct (ParserRegistry.can_parse q nd); [reflexivity | exact IH].
Qed.

End RegistryMore.

Section FourParsers.
Context {RT : Runtime} {V : Validation}.

Lemma four_reject_non_dict (c : parser_class) :
  ParserRegistry.can_parse (new_parser c) NotADict = false.
Proof. destruct c; reflexivity. Qed.

(** X3: whichever of the four parser classes are registered, and in
    whatever order, [parse] of the registry on a value that is no dict
    raises the "no suitable parser" error: every [can_parse] rejects it,
    so the "must be a dictionary" error of the parsers' own [parse] is
    never reached through the registry. *)
Theorem non_dict_finds_no_parser :
  forall reg : list parser_class,
    ParserClasses.get_parser new_parser reg NotADict
    = Raise ParserRegistry.no_parser_found
    /\ ParserRegistry.registry_parse asdict validate
         (ParserClasses.parsers new_parser reg) NotADict
       = Raise ParserRegistry.no_parser_found
    /\ (forall c, ParserRegistry.parse (new_parser c) NotADict
                  = Raise must_be_dict).
Proof.
  intros reg.
  assert (H : ParserClasses.get_parser new_parser reg NotADict
              = Raise ParserRegistry.no_parser_found).
  { apply get_parser_none. intros q Hq. unfold ParserClasses.parsers in Hq.
    apply in_map_iff in Hq. destruct Hq as (c & <- & _).
    apply four_reject_non_dict. }
  split; [exact H|]. split.
  - unfold ParserRegistry.registry_parse.
    unfold ParserClasses.get_parser in H. rewrite H. reflexivity.
  - intros c. destruct c; reflexivity.
Qed.

(** X4: registering the generic parser after any classes makes
    [get_parser] return a parser for every dict note: the parser the
    registry selected before when there was one, the generic parser when
    there was none. *)
Theorem generic_last_catches_all :
  forall (reg : list parser_class) (n : note),
    (forall q,
        ParserClasses.get_parser new_parser reg (Dict n) = Ok q ->
        ParserClasses.get_parser new_parser
          (ParserClasses.register reg GenericNotesParser_class) (Dict n)
        = Ok q)
    /\ (ParserClasses.get_parser new_parser reg (Dict n)
        = Raise ParserRegistry.no_parser_found ->
        ParserClasses.get_parser new_parser
          (ParserClasses.register reg GenericNotesParser_class) (Dict n)
        = Ok Generic)
    /\ exists p,
         ParserClasses.get_parser new_parser
           (ParserClasses.register reg GenericNotesParser_class) (Dict n)
         = Ok p.
Proof.
  intros reg n.
  assert (E : ParserClasses.get_parser new_parser
                (ParserClasses.register reg GenericNotesParser_class) (Dict n)
              = match ParserClasses.get_parser new_parser reg (Dict n) with
                | Ok p => Ok p
                | Raise _ => Ok Generic
                end).
  { unfold ParserClasses.get_parser, ParserClasses.parsers,
      ParserClasses.register.
    rewrite map_app, get_parser_app. reflexivity. }
  rewrite E. split; [intros q ->; reflexivity|].
  split; [intros ->; reflexivity|].
  destruct (ParserClasses.get_parser new_parser reg (Dict n)); eauto.
Qed.

(** X5: a dict note with the Download-HN label goes to the HackerNews
    parser in the driver's registry whatever its text holds, time codes
    and set-triples included: the registry returns the HackerNews record
    when it validates and the schema error otherwise. *)
Theorem download_label_selects_hackernews :
  forall n : note,
    has_download_label n = true ->
    ParserRegistry.get_parser [HackerNews; TimeEntry; Training] (Dict n)
    = Ok HackerNews
    /\ exists r,
         HackerNewsParser.parse (Dict n) = Ok r
         /\ main_parse (Dict n)
            = match validate (asdict (HackerNewsRecord r))
                      (load_schema (lit "hackernews.schema.json")) with
              | Some message =>
                  Raise (ParserRegistry.schema_violation message)
              | None => Ok (HackerNewsRecord r)
              end.
Proof.
  intros n H.
  assert (Hc : ParserRegistry.can_parse HackerNews (Dict n) = true).
  { simpl. unfold has_download_label in H. rewrite H. reflexivity. }
  assert (Hg : ParserRegistry.get_parser [HackerNews; TimeEntry; Training]
                 (Dict n) = Ok HackerNews).
  { cbn [ParserRegistry.get_parser]. rewrite Hc. reflexivity. }
  split; [exact Hg|]. eexists. split; [reflexivity|].
  unfold main_parse. rewrite main_registry_eq. cbn [bind].
  unfold ParserRegistry.registry_parse. rewrite Hg. reflexivity.
Qed.

End FourParsers.

Lemma download_label_selects_hackernews_witness :
  has_download_label LABELLED_TIME_NOTE = true
  /\ ParserRegistry.can_parse (@TimeEntry ascii_runtime accept_all)
       (Dict LABELLED_TIME_NOTE) = true
  /\ ParserRegistry.get_parser
       [@HackerNews ascii_runtime accept_all;
        @TimeEntry ascii_runtime accept_all;
        @Training ascii_runtime accept_all]
       (Dict LABELLED_TIME_NOTE)
     = Ok (@HackerNews ascii_runtime accept_all).
Proof.
  assert (H : has_download_label LABELLED_TIME_NOTE = true)
    by (vm_compute; reflexivity).
  split; [exact H|]. split; [vm_compute; reflexivity|].
  exact (proj1 (@download_label_selects_hackernews ascii_runtime accept_all
                  LABELLED_TIME_NOTE H)).
Defined.


(** ** Searching and iterating *)

Section SearchFacts.
Context {RT : Runtime}.

Lemma finditer_nil_search (r : re) (s : str) :
  forall pos p,
    finditer_from r pos p s 0 = [] <-> search_from r pos p s = None.
Proof.
  induction s as [|x t IH]; intros pos p; simpl;
    destruct (match_at r pos p _) eqn:E; try (split; [discriminate | discriminate]);
    try tauto.
  apply IH.
Qed.

Lemma finditer_is_nil (r : re) (s : str) :
  re_finditer r s = [] <-> re_search r s = None.
Proof. apply finditer_nil_search. Qed.

(** Every match [finditer] yields is the match of the pattern at some
    place of the text: the text before it, the match, the text after. *)
Lemma finditer_from_places (r : re) (s : str) :
  forall pos p skip m,
    In m (finditer_from r pos p s skip) ->
    exists before p' after,
      s = before ++ after
      /\ match_at r (pos + length before) p' after = Some m.
Proof.
  induction s as [|x t IH]; intros pos p skip m H.
  - destruct skip; simpl in H; [|contradiction].
    destruct (match_at r pos p []) eqn:E; [|contradiction].
    destruct H as [<-|[]]. exists [], p, []. simpl.
    rewrite Nat.add_0_r. auto.
  - assert (Next : forall k,
               In m (finditer_from r (S pos) (Some x) t k) ->
               exists before p' after,
                 x :: t = before ++ after
                 /\ match_at r (pos + length before) p' after = Some m).
    { intros k Hk. destruct (IH _ _ _ _ Hk) as (b & p' & a & -> & Hm).
      exists (x :: b), p', a. simpl. rewrite Nat.add_succ_r. auto. }
    destruct skip; simpl in H; [|eauto].
    destruct (match_at r pos p (x :: t)) eqn:E; [|eauto].
    destruct H as [<-|H]; [|eauto].
    exists [], p, (x :: t). simpl. rewrite Nat.add_0_r. auto.
Qed.

End SearchFacts.

(** Turns the hypotheses [cls_test (CLit k) x = true] into [x = k]. *)
Ltac literal_chars :=
  repeat match goal with
         | T : cls_test (CLit _) ?x = true |- _ =>
             simpl in T; apply N.eqb_eq in T; subst x
         end.

(** ** HackerNews records *)

Section HackerNewsMore.
Context {RT : Runtime}.
Import HackerNewsParser.

Lemma optional_char (k : char) (w : str) :
  forallb (cls_test (CLit k)) w = true -> (length w <= 1)%nat ->
  w = [] \/ w = [k].
Proof.
  destruct w as [|a [|b w]]; simpl; auto; [|intros _ H; lia].
  rewrite andb_true_r. intros H _. apply N.eqb_eq in H. subst. auto.
Qed.

Lemma hn_match_shape (pos : nat) (p : option char) (s : str)
    (m : match_obj) :
  match_at HN_URL_PATTERN pos p s = Some m ->
  exists scheme digits,
    (scheme = lit "http" \/ scheme = lit "https")
    /\ digits <> [] /\ forallb isdecimal digits = true
    /\ group m 1 = digits
    /\ m_text m = scheme ++ lit "://news.ycombinator.com/item?id=" ++ digits.
Proof.
  intros H. apply match_at_In in H. destruct H as (st' & H & Hc & _).
  unfold group. rewrite Hc. clear Hc.
  let pat := eval cbv in HN_URL_PATTERN in
  change HN_URL_PATTERN with pat in H.
  inv_matches H. literal_chars. subst.
  repeat match goal with C : caps _ = _ |- _ => rewrite C; clear C end.
  cbn [lookup_group Nat.eqb].
  match goal with
  | A : forallb (cls_test (CLit 115)) ?w = true,
    U : forall h, Some 1%nat = Some h -> (length ?w <= h)%nat,
    D : forallb (cls_test CDigit) ?d = true,
    L : (1 <= length ?d)%nat,
    E : m_text m = _ |- _ =>
      specialize (U _ eq_refl);
      destruct (@optional_char _ _ A U) as [-> | ->];
      [exists (lit "http") | exists (lit "https")]; exists d;
      (split; [auto|]); (split; [apply nonempty_of_length; exact L|]);
      (split; [exact D|]); (split; [reflexivity|]);
      rewrite E, ?app_nil_r; reflexivity
  end.
Qed.

Lemma hn_links_shape (text : str) :
  Forall (fun l =>
            exists scheme digits,
              (scheme = lit "http" \/ scheme = lit "https")
              /\ digits <> [] /\ forallb isdecimal digits = true
              /\ link_item_id l = digits
              /\ link_url l
                 = scheme ++ lit "://news.ycombinator.com/item?id=" ++ digits)
         (_extract_hn_urls text).
Proof.
  apply Forall_forall. intros l Hl. unfold _extract_hn_urls in Hl.
  apply in_map_iff in Hl. destruct Hl as (m & <- & Hm).
  apply finditer_from_In in Hm. destruct Hm as (pos & p & s & Hm).
  exact (@hn_match_shape _ _ _ _ Hm).
Qed.

(** X6: every link of a HackerNews record has an item id that is a
    non-empty run of decimal digits, and its url is "http" or "https"
    followed by "://news.ycombinator.com/item?id=" and that item id. *)
Theorem hn_links_are_item_urls :
  forall n : note,
    exists r,
      parse (Dict n) = Ok r
      /\ Forall (fun l =>
                   exists scheme digits,
                     (scheme = lit "http" \/ scheme = lit "https")
                     /\ digits <> [] /\ forallb isdecimal digits = true
                     /\ link_item_id l = digits
                     /\ link_url l
                        = scheme ++ lit "://news.ycombinator.com/item?id="
                          ++ digits)
                (hn_links r).
Proof.
  intros n. eexists. split; [reflexivity|]. simpl.
  unfold _extract_hn_urls_from_title_and_body. apply Forall_app.
  split; apply hn_links_shape.
Qed.

Lemma extract_hn_urls_nil (text : str) :
  _extract_hn_urls text = [] <-> re_search HN_URL_PATTERN text = None.
Proof.
  unfold _extract_hn_urls. rewrite <- finditer_is_nil.
  destruct (re_finditer HN_URL_PATTERN text); simpl; split; congruence.
Qed.

(** X7: [can_parse] of the HackerNews parser accepts a dict note exactly
    when the note has the Download-HN label or its record has a url; the
    url is empty exactly when the record has no link, and then the item id
    is empty too: a note accepted for its label alone parses to a record
    without url, item id and links. *)
Theorem hn_can_parse_label_or_link :
  forall n : note,
    exists r,
      parse (Dict n) = Ok r
      /\ (can_parse (Dict n) = true <->
          has_download_label n = true \/ url r <> [])
      /\ (url r = [] <-> hn_links r = [])
      /\ (url r = [] -> item_id r = []).
Proof.
  intros n. eexists. split; [reflexivity|]. simpl.
  unfold _extract_hn_urls_from_title_and_body.
  set (title := get_or [] (n_title n)). set (text := get_or [] (n_text n)).
  assert (Hurl : forall l ls,
             _extract_hn_urls title ++ _extract_hn_urls text = l :: ls ->
             link_url l <> []).
  { intros l ls E.
    assert (Hin : In l (_extract_hn_urls title ++ _extract_hn_urls text))
      by (rewrite E; left; reflexivity).
    pose proof (proj2 (Forall_app _ _ _)
                  (conj (hn_links_shape title) (hn_links_shape text))) as F.
    rewrite Forall_forall in F.
    destruct (F l Hin) as (sch & d & [-> | ->] & _ & _ & _ & ->);
      discriminate. }
  assert (Hnil : _extract_hn_urls title ++ _extract_hn_urls text = [] <->
                 re_search HN_URL_PATTERN text = None
                 /\ re_search HN_URL_PATTERN title = None).
  { rewrite <- !extract_hn_urls_nil. split.
    - intros H. apply app_eq_nil in H. tauto.
    - intros [-> ->]. reflexivity. }
  destruct (_extract_hn_urls title ++ _extract_hn_urls text) as [|l ls] eqn:E.
  - destruct (proj1 Hnil eq_refl) as [-> ->].
    unfold has_download_label. fold DOWNLOAD_HN_LABEL. simpl.
    rewrite orb_false_r. split; [|tauto]. split; [auto|].
    intros [H|H]; [assumption | congruence].
  - specialize (Hurl l ls eq_refl). split; [|split].
    + split; [auto|]. intros _. apply orb_true_iff. right.
      destruct (re_search HN_URL_PATTERN text) eqn:Et; [reflexivity|].
      destruct (re_search HN_URL_PATTERN title) eqn:Eti; [reflexivity|].
      destruct Hnil as [_ Hnil]. discriminate Hnil. auto.
    + split; [contradiction | discriminate].
    + contradiction.
Qed.




End HackerNewsMore.


(** ** TimeEntry records *)

Section TimeEntryMore.
Context {RT : Runtime}.
Import TimeEntryParser.

Lemma can_parse_value (nd : note_data) :
  can_parse nd
  = Ok match nd with
       | NotADict => false
       | Dict n =>
           (2 <=? length (filter valid_time_line
                            (text_lines (get_or [] (n_text n)))))%nat
       end.
Proof.
  destruct nd as [|n]; [reflexivity|]. unfold can_parse.
  destruct (get_or [] (n_text n)) as [|c t] eqn:E; [reflexivity|].
  cbn [nonempty negb]. rewrite count_lines.
  rewrite (@filter_through_nonempty valid_time_line (stripped_lines (c :: t)))
    by reflexivity.
  rewrite stripped_lines_text_lines, <- filter_through_nonempty
    by reflexivity.
  reflexivity.
Qed.

Lemma extract_time_entries_value (text created_timestamp : str) :
  let unsorted :=
    line_entries (_extract_date_from_timestamp created_timestamp) text in
  _extract_time_entries text created_timestamp
  = Ok (sort_by time unsorted,
        if negb (list_str_eqb (List.map time unsorted)
                   (List.map time (sort_by time unsorted)))
        then [warning_msg (List.map time unsorted)
                (List.map time (sort_by time unsorted))]
        else []).
Proof.
  unfold _extract_time_entries. rewrite extract_lines_spec.
  cbn [app]. rewrite line_entries_stripped. reflexivity.
Qed.

Lemma line_entry_valid (base_date line : str) :
  match line_entry base_date line with
  | Some _ => valid_time_line line = true
  | None => valid_time_line line = false
  end.
Proof.
  unfold line_entry, valid_time_line.
  destruct (re_match TIME_CODE_PATTERN line); [|reflexivity].
  destruct (valid_code _); reflexivity.
Qed.

Lemma line_entries_length (base_date text : str) :
  length (line_entries base_date text)
  = length (filter valid_time_line (text_lines text)).
Proof.
  unfold line_entries. induction (text_lines text) as [|l t IH];
    [reflexivity|].
  simpl. pose proof (line_entry_valid base_date l) as H.
  destruct (line_entry base_date l); rewrite H; simpl; rewrite IH;
    reflexivity.
Qed.

(** X9: [parse] of the TimeEntry parser returns a record for every dict
    note; the record has one entry for each line of the text that, once
    stripped, matches the time-code pattern with a valid code, so it has
    two entries or more exactly when [can_parse] accepts the note; title,
    id and timestamps pass through, absent ones as empty strings. *)
Theorem time_entry_parse_counts_valid_lines :
  forall n : note,
    exists r,
      parse (Dict n) = Ok r
      /\ length (time_entries r)
         = length (filter valid_time_line
                     (text_lines (get_or [] (n_text n))))
      /\ (can_parse (Dict n) = Ok true <->
          (2 <= length (time_entries r))%nat)
      /\ raw_text r = get_or [] (n_text n)
      /\ title r = get_or [] (n_title n)
      /\ note_id r = get_or [] (n_id n)
      /\ created r = get_created n
      /\ last_updated r = get_edited n.
Proof.
  intros n. unfold parse. rewrite extract_time_entries_value. cbn [bind].
  eexists. split; [reflexivity|].
  cbn [time_entries raw_text title note_id created last_updated].
  assert (L : length (sort_by time
                        (line_entries
                           (_extract_date_from_timestamp (get_created n))
                           (get_or [] (n_text n))))
              = length (filter valid_time_line
                          (text_lines (get_or [] (n_text n))))).
  { rewrite <- line_entries_length
      with (base_date := _extract_date_from_timestamp (get_created n)).
    symmetry. apply Permutation_length. apply sort_by_perm. }
  split; [exact L|]. split; [|repeat split].
  rewrite L, can_parse_value. split.
  - intros [= H]. apply Nat.leb_le. assumption.
  - intros H. f_equal. apply Nat.leb_le. assumption.
Qed.

(** X10: every entry of a TimeEntry record carries the date of the record;
    its timestamp is that date, a [T], its time and [:00], or its time and
    [:00] when the record has no date; its raw line is a stripped line of
    the text that matches the time-code pattern with a valid code. *)
Theorem time_entries_carry_record_date :
  forall n : note,
    exists r,
      parse (Dict n) = Ok r
      /\ result_date r = _extract_date_from_timestamp (get_created n)
      /\ Forall (fun e =>
                   date e = result_date r
                   /\ timestamp e
                      = (if nonempty (result_date r)
                         then result_date r ++ lit "T" ++ time e ++ lit ":00"
                         else time e ++ lit ":00")
                   /\ In (raw_line e) (text_lines (get_or [] (n_text n)))
                   /\ valid_time_line (raw_line e) = true)
                (time_entries r).
Proof.
  intros n. unfold parse. rewrite extract_time_entries_value. cbn [bind].
  eexists. split; [reflexivity|]. cbn. split; [reflexivity|].
  apply Forall_forall. intros e He.
  apply (Permutation_in _ (Permutation_sym (sort_by_perm time _))) in He.
  unfold line_entries in He. apply in_flat_map in He.
  destruct He as (line & Hl & He).
  pose proof (line_entry_valid
                (_extract_date_from_timestamp (get_created n)) line) as Hv.
  destruct (line_entry _ line) as [e'|] eqn:E; [|contradiction].
  destruct He as [<-|[]]. unfold line_entry in E.
  destruct (re_match TIME_CODE_PATTERN line); [|discriminate].
  destruct (valid_code _); [|discriminate].
  injection E as <-. cbn. auto.
Qed.

Lemma ascii_digit_value (c : char) :
  ((48 <=? c) && (c <=? 57)) = true ->
  isdecimal c = true /\ digit c = Z.of_N (c - 48).
Proof.
  intros H. unfold isdecimal, digit, todecimal. rewrite H.
  apply andb_true_iff in H. destruct H as [H1 H2].
  apply N.leb_le in H1, H2.
  assert ((c <? 128) = true) as -> by (apply N.ltb_lt; lia).
  auto.
Qed.


Lemma ascii_digit_bounds (c : char) :
  ((48 <=? c) && (c <=? 57)) = true -> 48 <= c <= 57.
Proof.
  rewrite andb_true_iff, !N.leb_le. auto.
Qed.

Lemma valid_code_length (code : str) :
  valid_code code = true -> (length code = 3 \/ length code = 4)%nat.
Proof.
  destruct code as [|a [|b [|c [|d [|e t]]]]]; simpl; auto; discriminate.
Qed.

(** Takes [ascii_digits] and [valid_code] of a code of known length apart
    into bounds on its characters. *)
Ltac code_bounds :=
  repeat match goal with
         | H : ascii_digits (_ :: _) = true |- _ =>
             unfold ascii_digits in H; cbn [forallb] in H;
             rewrite ?andb_true_r in H
         | H : (_ && _) = true |- _ =>
             apply andb_true_iff in H; destruct H
         | H : (48 <=? ?c) = true |- _ => apply N.leb_le in H
         | H : (?c <=? 57) = true |- _ => apply N.leb_le in H
         | H : (_ <=? _)%Z = true |- _ => apply Z.leb_le in H
         end.

Lemma digit_of_ascii (c : char) :
  48 <= c -> c <= 57 -> digit c = (Z.of_N c - 48)%Z /\ isdecimal c = true.
Proof.
  intros H1 H2.
  destruct (@ascii_digit_value c) as [Hd ->].
  { apply andb_true_iff. split; apply N.leb_le; assumption. }
  split; [lia | assumption].
Qed.

(** X11: for two valid time codes written with the digits 0 to 9, the
    [HH:MM] strings that [_parse_time_code] builds compare as the times of
    day do: the string of one is below that of the other exactly when its
    time is earlier, and the strings are equal exactly when the times are
    (as for 637 and 0637); so the sort by the time string is a sort by
    time of day. *)
Theorem time_strings_order_as_times :
  forall code1 code2 : str,
    ascii_digits code1 = true -> ascii_digits code2 = true ->
    valid_code code1 = true -> valid_code code2 = true ->
    (str_ltb (_parse_time_code code1) (_parse_time_code code2) = true <->
     (minutes_of_day code1 < minutes_of_day code2)%Z)
    /\ (_parse_time_code code1 = _parse_time_code code2 <->
        minutes_of_day code1 = minutes_of_day code2)
    /\ (0 <= minutes_of_day code1 < 1440)%Z.
Proof.
  intros code1 code2 A1 A2 V1 V2.
  destruct (valid_code_length _ V1) as [L1|L1];
    destruct (valid_code_length _ V2) as [L2|L2];
    destruct code1 as [|a1 [|b1 [|c1 [|d1 [|e1 t1]]]]]; try discriminate L1;
    destruct code2 as [|a2 [|b2 [|c2 [|d2 [|e2 t2]]]]]; try discriminate L2;
    clear L1 L2; unfold valid_code in V1, V2; unfold minutes_of_day;
    cbn [hours_minutes] in *; code_bounds;
    repeat match goal with
           | H1 : 48 <= ?c, H2 : ?c <= 57 |- _ =>
               let D := fresh "D" in
               let I := fresh "I" in
               destruct (digit_of_ascii H1 H2) as [D I];
               rewrite D in *; clear D;
               generalize dependent H1; generalize dependent H2;
               intros H2 H1; revert H1 H2
           end; intros;
    unfold _parse_time_code; rewrite ?zfill_two;
    repeat rewrite zfill_one by assumption;
    change (lit ":") with ([58] : str); cbn [app].
  all: split; [|split].
  all: try match goal with
           | |- str_ltb _ _ = true <-> _ =>
               cbn [str_ltb]; rewrite ?andb_false_r, ?orb_false_r;
               repeat first [ rewrite orb_true_iff | rewrite andb_true_iff
                            | rewrite N.ltb_lt | rewrite N.eqb_eq ];
               lia
           | |- _ :: _ = _ :: _ <-> _ =>
               split; [intros E; injection E; intros; subst; lia
                      | intros E; repeat f_equal; lia]
           end.
  all: lia.
Qed.

End TimeEntryMore.

(** The codes 637 and 1420. *)
Lemma time_strings_order_as_times_witness :
  ascii_digits (lit "637") = true /\ ascii_digits (lit "1420") = true
  /\ @valid_code ascii_runtime (lit "637") = true
  /\ @valid_code ascii_runtime (lit "1420") = true
  /\ (str_ltb (TimeEntryParser._parse_time_code (lit "637"))
        (TimeEntryParser._parse_time_code (lit "1420")) = true <->
      (@minutes_of_day ascii_runtime (lit "637")
       < @minutes_of_day ascii_runtime (lit "1420"))%Z).
Proof.
  assert (A1 : ascii_digits (lit "637") = true) by reflexivity.
  assert (A2 : ascii_digits (lit "1420") = true) by reflexivity.
  assert (V1 : @valid_code ascii_runtime (lit "637") = true) by reflexivity.
  assert (V2 : @valid_code ascii_runtime (lit "1420") = true) by reflexivity.
  repeat (split; [assumption|]).
  exact (proj1 (@time_strings_order_as_times ascii_runtime _ _ A1 A2 V1 V2)).
Defined.

(** ** Dates *)

Section DateFacts.
Context {RT : Runtime}.
Import TimeEntryParser.

(** The first piece of [s.split(c)] is the text of [s] before its first
    [c]: it has no [c], and what follows it is empty or starts with [c]. *)
Lemma split_head (c : char) (s : str) :
  exists rest,
    s = hd [] (split c s) ++ rest
    /\ contains c (hd [] (split c s)) = false
    /\ (contains c s = false -> rest = [])
    /\ (contains c s = true -> exists rest', rest = c :: rest').
Proof.
  induction s as [|x t (rest & E & Hc & Hn & Hy)]; simpl.
  - exists []. repeat split; auto. discriminate.
  - destruct (x =? c) eqn:Ex.
    + apply N.eqb_eq in Ex. subst x. exists (c :: t). simpl.
      rewrite N.eqb_refl. simpl. repeat split; eauto. discriminate.
    + assert (Ecx : (c =? x) = false) by (rewrite N.eqb_sym; exact Ex).
      rewrite Ecx. simpl.
      destruct (split c t) as [|h r] eqn:Es;
        [exfalso; exact (@split_nonempty _ _ Es)|].
      simpl in *. exists rest. rewrite Ecx. simpl.
      split; [f_equal; exact E|]. auto.
Qed.

(** X12: the date of an empty timestamp is empty; that of a timestamp
    [fromisoformat] reads, once its [Z] are replaced by [+00:00], is the
    date it prints; and when [fromisoformat] rejects the timestamp, the
    date is the text of the timestamp before its first [T], or before its
    first space when it has no [T], and the whole timestamp when it has
    neither. *)
Theorem date_falls_back_to_prefix :
  forall ts : str,
    _extract_date_from_timestamp [] = []
    /\ (forall d,
          ts <> [] ->
          fromisoformat_date (replace 90 (lit "+00:00") ts) = Some d ->
          _extract_date_from_timestamp ts = d)
    /\ (fromisoformat_date (replace 90 (lit "+00:00") ts) = None ->
        exists rest,
          ts = _extract_date_from_timestamp ts ++ rest
          /\ contains 84 (_extract_date_from_timestamp ts) = false
          /\ (contains 84 ts = true -> exists rest', rest = 84 :: rest')
          /\ (contains 84 ts = false ->
              contains 32 (_extract_date_from_timestamp ts) = false
              /\ (contains 32 ts = true -> exists rest', rest = 32 :: rest')
              /\ (contains 32 ts = false -> rest = []))).
Proof.
  intros ts. split; [reflexivity|]. split.
  { intros d Hn H. unfold _extract_date_from_timestamp.
    destruct ts as [|x t]; [congruence|]. cbn [nonempty negb].
    rewrite H. reflexivity. }
  intros H. unfold _extract_date_from_timestamp at 1 2 3.
  destruct ts as [|x t]; [exists []; repeat split; auto; discriminate|].
  cbn [nonempty negb]. rewrite H.
  destruct (contains 84 (x :: t)) eqn:ET.
  - destruct (split_head 84 (x :: t)) as (rest & E & Hc & _ & Hy).
    exists rest. split; [exact E|]. split; [exact Hc|].
    split; [intros _; auto | discriminate].
  - destruct (split_head 32 (x :: t)) as (rest & E & Hc & Hn & Hy).
    exists rest. split; [exact E|]. split.
    + destruct (contains 84 (hd [] (split 32 (x :: t)))) eqn:C;
        [|reflexivity].
      exfalso. unfold contains in C, ET. apply existsb_exists in C.
      destruct C as (y & Hy' & Ey).
      assert (Hin : In y (x :: t)) by (rewrite E; apply in_or_app; auto).
      assert (existsb (N.eqb 84) (x :: t) = true)
        by (apply existsb_exists; eauto).
      congruence.
    + split; [discriminate | auto].
Qed.

End DateFacts.

(** The creation timestamp of the time-entry example under a runtime
    whose [fromisoformat] reads it, and the same timestamp with a stray
    letter, which [fromisoformat] rejects. *)
Lemma date_falls_back_to_prefix_witness :
  @TimeEntryParser._extract_date_from_timestamp one_date_runtime TE_CREATED
  = lit "2024-01-15"
  /\ exists rest,
       TE_CREATED ++ lit "x"
       = @TimeEntryParser._extract_date_from_timestamp one_date_runtime
           (TE_CREATED ++ lit "x") ++ rest
       /\ contains 84
            (@TimeEntryParser._extract_date_from_timestamp one_date_runtime
               (TE_CREATED ++ lit "x")) = false
       /\ exists rest', rest = 84 :: rest'.
Proof.
  split.
  - apply (proj1 (proj2 (@date_falls_back_to_prefix one_date_runtime
                           TE_CREATED))).
    + discriminate.
    + vm_compute. reflexivity.
  - destruct (proj2 (proj2 (@date_falls_back_to_prefix one_date_runtime
                              (TE_CREATED ++ lit "x"))))
      as (rest & E & C & HT & _); [vm_compute; reflexivity|].
    exists rest. split; [exact E|]. split; [exact C|].
    apply HT. vm_compute. reflexivity.
Defined.


(** ** Exercise records *)

Section ExerciseFacts.
Context {RT : Runtime}.
Import TrainingParser.

Lemma dict_get_Some_In {V} (k : str) (v : V) (d : list (str * V)) :
  dict_get k d = Some v -> In k (List.map fst d).
Proof.
  induction d as [|[k' v'] d IH]; simpl; [discriminate|].
  destruct (str_eqb k' k) eqn:E; [|auto].
  intros _. left. apply str_eqb_eq. assumption.
Qed.

Lemma dict_get_pair {V} (k : str) (v : V) (d : list (str * V)) :
  dict_get k d = Some v -> In (k, v) d.
Proof.
  induction d as [|[k' v'] d IH]; simpl; [discriminate|].
  destruct (str_eqb k' k) eqn:E; [|auto].
  apply str_eqb_eq in E. intros [= ->]. subst. left. reflexivity.
Qed.

Lemma dict_get_None_notin {V} (k : str) (d : list (str * V)) :
  dict_get k d = None -> ~ In k (List.map fst d).
Proof.
  intros H Hin. destruct (@dict_get_In V k d Hin) as (v & E). congruence.
Qed.

Lemma dict_set_present {V} (k : str) (v v0 : V) (d : list (str * V)) :
  dict_get k d = Some v0 -> List.map fst (dict_set k v d) = List.map fst d.
Proof.
  induction d as [|[k' v'] d IH]; simpl; [discriminate|].
  destruct (str_eqb k' k) eqn:E; simpl; [reflexivity|].
  intros H. rewrite (IH H). reflexivity.
Qed.

Lemma dict_set_absent {V} (k : str) (v : V) (d : list (str * V)) :
  dict_get k d = None -> dict_set k v d = d ++ [(k, v)].
Proof.
  induction d as [|[k' v'] d IH]; simpl; [reflexivity|].
  destruct (str_eqb k' k) eqn:E; [discriminate|].
  intros H. rewrite (IH H). reflexivity.
Qed.

Lemma dict_set_Forall {V} (P : str * V -> Prop) (k : str) (v : V)
    (d : list (str * V)) :
  Forall P d -> P (k, v) -> Forall P (dict_set k v d).
Proof.
  intros Hd Hk. induction Hd as [|[k' v'] d Hx Hd IH]; simpl.
  - constructor; [assumption | constructor].
  - destruct (str_eqb k' k) eqn:E.
    + apply str_eqb_eq in E. subst k'. constructor; assumption.
    + constructor; assumption.
Qed.

(** What one line does to the dict of exercises: nothing, or the
    set-triples of the line go to one key of the table. *)
Lemma scan_line_dict (st : scan_state) (line : str) :
  state_ok st -> first_long_number line = None ->
  exists st',
    scan_line st line = Ok st' /\ state_ok st'
    /\ (exercises_dict st' = exercises_dict st
        \/ exists abbr full_name sd sds,
             In abbr abbreviations
             /\ dict_get abbr EXERCISE_PATTERNS = Some full_name
             /\ set_triples line = sd :: sds
             /\ exercises_dict st'
                = add_sets abbr full_name line (sd :: sds)
                    (exercises_dict st)).
Proof.
  intros Hok Hshort. pose proof (@extract_sets_short _ _ Hshort) as Hs.
  destruct (@scan_line_returns _ st line Hok Hshort)
    as (st' & Hr & Hok' & _).
  exists st'. split; [exact Hr|]. split; [exact Hok'|].
  unfold scan_line in Hr. rewrite Hs in Hr. cbn [bind] in Hr.
  destruct (set_triples line) as [|sd sds].
  { injection Hr as <-. left. reflexivity. }
  assert (Hkey : forall abbr,
             In abbr abbreviations ->
             exists full_name,
               dict_get abbr EXERCISE_PATTERNS = Some full_name
               /\ dict_item abbr EXERCISE_PATTERNS = Ok full_name).
  { intros abbr Hin. destruct (@full_name_of_key _ Hin) as (full & Hf).
    exists full. split; [|exact Hf]. unfold dict_item in Hf.
    destruct (dict_get abbr EXERCISE_PATTERNS); congruence. }
  assert (Hadd : forall abbr rest_of,
             In abbr abbreviations ->
             bind (if nonempty abbr
                   then full_name <- dict_item abbr EXERCISE_PATTERNS ;;
                        match dict_get abbr (exercises_dict st) with
                        | Some e =>
                            Ok (dict_set abbr
                                  {| exercise_name := exercise_name e;
                                     abbreviation := abbreviation e;
                                     sets := sets e ++ sd :: sds;
                                     total_sets :=
                                       length (sets e ++ sd :: sds);
                                     raw_line :=
                                       raw_line e ++ [NEWLINE] ++ strip line |}
                                  (exercises_dict st))
                        | None =>
                            Ok (dict_set abbr
                                  {| exercise_name := full_name;
                                     abbreviation := abbr;
                                     sets := sd :: sds;
                                     total_sets := length (sd :: sds);
                                     raw_line := strip line |}
                                  (exercises_dict st))
                        end
                   else Ok (exercises_dict st)) rest_of = Ok st' ->
             exists full_name,
               dict_get abbr EXERCISE_PATTERNS = Some full_name
               /\ rest_of (add_sets abbr full_name line (sd :: sds)
                             (exercises_dict st)) = Ok st').
  { intros abbr rest_of Hin H.
    rewrite (@abbreviations_nonempty _ Hin) in H.
    destruct (Hkey abbr Hin) as (full & Hg & Hi). rewrite Hi in H.
    cbn [bind] in H. exists full. split; [exact Hg|].
    unfold add_sets.
    destruct (dict_get abbr (exercises_dict st)); exact H. }
  destruct (first_matching_abbr line) as [w|] eqn:Hw.
  - destruct (@first_matching_abbr_Some _ _ _ Hw) as (b & a & Hk & _ & _).
    assert (Hin : In w abbreviations) by (rewrite Hk; apply in_elt).
    unfold truthy in Hr. rewrite (@abbreviations_nonempty _ Hin) in Hr.
    cbn beta iota in Hr.
    destruct (Hadd w _ Hin Hr) as (full & Hg & H).
    injection H as <-. right. exists w, full, sd, sds. auto 6.
  - unfold truthy in Hr. cbn beta iota in Hr.
    destruct (current_exercise st) as [c|] eqn:Hc.
    + pose proof (Hok c Hc) as Hin. cbn beta iota in Hr.
      destruct (Hadd c _ Hin Hr) as (full & Hg & H).
      injection H as <-. right. exists c, full, sd, sds. auto 6.
    + injection Hr as <-. left. reflexivity.
Qed.

Lemma add_sets_ok (abbr full_name line : str) (sd : SetData)
    (sds : list SetData) (d : list (str * ExerciseData)) :
  dict_get abbr EXERCISE_PATTERNS = Some full_name ->
  dict_ok d -> dict_ok (add_sets abbr full_name line (sd :: sds) d).
Proof.
  intros Hf [Hnd Hall]. unfold add_sets.
  destruct (dict_get abbr d) as [e|] eqn:E.
  - split.
    + erewrite dict_set_present by exact E. exact Hnd.
    + apply dict_set_Forall; [exact Hall|].
      assert (He : record_ok abbr e).
      { clear - E Hall. induction Hall as [|[k v] d Hx Hd IH];
          simpl in E; [discriminate|].
        destruct (str_eqb k abbr) eqn:Ek; [|auto].
        apply str_eqb_eq in Ek. injection E as <-. subst k. exact Hx. }
      destruct He as (Ha & Hn & Ht & Hs). unfold record_ok. cbn.
      repeat split; auto. destruct (sets e); discriminate.
  - rewrite dict_set_absent by exact E. split.
    + rewrite map_app. simpl. apply NoDup_app; [exact Hnd | | ].
      * constructor; [intros [] | constructor].
      * intros k Hk [<-|[]]. exact (@dict_get_None_notin _ _ _ E Hk).
    + apply Forall_app. split; [exact Hall|].
      constructor; [|constructor]. unfold record_ok. cbn.
      repeat split; auto. discriminate.
Qed.

Lemma grows_refl (d : list (str * ExerciseData)) : grows d d.
Proof.
  split; [exists []; rewrite app_nil_r; reflexivity|].
  intros k e H. exists e, []. rewrite app_nil_r. auto.
Qed.

Lemma grows_trans (d1 d2 d3 : list (str * ExerciseData)) :
  grows d1 d2 -> grows d2 d3 -> grows d1 d3.
Proof.
  intros [[x1 E1] H1] [[x2 E2] H2]. split.
  - exists (x1 ++ x2). rewrite E2, E1, app_assoc. reflexivity.
  - intros k e1 He1. destruct (H1 _ _ He1) as (e2 & m1 & He2 & S1).
    destruct (H2 _ _ He2) as (e3 & m2 & He3 & S2).
    exists e3, (m1 ++ m2). rewrite S2, S1, app_assoc. auto.
Qed.

Lemma add_sets_grows (abbr full_name line : str) (line_sets : list SetData)
    (d : list (str * ExerciseData)) :
  grows d (add_sets abbr full_name line line_sets d).
Proof.
  unfold add_sets. split.
  - destruct (dict_get abbr d) as [e|] eqn:E.
    + exists []. erewrite dict_set_present by exact E. rewrite app_nil_r. reflexivity.
    + exists [abbr]. rewrite dict_set_absent by exact E. rewrite map_app. reflexivity.
  - intros k e1 He1. destruct (str_eqb k abbr) eqn:Ek.
    + apply str_eqb_eq in Ek. subst k. rewrite He1, dict_get_set_same.
      eexists. exists line_sets. split; reflexivity.
    + apply str_eqb_neq in Ek. rewrite dict_get_set_other by assumption.
      exists e1, []. rewrite app_nil_r. auto.
Qed.

Lemma scan_keeps (lines : list str) :
  forall st,
    state_ok st -> dict_ok (exercises_dict st) ->
    match long_number lines with
    | Some w => scan lines st = Raise (int_limit_error (length w))
    | None =>
        exists st',
          scan lines st = Ok st' /\ state_ok st'
          /\ dict_ok (exercises_dict st')
          /\ grows (exercises_dict st) (exercises_dict st')
    end.
Proof.
  induction lines as [|l t IH]; intros st Hok Hd.
  - exists st. simpl. split; [reflexivity|]. split; [exact Hok|].
    split; [exact Hd | apply grows_refl].
  - rewrite long_number_cons. unfold scan in *. cbn [foldM].
    destruct (first_long_number l) as [w|] eqn:Hl.
    { rewrite (@scan_line_raises _ st _ _ Hl). reflexivity. }
    destruct (@scan_line_dict st l Hok Hl) as (st1 & H1 & Hok1 & Hd1).
    assert (Hd1' : dict_ok (exercises_dict st1)
                   /\ grows (exercises_dict st) (exercises_dict st1)).
    { destruct Hd1 as [->|(abbr & full & sd & sds & _ & Hf & _ & ->)].
      - split; [exact Hd | apply grows_refl].
      - split; [apply add_sets_ok; assumption | apply add_sets_grows]. }
    destruct Hd1' as [Hdo Hg].
    rewrite H1. cbn [bind]. specialize (IH st1 Hok1 Hdo).
    destruct (long_number t) as [w|]; [exact IH|].
    destruct IH as (st' & H' & Hok' & Hd' & Hg').
    exists st'. split; [exact H'|]. split; [exact Hok'|].
    split; [exact Hd'|]. eapply grows_trans; eassumption.
Qed.

Lemma initial_dict_ok : dict_ok (exercises_dict initial_state).
Proof. split; constructor. Qed.

(** [_extract_exercises] on a text: the error of [int] on the first set
    or reps that is too long, or the records of the state the scan ends
    in. *)
Lemma extract_exercises_cases (text : str) :
  match long_number (split NEWLINE text) with
  | Some w => _extract_exercises text = Raise (int_limit_error (length w))
  | None =>
      exists st,
        scan (split NEWLINE text) initial_state = Ok st
        /\ _extract_exercises text = Ok (List.map snd (exercises_dict st))
        /\ dict_ok (exercises_dict st)
  end.
Proof.
  pose proof (@scan_keeps (split NEWLINE text) initial_state
                initial_state_ok initial_dict_ok) as R.
  unfold _extract_exercises.
  destruct (long_number (split NEWLINE text)) as [w|].
  - rewrite R. reflexivity.
  - destruct R as (st & Hs & _ & Hd & _). exists st. rewrite Hs. auto.
Qed.

(** X13: [_extract_exercises] raises the [ValueError] of [int] when a set
    or a reps of a line has more than 4300 digits, and returns otherwise.
    No two of the records it returns have the same abbreviation; each
    record has an abbreviation of the table with the full name the table
    gives it, at least one set, and a [total_sets] that is the number of
    its sets.  The text "Bp 3x8x100.5" gives the one record of Bench
    Press with the set of 3, 8 and the double 100.5, which is
    7072058789855232 * 2^-46.  A run of 4300 digits is not too long and
    one of 4301 is: "Bp 3x" followed by 4300 digits 1 and "x60" gives one
    record, and with 4301 digits 1 the error, which names the limit and
    the count. *)
Theorem exercise_records_well_formed :
  forall text : str,
    match long_number (split NEWLINE text) with
    | Some w => _extract_exercises text = Raise (int_limit_error (length w))
    | None =>
        exists exs,
          _extract_exercises text = Ok exs
          /\ NoDup (List.map abbreviation exs)
          /\ Forall (fun e =>
                       In (abbreviation e, exercise_name e) EXERCISE_PATTERNS
                       /\ total_sets e = length (sets e)
                       /\ (1 <= total_sets e)%nat) exs
    end
    /\ _extract_exercises (lit "Bp 3x8x100.5")
       = Ok [ {| exercise_name := lit "Bench Press";
                 abbreviation := lit "Bp";
                 sets := [ {| set := 3; reps := 8;
                              weight := Finite 7072058789855232 (-46) |} ];
                 total_sets := 1;
                 raw_line := lit "Bp 3x8x100.5" |} ]
    /\ too_long (repeat 49 4300) = false
    /\ too_long (repeat 49 4301) = true
    /\ (exists e,
          _extract_exercises (lit "Bp 3x" ++ repeat 49 4300 ++ lit "x60")
          = Ok [e])
    /\ _extract_exercises (lit "Bp 3x" ++ repeat 49 4301 ++ lit "x60")
       = Raise (ValueError
                  (lit "Exceeds the limit (4300 digits) for integer string conversion: value has 4301 digits; use sys.set_int_max_str_digits() to increase the limit")).
Proof.
  intros text.
  split; [|repeat split; try (eexists; vm_compute; reflexivity);
           vm_compute; reflexivity].
  pose proof (extract_exercises_cases text) as R.
  destruct (long_number (split NEWLINE text)) as [w|]; [exact R|].
  destruct R as (st & _ & He & [Hnd Hall]).
  exists (List.map snd (exercises_dict st)). split; [exact He|].
  assert (Hab : List.map abbreviation (List.map snd (exercises_dict st))
                = List.map fst (exercises_dict st)).
  { clear - Hall. induction Hall as [|[k e] d Hx Hd IH]; [reflexivity|].
    simpl. rewrite IH. destruct Hx as (Hx & _). simpl in Hx.
    rewrite Hx. reflexivity. }
  split; [rewrite Hab; exact Hnd|].
  rewrite Forall_map. eapply Forall_impl; [|exact Hall].
  intros [k e] (Ha & Hn & Ht & Hs'). cbn [fst snd] in *. subst k.
  split; [|split; [exact Ht|]].
  - apply dict_get_pair. exact Hn.
  - rewrite Ht. destruct (sets e); [congruence | simpl; lia].
Qed.


Lemma split_app_newline (t1 t2 : str) :
  split NEWLINE (t1 ++ NEWLINE :: t2) = split NEWLINE t1 ++ split NEWLINE t2.
Proof.
  induction t1 as [|c t1 IH]; simpl; [reflexivity|].
  rewrite IH. destruct (c =? NEWLINE); [reflexivity|].
  destruct (split NEWLINE t1) as [|h r] eqn:E;
    [exfalso; exact (@split_nonempty _ _ E) | reflexivity].
Qed.

Lemma dict_keys_abbreviations (d : list (str * ExerciseData)) :
  dict_ok d -> List.map abbreviation (List.map snd d) = List.map fst d.
Proof.
  intros [_ Hall]. induction Hall as [|[k e] d Hx Hd IH]; [reflexivity|].
  simpl. rewrite IH. destruct Hx as (Hx & _). simpl in Hx.
  rewrite Hx. reflexivity.
Qed.

Lemma dict_get_of_pair {V} (k : str) (v : V) (d : list (str * V)) :
  NoDup (List.map fst d) -> In (k, v) d -> dict_get k d = Some v.
Proof.
  induction d as [|[k' v'] d IH]; simpl; [contradiction|].
  intros Hnd [[= -> ->]|Hin].
  - rewrite str_eqb_refl. reflexivity.
  - inversion Hnd as [|? ? Hk Hnd']; subst.
    destruct (str_eqb k' k) eqn:E; [|auto].
    apply str_eqb_eq in E. subst k'. exfalso. apply Hk.
    apply in_map_iff. exists (k, v). auto.
Qed.

(** X14: lines added after a text only add to its exercises.  When no
    set or reps of the longer text is too long for [int], both texts have
    their records: those of the longer text start with records for the
    same abbreviations in the same order, and each of them has the sets of
    the shorter text's record as its first sets.  When one is too long,
    the longer text raises the error of [int]; and an error of the shorter
    text is the error of the longer one. *)
Theorem more_lines_only_append :
  forall t1 t2 : str,
    match long_number (split NEWLINE (t1 ++ NEWLINE :: t2)) with
    | Some w =>
        _extract_exercises (t1 ++ NEWLINE :: t2)
        = Raise (int_limit_error (length w))
    | None =>
        exists exs1 exs2 extra,
          _extract_exercises t1 = Ok exs1
          /\ _extract_exercises (t1 ++ NEWLINE :: t2) = Ok exs2
          /\ List.map abbreviation exs2 = List.map abbreviation exs1 ++ extra
          /\ forall e1,
               In e1 exs1 ->
               exists e2 more,
                 In e2 exs2 /\ abbreviation e2 = abbreviation e1
                 /\ exercise_name e2 = exercise_name e1
                 /\ sets e2 = sets e1 ++ more
    end
    /\ (forall e,
          _extract_exercises t1 = Raise e ->
          _extract_exercises (t1 ++ NEWLINE :: t2) = Raise e).
Proof.
  intros t1 t2.
  pose proof (extract_exercises_cases (t1 ++ NEWLINE :: t2)) as R.
  pose proof (extract_exercises_cases t1) as R1.
  rewrite split_app_newline, long_number_app in R |- *.
  split.
  - destruct (long_number (split NEWLINE t1)) as [w1|] eqn:L1; [exact R|].
    destruct (long_number (split NEWLINE t2)) as [w2|] eqn:L2; [exact R|].
    destruct R1 as (st1 & Hs1 & He1 & Hd1). clear R.
    assert (Hok1 : state_ok st1).
    { pose proof (@scan_returns _ (split NEWLINE t1) initial_state
                    initial_state_ok) as Q.
      rewrite L1 in Q. destruct Q as (st & Hs & Hok & _).
      assert (st = st1) by congruence. subst st. exact Hok. }
    pose proof (@scan_keeps (split NEWLINE t2) st1 Hok1 Hd1) as R2.
    rewrite L2 in R2. destruct R2 as (st2 & Hs2 & _ & Hd2 & [[extra Hk] Hg]).
    exists (List.map snd (exercises_dict st1)),
      (List.map snd (exercises_dict st2)), extra.
    split; [exact He1|]. split.
    { unfold _extract_exercises. rewrite split_app_newline.
      unfold scan in *. rewrite foldM_app, Hs1. cbn [bind]. rewrite Hs2.
      reflexivity. }
    rewrite !dict_keys_abbreviations by assumption. split; [exact Hk|].
    intros e1 He. apply in_map_iff in He. destruct He as ([k e] & <- & Hin).
    simpl. destruct Hd1 as [Hnd1 Hall1].
    pose proof (@dict_get_of_pair _ _ _ _ Hnd1 Hin) as G1.
    destruct (Hg _ _ G1) as (e2 & more & G2 & Hsets).
    exists e2, more. split.
    { apply in_map_iff. exists (k, e2). split; [reflexivity|].
      apply dict_get_pair. exact G2. }
    destruct Hd2 as [_ Hall2]. rewrite Forall_forall in Hall1, Hall2.
    destruct (Hall1 _ Hin) as (A1 & N1 & _).
    destruct (Hall2 _ (@dict_get_pair _ _ _ _ G2)) as (A2 & N2 & _).
    simpl in *. split; [congruence|]. split; [congruence | exact Hsets].
  - intros e He.
    destruct (long_number (split NEWLINE t1)) as [w1|].
    + rewrite R. congruence.
    + destruct R1 as (st1 & _ & He1 & _). congruence.
Qed.

(** X15: a line on which no key of the table matches.  When a set or a
    reps of the line is too long for [int], the scan of the line raises
    the error of [int].  Otherwise the line is scanned and the recorded
    indent stays.  Without set-triples it leaves the exercises as they
    are and ends the current exercise exactly when its indent is not
    deeper than the recorded one.  With set-triples it keeps the current
    exercise and gives it the set-triples the line writes; when there is
    no current exercise they are dropped. *)
Theorem unmatched_line_scanned :
  forall (st : scan_state) (line : str),
    state_ok st ->
    first_matching_abbr line = None ->
    match first_long_number line with
    | Some w => scan_line st line = Raise (int_limit_error (length w))
    | None =>
        exists st',
          _extract_sets line = Ok (set_triples line)
          /\ scan_line st line = Ok st'
          /\ previous_indent st' = previous_indent st
          /\ (set_triples line = [] ->
              exercises_dict st' = exercises_dict st
              /\ current_exercise st'
                 = if (indent_of line <=? previous_indent st)%nat then None
                   else current_exercise st)
          /\ (set_triples line <> [] ->
              current_exercise st' = current_exercise st
              /\ (current_exercise st = None ->
                  exercises_dict st' = exercises_dict st)
              /\ (forall c,
                    current_exercise st = Some c ->
                    exists full_name,
                      dict_get c EXERCISE_PATTERNS = Some full_name
                      /\ exercises_dict st'
                         = add_sets c full_name line (set_triples line)
                             (exercises_dict st)))
    end.
Proof.
  intros st line Hok Hw.
  destruct (first_long_number line) as [n|] eqn:Hl.
  { exact (@scan_line_raises _ st _ _ Hl). }
  pose proof (@extract_sets_short _ _ Hl) as Hs.
  unfold scan_line. rewrite Hw, Hs. cbn [bind]. unfold truthy at 1 2.
  cbn beta iota. cbn [negb andb]. rewrite andb_true_r.
  destruct (set_triples line) as [|sd sds].
  - eexists. split; [reflexivity|]. split; [reflexivity|].
    cbn. rewrite andb_true_r. split; [reflexivity|].
    split; [auto | congruence].
  - cbn [andb]. rewrite andb_false_r.
    destruct (current_exercise st) as [c|] eqn:Hc.
    + pose proof (Hok c Hc) as Hin. cbn beta iota.
      rewrite (@abbreviations_nonempty _ Hin).
      destruct (@full_name_of_key _ Hin) as (full & Hf). rewrite Hf.
      cbn [bind].
      assert (Hg : dict_get c EXERCISE_PATTERNS = Some full).
      { unfold dict_item in Hf.
        destruct (dict_get c EXERCISE_PATTERNS); congruence. }
      exists {| exercises_dict :=
                  add_sets c full line (sd :: sds) (exercises_dict st);
                current_exercise := Some c;
                previous_indent := previous_indent st |}.
      split; [reflexivity|]. split.
      { unfold add_sets.
        destruct (dict_get c (exercises_dict st)); reflexivity. }
      cbn. split; [reflexivity|]. split; [discriminate|].
      intros _. split; [reflexivity|]. split; [discriminate|].
      intros c' [= <-]. eauto.
    + eexists. split; [reflexivity|].
      split; [reflexivity|]. cbn. split; [reflexivity|].
      split; [discriminate|]. intros _. split; [reflexivity|].
      split; [reflexivity | discriminate].
Qed.

End ExerciseFacts.

(** A line of set-triples scanned from the initial state, where there is
    no current exercise. *)
Lemma unmatched_line_scanned_witness :
  @state_ok TrainingParser.initial_state
  /\ @TrainingParser.first_matching_abbr ascii_runtime (lit "  3x8x100")
     = None
  /\ @first_long_number ascii_runtime (lit "  3x8x100") = None
  /\ exists st',
       @TrainingParser._extract_sets ascii_runtime (lit "  3x8x100")
       = Ok (@set_triples ascii_runtime (lit "  3x8x100"))
       /\ @TrainingParser.scan_line ascii_runtime
            TrainingParser.initial_state (lit "  3x8x100") = Ok st'
       /\ TrainingParser.previous_indent st' = 0%nat.
Proof.
  assert (H : @TrainingParser.first_matching_abbr ascii_runtime
                (lit "  3x8x100") = None) by (vm_compute; reflexivity).
  assert (Hl : @first_long_number ascii_runtime (lit "  3x8x100") = None)
    by (vm_compute; reflexivity).
  split; [exact initial_state_ok|]. split; [exact H|]. split; [exact Hl|].
  pose proof (@unmatched_line_scanned ascii_runtime
                TrainingParser.initial_state (lit "  3x8x100")
                initial_state_ok H) as R.
  rewrite Hl in R. destruct R as (st' & Hs & Hr & Hp & _).
  exists st'. split; [exact Hs|]. split; [exact Hr | exact Hp].
Defined.


(** ** What a match consumes *)

Section ConsumeFacts.
Context {RT : Runtime}.

(** The text a way of matching takes is the start of the text that was
    left, and what is left after it is the rest. *)
Lemma matches_consume (r : re) :
  forall st st' w, In (w, st') (matches r st) -> rest st = w ++ rest st'.
Proof.
  induction r as [ | c | r1 IH1 r2 IH2 | r1 IH1 r2 IH2 | lo hi c | r IH
                 | n r IH | | | ]; intros st st' w H.
  - apply matches_Eps_inv in H. destruct H as [-> ->]. reflexivity.
  - apply matches_Chr_inv in H. destruct H as (_ & x & -> & _ & ->).
    reflexivity.
  - apply in_matches_Seq in H. destruct H as (w1 & s1 & w2 & H1 & H2 & ->).
    rewrite (IH1 _ _ _ H1), (IH2 _ _ _ H2), app_assoc. reflexivity.
  - apply matches_Alt_inv in H. destruct H as [H|H]; eauto.
  - apply matches_Rep_inv in H. tauto.
  - apply matches_Opt_inv in H. destruct H as [H|[-> ->]]; eauto.
  - apply matches_Group_inv in H. destruct H as (s1 & H & _ & ->). eauto.
  - apply matches_Bol_inv in H. destruct H as [-> ->]. reflexivity.
  - apply matches_Eol_inv in H. destruct H as [-> ->]. reflexivity.
  - apply matches_WordB_inv in H. destruct H as [-> ->]. reflexivity.
Qed.

Lemma match_at_prefix (r : re) (pos : nat) (p : option char) (s : str)
    (m : match_obj) :
  match_at r pos p s = Some m -> exists after, s = m_text m ++ after.
Proof.
  intros H. apply match_at_In in H. destruct H as (st' & H & _).
  apply matches_consume in H. simpl in H. eauto.
Qed.

(** Every match of [finditer] lies in the text. *)
Lemma finditer_substring (r : re) (s : str) (m : match_obj) :
  In m (re_finditer r s) ->
  exists before after,
    s = before ++ m_text m ++ after /\ m_start m = length before.
Proof.
  intros H. apply finditer_from_places in H.
  destruct H as (b & p' & a & -> & Hm).
  destruct (match_at_prefix _ _ _ _ Hm) as (after & ->).
  apply match_at_In in Hm. destruct Hm as (_ & _ & _ & Hp).
  exists b, after. auto.
Qed.

End ConsumeFacts.

(** ** Completed activities *)

Section ActivityFacts.
Context {RT : Runtime}.
Import TrainingParser.

Lemma timestamp_match_shape (pos : nat) (p : option char) (s : str)
    (m : match_obj) :
  match_at timestamp_pattern pos p s = Some m ->
  group m 1 = m_text m /\ length (m_text m) = 19%nat.
Proof.
  intros H. apply match_at_In in H. destruct H as (st' & H & Hc & _).
  unfold group. rewrite Hc. clear Hc.
  let pat := eval cbv in timestamp_pattern in
  change timestamp_pattern with pat in H.
  inv_matches H. subst.
  repeat match goal with C : caps _ = _ |- _ => rewrite C; clear C end.
  cbn [lookup_group Nat.eqb]. split; [reflexivity|].
  repeat match goal with
         | U : forall h, Some ?n = Some h -> _ |- _ =>
             specialize (U _ eq_refl)
         end.
  match goal with E : m_text m = _ |- _ => rewrite E end.
  rewrite !length_app. simpl length. lia.
Qed.

Lemma keep_some_In {A} (l : list (option A)) (a : A) :
  In a (keep_some l) <-> In (Some a) l.
Proof.
  unfold keep_some. rewrite in_flat_map. split.
  - intros ([x|] & Hx & Ha); [|contradiction].
    destruct Ha as [->|[]]. assumption.
  - intros H. exists (Some a). split; [assumption | left; reflexivity].
Qed.

End ActivityFacts.

(** ** Checkbox glyphs in training notes *)

Section NormalizeFacts.
Context {RT : Runtime}.
Import TrainingParser.

Lemma contains_app (c : char) (a b : str) :
  contains c (a ++ b) = contains c a || contains c b.
Proof. unfold contains. apply existsb_app. Qed.

Lemma contains_replace_old (old : char) (new s : str) :
  contains old new = false -> contains old (replace old new s) = false.
Proof.
  intros Hn. induction s as [|x t IH]; [reflexivity|].
  unfold replace in *. simpl. rewrite contains_app, IH, orb_false_r.
  destruct (x =? old) eqn:E; [exact Hn|].
  unfold contains. simpl. rewrite N.eqb_sym, E. reflexivity.
Qed.

Lemma contains_replace_other (c old : char) (new s : str) :
  contains c new = false -> contains c s = false ->
  contains c (replace old new s) = false.
Proof.
  intros Hn. induction s as [|x t IH]; [reflexivity|].
  unfold replace in *. unfold contains at 1. simpl.
  intros H. apply orb_false_iff in H. destruct H as [Hx Ht].
  rewrite contains_app, (IH Ht), orb_false_r.
  destruct (x =? old); [exact Hn|].
  unfold contains. simpl. rewrite Hx. reflexivity.
Qed.

Lemma replace_absent (old : char) (new s : str) :
  contains old s = false -> replace old new s = s.
Proof.
  induction s as [|x t IH]; [reflexivity|].
  unfold contains. simpl. intros H. apply orb_false_iff in H.
  destruct H as [Hx Ht]. unfold replace in *. simpl.
  rewrite N.eqb_sym, Hx. simpl. f_equal. apply IH. exact Ht.
Qed.

Lemma split_app_no_sep (sep : char) (a b : str) :
  contains sep a = false ->
  split sep (a ++ b)
  = match split sep b with
    | h :: r => (a ++ h) :: r
    | [] => [a]
    end.
Proof.
  induction a as [|x a IH]; simpl.
  - intros _. destruct (split sep b) eqn:E; [|reflexivity].
    exfalso. exact (@split_nonempty _ _ E).
  - unfold contains. simpl. intros H. apply orb_false_iff in H.
    destruct H as [Hx Ha]. rewrite N.eqb_sym, Hx, (IH Ha).
    destruct (split sep b); reflexivity.
Qed.

Lemma split_replace (old : char) (new s : str) :
  (old =? NEWLINE) = false -> contains NEWLINE new = false ->
  split NEWLINE (replace old new s)
  = List.map (replace old new) (split NEWLINE s).
Proof.
  intros Ho Hn. induction s as [|x t IH]; [reflexivity|].
  change (replace old new (x :: t))
    with ((if x =? old then new else [x]) ++ replace old new t).
  simpl split. destruct (x =? old) eqn:Ex.
  - apply N.eqb_eq in Ex. subst x. rewrite Ho.
    rewrite (@split_app_no_sep _ _ _ Hn), IH.
    destruct (split NEWLINE t) as [|h r] eqn:E;
      [exfalso; exact (@split_nonempty _ _ E)|].
    simpl. unfold replace at 3. simpl. rewrite N.eqb_refl. reflexivity.
  - simpl app. simpl split. destruct (x =? NEWLINE) eqn:En.
    + rewrite IH. reflexivity.
    + rewrite IH. destruct (split NEWLINE t) as [|h r] eqn:E;
        [exfalso; exact (@split_nonempty _ _ E)|].
      simpl. unfold replace at 3. simpl. rewrite Ex. reflexivity.
Qed.

(** X17: after [_normalize_checkboxes] neither checkbox glyph is left in
    the text; a text without glyphs is returned as it is, so normalising
    twice is normalising once; and the lines of the normalised text are
    the normalised lines of the text. *)
Theorem normalize_checkboxes_removes_glyphs :
  forall text : str,
    contains UNCHECKED_BOX (_normalize_checkboxes text) = false
    /\ contains CHECKED_BOX (_normalize_checkboxes text) = false
    /\ (contains UNCHECKED_BOX text = false ->
        contains CHECKED_BOX text = false ->
        _normalize_checkboxes text = text)
    /\ _normalize_checkboxes (_normalize_checkboxes text)
       = _normalize_checkboxes text
    /\ split NEWLINE (_normalize_checkboxes text)
       = List.map _normalize_checkboxes (split NEWLINE text).
Proof.
  intros text.
  assert (H1 : contains UNCHECKED_BOX (_normalize_checkboxes text) = false).
  { unfold _normalize_checkboxes.
    apply contains_replace_other; [reflexivity|].
    apply contains_replace_old. reflexivity. }
  assert (H2 : contains CHECKED_BOX (_normalize_checkboxes text) = false).
  { unfold _normalize_checkboxes. apply contains_replace_old. reflexivity. }
  assert (H3 : forall t,
             contains UNCHECKED_BOX t = false ->
             contains CHECKED_BOX t = false -> _normalize_checkboxes t = t).
  { intros t Hu Hc. unfold _normalize_checkboxes.
    rewrite (@replace_absent _ _ _ Hu). apply replace_absent. exact Hc. }
  split; [exact H1|]. split; [exact H2|]. split; [apply H3|].
  split; [apply H3; assumption|].
  unfold _normalize_checkboxes.
  rewrite !split_replace by reflexivity. rewrite map_map. reflexivity.
Qed.

(** X18: [parse] of the Training parser on a dict note.  When a set or a
    reps of a line of the normalised text has more than 4300 digits, it
    raises the [ValueError] of [int] on the first such number.  Otherwise
    it returns a record: [float] and the lookup in the table never raise
    on what the patterns capture.  The raw text of the record is the
    normalised text, its exercises are those of the normalised text, its
    dates are the note's timestamps, and it has a completed activity
    whenever the note has a creation timestamp. *)
Theorem training_parse_returns :
  forall n : note,
    match long_number
            (split NEWLINE (_normalize_checkboxes (get_or [] (n_text n))))
    with
    | Some w => parse (Dict n) = Raise (int_limit_error (length w))
    | None =>
        exists r exs,
          parse (Dict n) = Ok r
          /\ raw_text r = _normalize_checkboxes (get_or [] (n_text n))
          /\ _extract_exercises (raw_text r) = Ok exs
          /\ exercises r = exs
          /\ workout_date r = get_created n
          /\ last_updated r = get_edited n
          /\ completed_activities r
             = _extract_completed_activities (raw_text r) (get_created n)
          /\ (get_created n <> [] -> completed_activities r <> [])
    end.
Proof.
  intros n.
  pose proof (@extract_exercises_cases _
                (_normalize_checkboxes (get_or [] (n_text n)))) as R.
  unfold parse.
  destruct (long_number _) as [w|].
  - rewrite R. reflexivity.
  - destruct R as (st & _ & He & _). rewrite He. cbn [bind].
    eexists. eexists. split; [reflexivity|]. cbn.
    repeat (split; [first [reflexivity | exact He]|]).
    intros Hc.
    destruct (_extract_completed_activities _ (get_created n)) eqn:E;
      [|discriminate].
    unfold _extract_completed_activities in E.
    destruct (keep_some _); [|discriminate].
    destruct (get_created n); [congruence | discriminate].
Qed.

End NormalizeFacts.

(** ** The lines of the completed activities *)

Section FindFacts.
Context {RT : Runtime}.

Lemma find_from_skip (c : char) (a b : str) :
  forall i,
    find_from c (a ++ b) (length a) i
    = find_from c b 0 (i + Z.of_nat (length a))%Z.
Proof.
  induction a as [|x a IH]; intros i.
  - cbn [app length]. rewrite Z.add_0_r. reflexivity.
  - cbn [app length find_from]. rewrite IH. f_equal. lia.
Qed.

Lemma find_from_absent (c : char) (s : str) :
  forall i, contains c s = false -> find_from c s 0 i = (-1)%Z.
Proof.
  induction s as [|x s IH]; intros i H; [reflexivity|].
  unfold contains in H. cbn [existsb] in H. apply orb_false_iff in H.
  destruct H as [Hx Hs]. cbn [find_from]. rewrite N.eqb_sym, Hx.
  apply IH. exact Hs.
Qed.

Lemma find_from_first (c : char) (a1 a2 : str) :
  forall i,
    contains c a1 = false ->
    find_from c (a1 ++ c :: a2) 0 i = (i + Z.of_nat (length a1))%Z.
Proof.
  induction a1 as [|x a1 IH]; intros i H.
  - cbn [app find_from length]. rewrite N.eqb_refl. cbn. lia.
  - unfold contains in H. cbn [existsb] in H. apply orb_false_iff in H.
    destruct H as [Hx Hs]. cbn [app find_from length].
    rewrite N.eqb_sym, Hx, IH by exact Hs. lia.
Qed.

Lemma rfind_upto_absent (c : char) (a b : str) :
  forall i best,
    contains c a = false ->
    rfind_upto c (a ++ b) (length a) i best = best.
Proof.
  induction a as [|x a IH]; intros i best H.
  - cbn [app length]. destruct b; reflexivity.
  - unfold contains in H. cbn [existsb] in H. apply orb_false_iff in H.
    destruct H as [Hx Hs]. cbn [app length rfind_upto].
    rewrite N.eqb_sym, Hx. apply IH. exact Hs.
Qed.

Lemma rfind_upto_last (c : char) (b1 b2 rest : str) :
  forall i best,
    contains c b2 = false ->
    rfind_upto c ((b1 ++ c :: b2) ++ rest) (length (b1 ++ c :: b2)) i best
    = (i + Z.of_nat (length b1))%Z.
Proof.
  induction b1 as [|x b1 IH]; intros i best H.
  - cbn [app length rfind_upto]. rewrite N.eqb_refl.
    rewrite rfind_upto_absent by exact H. cbn. lia.
  - cbn [app length rfind_upto]. rewrite IH by exact H. lia.
Qed.

Lemma slice_middle (p m s : str) :
  slice (p ++ m ++ s) (length p) (length p + length m) = m.
Proof.
  unfold slice. rewrite skipn_app, Nat.sub_diag, skipn_all. cbn [app skipn].
  replace (length p + length m - length p)%nat with (length m) by lia.
  rewrite firstn_app, Nat.sub_diag, firstn_all. cbn [firstn].
  apply app_nil_r.
Qed.

(** The last line of a text: the text when it has no newline, what
    follows its last newline otherwise. *)
Lemma split_last_line (s : str) :
  (contains NEWLINE s = false /\ last (split NEWLINE s) [] = s)
  \/ exists b1 b2,
       s = b1 ++ NEWLINE :: b2 /\ contains NEWLINE b2 = false
       /\ last (split NEWLINE s) [] = b2.
Proof.
  induction s as [|c s IH] using rev_ind.
  - left. split; reflexivity.
  - destruct (split_snoc s c) as (init & lst & Hs & Hc).
    assert (Hl : last (split NEWLINE s) [] = lst)
      by (rewrite Hs; apply last_last).
    rewrite Hc. destruct (c =? NEWLINE) eqn:Ec.
    + apply N.eqb_eq in Ec. subst c. right. exists s, [].
      split; [reflexivity|]. split; [reflexivity|].
      change (init ++ [lst; []]) with (init ++ [lst] ++ [[]]).
      rewrite app_assoc. apply last_last.
    + rewrite last_last.
      assert (Hcc : contains NEWLINE [c] = false).
      { unfold contains. cbn [existsb]. rewrite N.eqb_sym, Ec. reflexivity. }
      destruct IH as [[Hn El]|(b1 & b2 & E & Hn & El)].
      * left. rewrite contains_app, Hn, Hcc. split; [reflexivity|].
        congruence.
      * right. exists b1, (b2 ++ [c]). rewrite E, <- app_assoc.
        split; [reflexivity|]. rewrite contains_app, Hn, Hcc.
        split; [reflexivity|]. congruence.
Qed.

End FindFacts.

Section ActivityFacts2.
Context {RT : Runtime}.
Import TrainingParser.

Lemma before_dot_split (s : str) : hd [] (split 46 s) = before_dot s.
Proof.
  induction s as [|c s IH]; [reflexivity|]. cbn [split before_dot].
  destruct (c =? 46); [reflexivity|].
  destruct (split 46 s) as [|h r] eqn:E;
    [exfalso; exact (@split_nonempty _ _ E)|].
  cbn [hd] in *. rewrite IH. reflexivity.
Qed.

Lemma created_key_stamp (created_timestamp : str) :
  created_key created_timestamp = creation_stamp created_timestamp.
Proof.
  unfold created_key, creation_stamp. rewrite before_dot_split.
  unfold replace. induction (before_dot created_timestamp) as [|c s IH];
    [reflexivity|].
  cbn [flat_map List.map]. rewrite IH. destruct (c =? 32); reflexivity.
Qed.

(** The slice [activity_of_match] takes and strips is the line around
    the match. *)
Lemma slice_line_around (before piece after : str) :
  let text := before ++ piece ++ after in
  let line_start := py_rfind NEWLINE text (length before) in
  let line_end := py_find NEWLINE text (length before + length piece) in
  let line_end :=
    if (line_end =? -1)%Z then Z.of_nat (length text) else line_end in
  let line_start := if (line_start =? -1)%Z then 0%Z else line_start in
  strip (slice text (Z.to_nat line_start) (Z.to_nat line_end))
  = line_around before piece after.
Proof.
  cbv zeta. unfold py_rfind, py_find, line_around.
  (* the end of the line *)
  destruct (split_head NEWLINE after) as (rest & Ea & Hh & Hno & Hyes).
  set (h := hd [] (split NEWLINE after)) in *.
  assert (Hend :
    (let e := find_from NEWLINE (before ++ piece ++ after)
                (length before + length piece) 0 in
     Z.to_nat (if (e =? -1)%Z
               then Z.of_nat (length (before ++ piece ++ after)) else e))
    = (length before + length piece + length h)%nat
    /\ (rest = [] \/ exists r, rest = NEWLINE :: r)).
  { cbv zeta. rewrite app_assoc, <- length_app, find_from_skip.
    destruct (contains NEWLINE after) eqn:C.
    - destruct (Hyes eq_refl) as (r & ->). split; [|eauto].
      rewrite Ea, find_from_first by exact Hh.
      destruct (_ =? -1)%Z eqn:E; [apply Z.eqb_eq in E; lia|].
      rewrite !length_app. lia.
    - rewrite (Hno eq_refl) in *. split; [|auto].
      rewrite find_from_absent by exact C. rewrite Z.eqb_refl.
      rewrite Nat2Z.id, Ea, app_nil_r, !length_app. lia. }
  destruct Hend as [Hend Hrest]. cbv zeta in Hend. rewrite Hend. clear Hend.
  (* the start of the line *)
  destruct (split_last_line before)
    as [[Hn ->]|(b1 & b2 & -> & Hn & ->)].
  - rewrite rfind_upto_absent by exact Hn. cbn [Z.eqb Z.to_nat].
    rewrite Ea.
    replace (before ++ piece ++ h ++ rest)
      with ([] ++ (before ++ piece ++ h) ++ rest)
      by (cbn [app]; rewrite <- !app_assoc; reflexivity).
    replace (length before + length piece + length h)%nat
      with (length (@nil char) + length (before ++ piece ++ h))%nat
      by (rewrite !length_app; cbn [length]; lia).
    rewrite slice_middle. reflexivity.
  - rewrite rfind_upto_last by exact Hn.
    destruct (_ =? -1)%Z eqn:E; [apply Z.eqb_eq in E; lia|].
    rewrite Z.add_0_l, Nat2Z.id, Ea.
    replace ((b1 ++ NEWLINE :: b2) ++ piece ++ h ++ rest)
      with (b1 ++ (NEWLINE :: b2 ++ piece ++ h) ++ rest)
      by (rewrite <- !app_assoc; cbn [app]; rewrite <- !app_assoc;
          reflexivity).
    replace (length (b1 ++ NEWLINE :: b2) + length piece + length h)%nat
      with (length b1 + length (NEWLINE :: b2 ++ piece ++ h))%nat
      by (rewrite !length_app; cbn [length]; rewrite !length_app; lia).
    rewrite slice_middle. apply strip_cons_space. reflexivity.
Qed.

Lemma activity_of_match_line (text created_timestamp before after : str)
    (m : match_obj) :
  text = before ++ m_text m ++ after -> m_start m = length before ->
  group m 1 = m_text m ->
  activity_of_match text created_timestamp m
  = if str_eqb (m_text m) (creation_stamp created_timestamp) then None
    else Some {| timestamp := m_text m;
                 activity := line_around before (m_text m) after |}.
Proof.
  intros Et Hs Hg. unfold activity_of_match.
  rewrite Hg, created_key_stamp.
  destruct (str_eqb (m_text m) (creation_stamp created_timestamp));
    [reflexivity|].
  cbn [negb]. do 2 f_equal. unfold m_end. rewrite Hs, Et.
  apply slice_line_around.
Qed.

End ActivityFacts2.

Section ActivityFacts3.
Context {RT : Runtime}.
Import TrainingParser.

Lemma captured_activities (text created_timestamp : str)
    (ms : list match_obj) :
  (forall m, In m ms -> In m (re_finditer timestamp_pattern text)) ->
  let captured :=
    keep_some (List.map (activity_of_match text created_timestamp) ms) in
  List.map timestamp captured
  = filter (fun t => negb (str_eqb t (creation_stamp created_timestamp)))
      (List.map m_text ms)
  /\ Forall (fun a =>
               length (timestamp a) = 19%nat
               /\ exists before after,
                    text = before ++ timestamp a ++ after
                    /\ activity a
                       = line_around before (timestamp a) after) captured.
Proof.
  induction ms as [|m ms IH]; intros Hin; cbv zeta.
  - split; [reflexivity | constructor].
  - destruct IH as [IHt IHf]; [intros; apply Hin; right; assumption|].
    pose proof (Hin m (or_introl eq_refl)) as Hm.
    destruct (finditer_substring _ _ _ Hm) as (before & after & Et & Hs).
    apply finditer_from_In in Hm. destruct Hm as (pos & p & s & Hm).
    destruct (timestamp_match_shape _ _ _ Hm) as (Hg & Hl).
    unfold keep_some in *. cbn [List.map flat_map filter].
    rewrite (@activity_of_match_line _ text created_timestamp before after
               m Et Hs Hg).
    destruct (str_eqb (m_text m) (creation_stamp created_timestamp));
      cbn [negb app List.map].
    + split; [exact IHt | exact IHf].
    + split; [cbn [timestamp]; f_equal; exact IHt|].
      constructor; [|exact IHf]. cbn [timestamp activity].
      split; [exact Hl|]. exists before, after. split; [exact Et|reflexivity].
Qed.

(** X16: the completed activities of a text.  Its timestamps are found
    from left to right; those that differ from the creation timestamp,
    cut at its first dot and with its spaces turned into T, are the
    timestamps of the activities, one activity for each and in that
    order.  The timestamp of an activity is a piece of 19 characters of
    the text, and the activity is the line of the text around that piece,
    stripped.  When no timestamp of the text differs, the list is the
    single entry "Workout logged" at the creation timestamp, or empty when
    the note has no creation timestamp; so a note with a creation
    timestamp always has a completed activity. *)
Theorem completed_activities_or_default :
  forall text created_timestamp : str,
    let others :=
      filter (fun t => negb (str_eqb t (creation_stamp created_timestamp)))
        (List.map m_text (re_finditer timestamp_pattern text)) in
    let acts := _extract_completed_activities text created_timestamp in
    (others <> [] ->
     List.map timestamp acts = others
     /\ Forall (fun a =>
                  length (timestamp a) = 19%nat
                  /\ exists before after,
                       text = before ++ timestamp a ++ after
                       /\ activity a
                          = line_around before (timestamp a) after) acts)
    /\ (others = [] -> created_timestamp <> [] ->
        acts = [ {| timestamp := created_timestamp;
                    activity := lit "Workout logged" |} ])
    /\ (others = [] -> created_timestamp = [] -> acts = [])
    /\ (created_timestamp <> [] -> acts <> []).
Proof.
  intros text created_timestamp others acts.
  destruct (@captured_activities text created_timestamp
              (re_finditer timestamp_pattern text) (fun _ h => h))
    as [Ht Hf].
  fold others in Ht.
  set (captured := keep_some
                     (List.map (activity_of_match text created_timestamp)
                        (re_finditer timestamp_pattern text))) in *.
  assert (Hacts : acts = match captured with
                         | [] =>
                             if nonempty created_timestamp
                             then [ {| timestamp := created_timestamp;
                                       activity := lit "Workout logged" |} ]
                             else []
                         | _ :: _ => captured
                         end) by reflexivity.
  clearbody acts captured others. subst acts.
  destruct captured as [|c cs]; cbn [List.map] in Ht; subst others.
  - split; [congruence|].
    destruct created_timestamp as [|x t]; cbn [nonempty].
    + split; [congruence|]. split; [reflexivity | congruence].
    + split; [reflexivity|]. split; [discriminate | discriminate].
  - split; [intros _; split; [reflexivity | exact Hf]|].
    split; [discriminate|]. split; [discriminate | discriminate].
Qed.

End ActivityFacts3.


(** ** Generic notes *)


Section GenericMore.
Context {RT : Runtime}.
Import GenericNotesParser.

Lemma classify_lines (lines : list str) :
  forall checkboxes rest,
    fold_left classify_line lines (checkboxes, rest)
    = (checkboxes
         ++ flat_map (fun l => match checkbox_of_line l with
                               | Some c => [c]
                               | None => []
                               end)
              (filter nonempty (List.map strip lines)),
       rest
         ++ filter (fun l => negb (is_checkbox_line l))
              (filter nonempty (List.map strip lines))).
Proof.
  induction lines as [|l t IH]; intros checkboxes rest.
  - simpl. rewrite !app_nil_r. reflexivity.
  - cbn [fold_left List.map filter]. unfold classify_line at 2.
    destruct (nonempty (strip l)) eqn:En; cbn [negb].
    + cbn [flat_map filter]. unfold checkbox_of_line at 1.
      unfold is_checkbox_line at 1.
      destruct (re_match CHECKBOX_PATTERN (strip l)) as [m|];
        cbn [is_some negb app]; rewrite IH, <- ?app_assoc; reflexivity.
    + apply IH.
Qed.

Lemma checkbox_of_line_is (l : str) :
  is_checkbox_line l
  = match checkbox_of_line l with Some _ => true | None => false end.
Proof.
  unfold is_checkbox_line, checkbox_of_line.
  destruct (re_match CHECKBOX_PATTERN l); reflexivity.
Qed.

(** X19: [parse] of the generic parser returns a record for every dict
    note.  Of the lines of the text that are not blank, each stripped, the
    checkbox lines give the checkboxes and the others are the free text,
    both in the order of the lines, so every such line is in exactly one
    of the two lists; title and id pass through, absent ones as empty
    strings. *)
Theorem generic_parse_splits_lines :
  forall n : note,
    let lines := nonblank_lines (get_or [] (n_text n)) in
    exists r,
      parse (Dict n) = Ok r
      /\ rest r = filter (fun l => negb (is_checkbox_line l)) lines
      /\ checkboxes r
         = flat_map (fun l => match checkbox_of_line l with
                              | Some c => [c]
                              | None => []
                              end) lines
      /\ (length (checkboxes r) + length (rest r) = length lines)%nat
      /\ length (checkboxes r) = length (filter is_checkbox_line lines)
      /\ title r = get_or [] (n_title n)
      /\ note_id r = get_or [] (n_id n).
Proof.
  intros n lines. unfold parse. rewrite classify_lines. cbn [app].
  eexists. split; [reflexivity|]. cbn [rest checkboxes title note_id].
  fold (text_lines (get_or [] (n_text n))).
  fold (nonblank_lines (get_or [] (n_text n))). fold lines.
  split; [reflexivity|]. split; [reflexivity|].
  assert (L : length (flat_map (fun l => match checkbox_of_line l with
                                         | Some c => [c]
                                         | None => []
                                         end) lines)
              = length (filter is_checkbox_line lines)).
  { clear. induction lines as [|l t IH]; [reflexivity|].
    cbn [flat_map filter]. rewrite length_app, IH, checkbox_of_line_is.
    destruct (checkbox_of_line l); reflexivity. }
  split; [|split; [exact L | split; reflexivity]].
  rewrite L. clear. induction lines as [|l t IH]; [reflexivity|]. simpl.
  destruct (is_checkbox_line l); simpl; lia.
Qed.

End GenericMore.


Section StripFacts.
Context {RT : Runtime}.

Lemma lstrip_head (s : str) (c : char) (t : str) :
  lstrip s = c :: t -> isspace c = false.
Proof.
  induction s as [|x s IH]; simpl; [discriminate|].
  destruct (isspace x) eqn:E; [exact IH|]. intros [= <- _]. exact E.
Qed.

Lemma rstrip_cons (c : char) (t : str) :
  isspace c = false -> rstrip (c :: t) = c :: rstrip t.
Proof.
  intros Hc. induction t as [|x t IH] using rev_ind.
  - change [c] with ([] ++ [c]). rewrite rstrip_snoc, Hc. reflexivity.
  - change (c :: t ++ [x]) with ((c :: t) ++ [x]).
    rewrite !rstrip_snoc. destruct (isspace x); [exact IH | reflexivity].
Qed.

Lemma strip_head (s : str) (c : char) (t : str) :
  strip s = c :: t -> isspace c = false.
Proof.
  unfold strip. destruct (lstrip s) as [|x u] eqn:E; [discriminate|].
  pose proof (@lstrip_head _ _ _ E) as Hx. rewrite (@rstrip_cons _ u Hx).
  intros [= <- _]. exact Hx.
Qed.

Lemma strip_last (s : str) (t : str) (c : char) :
  strip s = t ++ [c] -> isspace c = false.
Proof.
  unfold strip, rstrip. intros H.
  assert (E : lstrip (rev (lstrip s)) = c :: rev t).
  { rewrite <- (rev_involutive (lstrip (rev (lstrip s)))), H,
      rev_app_distr. reflexivity. }
  exact (@lstrip_head _ _ _ E).
Qed.

Lemma strip_app_spaces (w s : str) :
  forallb isspace w = true -> strip (w ++ s) = strip s.
Proof.
  induction w as [|x w IH]; simpl; [reflexivity|].
  rewrite andb_true_iff. intros [Hx Hw].
  rewrite (@strip_cons_space _ x _ Hx). auto.
Qed.

Lemma lstrip_nil (s : str) : lstrip s = [] -> forallb isspace s = true.
Proof.
  induction s as [|x s IH]; simpl; [reflexivity|].
  destruct (isspace x); [exact IH | discriminate].
Qed.

Lemma strip_nil_spaces (s : str) :
  strip s = [] -> forallb isspace s = true.
Proof.
  unfold strip. destruct (lstrip s) as [|x u] eqn:E.
  - intros _. apply lstrip_nil. exact E.
  - rewrite (@rstrip_cons _ u (@lstrip_head _ _ _ E)). discriminate.
Qed.

End StripFacts.


(** ** Checkbox lines *)

Section BoxFacts.
Context {RT : Runtime}.

Lemma rep_matches_complete (test : char -> bool) (w s' : str) :
  forall lo p,
    forallb test w = true -> (lo <= length w)%nat ->
    exists p', In (w, (p', s')) (rep_matches test lo None p (w ++ s')).
Proof.
  induction w as [|x w IH]; intros lo p Hw Hlo.
  - simpl in Hlo. assert (lo = O) by lia. subst lo. exists p.
    destruct s' as [|y t]; simpl; [auto|].
    destruct (test y && true); [apply in_or_app; right|]; simpl; auto.
  - simpl in Hw. apply andb_true_iff in Hw. destruct Hw as [Hx Hw].
    destruct (IH (Nat.pred lo) (Some x) Hw) as (p' & Hin);
      [simpl in Hlo; lia|].
    exists p'. cbn [app rep_matches]. rewrite Hx. cbn [hi_allows andb hi_pred].
    apply in_or_app. left. apply in_map_iff.
    exists (w, (p', s')). split; [reflexivity | exact Hin].
Qed.

Lemma matches_Rep_intro (lo : nat) (c : cls) (st : mstate) (w s' : str) :
  forallb (cls_test c) w = true -> (lo <= length w)%nat ->
  rest st = w ++ s' ->
  exists st',
    In (w, st') (matches (Rep lo None c) st)
    /\ rest st' = s' /\ caps st' = caps st.
Proof.
  intros Hw Hlo Hr.
  destruct (@rep_matches_complete (cls_test c) w s' lo (prev st) Hw Hlo)
    as (p' & Hin).
  exists {| prev := p'; rest := s'; caps := caps st |}.
  split; [|split; reflexivity].
  cbn [matches]. rewrite Hr. apply in_map_iff.
  exists (w, (p', s')). split; [reflexivity | exact Hin].
Qed.

Lemma matches_Seq_intro (r1 r2 : re) (st s1 st' : mstate) (w1 w2 : str) :
  In (w1, s1) (matches r1 st) -> In (w2, st') (matches r2 s1) ->
  In (w1 ++ w2, st') (matches (Seq r1 r2) st).
Proof.
  intros H1 H2. cbn [matches]. apply in_flat_map.
  exists (w1, s1). split; [exact H1|]. apply in_map_iff.
  exists (w2, st'). split; [reflexivity | exact H2].
Qed.

Lemma match_at_of_In (r : re) (pos : nat) (p : option char) (s : str)
    (x : str * mstate) :
  In x (matches r {| prev := p; rest := s; caps := [] |}) ->
  match_at r pos p s <> None.
Proof.
  unfold match_at. destruct (matches r _) as [|[w st] l]; [contradiction|].
  discriminate.
Qed.

Lemma is_box_spec (c : char) :
  is_box c = cls_test (CSet [CLit UNCHECKED_BOX; CLit CHECKED_BOX]) c.
Proof. unfold is_box. simpl. rewrite orb_false_r. reflexivity. Qed.

(** A box, then anything on the same line: the pattern matches. *)
Lemma box_line_matches (c : char) (body : str) :
  is_box c = true -> body <> [] -> contains NEWLINE body = false ->
  re_match GenericNotesParser.CHECKBOX_PATTERN (c :: body) <> None.
Proof.
  intros Hc Hb Hn. rewrite is_box_spec in Hc.
  assert (Hany : forallb (cls_test CAny) body = true).
  { clear Hb. induction body as [|x t IH]; [reflexivity|].
    unfold contains in Hn. cbn [existsb] in Hn. apply orb_false_iff in Hn.
    destruct Hn as [Hx Ht]. cbn [forallb].
    change (cls_test CAny x) with (negb (x =? NEWLINE)).
    rewrite N.eqb_sym, Hx. exact (IH Ht). }
  assert (Hlen : (1 <= length body)%nat).
  { destruct body; [contradiction | simpl; lia]. }
  set (st0 := {| prev := None; rest := c :: body; caps := [] |}).
  destruct (@matches_Rep_intro 0 CSpace st0 [] (c :: body) eq_refl
              (Nat.le_0_l _) eq_refl) as (s1 & H1 & R1 & _).
  set (s2 := {| prev := Some c; rest := body; caps := caps s1 |}).
  assert (H2 : In ([c], s2) (matches (Chr (CSet [CLit UNCHECKED_BOX;
                                                 CLit CHECKED_BOX])) s1)).
  { cbn [matches]. rewrite R1, Hc. left. reflexivity. }
  set (s3 := {| prev := prev s2; rest := rest s2;
                caps := (1%nat, [c]) :: caps s2 |}).
  assert (H3 : In ([c], s3)
                  (matches (Group 1 (Chr (CSet [CLit UNCHECKED_BOX;
                                                CLit CHECKED_BOX]))) s1)).
  { cbn [matches]. apply in_map_iff. exists ([c], s2).
    split; [reflexivity | exact H2]. }
  destruct (@matches_Rep_intro 0 CSpace s3 [] body eq_refl
              (Nat.le_0_l _) eq_refl) as (s4 & H4 & R4 & _).
  destruct (@matches_Rep_intro 1 CAny s4 body [] Hany Hlen)
    as (s5 & H5 & R5 & _); [rewrite R4, app_nil_r; reflexivity|].
  set (s6 := {| prev := prev s5; rest := rest s5;
                caps := (2%nat, body) :: caps s5 |}).
  assert (H6 : In (body, s6) (matches (Group 2 (plus CAny)) s4)).
  { cbn [matches]. apply in_map_iff. exists (body, s5).
    split; [reflexivity | exact H5]. }
  assert (H7 : In ([], s6) (matches (Seq Eol Eps) s6)).
  { change ([] : str) with (([] : str) ++ []).
    apply (@matches_Seq_intro Eol Eps s6 s6 s6).
    - cbn [matches]. unfold s6. cbn [rest]. rewrite R5. left. reflexivity.
    - left. reflexivity. }
  unfold re_match. eapply match_at_of_In.
  change GenericNotesParser.CHECKBOX_PATTERN
    with (Seq Bol
            (Seq (star CSpace)
               (Seq (Group 1 (Chr (CSet [CLit UNCHECKED_BOX;
                                         CLit CHECKED_BOX])))
                  (Seq (star CSpace)
                     (Seq (Group 2 (plus CAny)) (Seq Eol Eps)))))).
  eapply matches_Seq_intro; [left; reflexivity|].
  eapply matches_Seq_intro; [exact H1|].
  eapply matches_Seq_intro; [exact H3|].
  eapply matches_Seq_intro; [exact H4|].
  eapply matches_Seq_intro; [exact H6 | exact H7].
Qed.

End BoxFacts.


Lemma matches_Eol_rest {RT : Runtime} (st st' : mstate) (w : str) :
  In (w, st') (matches Eol st) -> rest st = [] \/ rest st = [NEWLINE].
Proof.
  simpl. destruct (rest st) as [|c [|d t]]; auto; [|contradiction].
  destruct (c =? NEWLINE) eqn:E; [|contradiction].
  apply N.eqb_eq in E. subst. auto.
Qed.

Section BoxShape.
Context {RT : Runtime}.

Lemma checkbox_match_shape (l : str) (m : match_obj) :
  re_match GenericNotesParser.CHECKBOX_PATTERN l = Some m ->
  exists w c w2 body tail,
    l = w ++ c :: w2 ++ body ++ tail
    /\ forallb isspace w = true /\ is_box c = true
    /\ forallb isspace w2 = true
    /\ body <> [] /\ (tail = [] \/ tail = [NEWLINE])
    /\ group m 1 = [c] /\ group m 2 = body.
Proof.
  intros H. apply match_at_In in H. destruct H as (st' & H & Hc & _).
  unfold group. rewrite Hc. clear Hc.
  change GenericNotesParser.CHECKBOX_PATTERN
    with (Seq Bol
            (Seq (star CSpace)
               (Seq (Group 1 (Chr (CSet [CLit UNCHECKED_BOX;
                                         CLit CHECKED_BOX])))
                  (Seq (star CSpace)
                     (Seq (Group 2 (plus CAny)) (Seq Eol Eps)))))) in H.
  apply in_matches_Seq in H. destruct H as (w1 & s1 & v1 & H1 & H & E1).
  apply in_matches_Seq in H. destruct H as (w2 & s2 & v2 & H2 & H & E2).
  apply in_matches_Seq in H. destruct H as (w3 & s3 & v3 & H3 & H & E3).
  apply in_matches_Seq in H. destruct H as (w4 & s4 & v4 & H4 & H & E4).
  apply in_matches_Seq in H. destruct H as (w5 & s5 & v5 & H5 & H & E5).
  apply in_matches_Seq in H. destruct H as (w6 & s6 & v6 & H6 & H & E6).
  pose proof (@matches_Eol_rest _ _ _ _ H6) as Htail.
  unfold star, plus in *.
  inv_matches H1. inv_matches H2. inv_matches H3. inv_matches H4.
  inv_matches H5. inv_matches H6. inv_matches H.
  subst. cbn [rest caps] in *.
  exists w2, x, w4, w5, (rest s5).
  split; [rewrite R, R1, <- R0, R2, R4, <- R3; reflexivity|].
  split; [exact A|]. split; [rewrite is_box_spec; exact T|].
  split; [exact A0|]. split; [apply nonempty_of_length; exact L1|].
  split; [exact Htail|].
  rewrite C3, C4, C2, C0. split; reflexivity.
Qed.

Lemma lstrip_spaces (s : str) :
  exists w, forallb isspace w = true /\ s = w ++ lstrip s.
Proof.
  induction s as [|x s (w & Hw & E)]; [exists []; auto|].
  simpl. destruct (isspace x) eqn:Hx.
  - exists (x :: w). simpl. rewrite Hx, Hw, <- E. auto.
  - exists []. auto.
Qed.

Lemma strip_infix (s : str) : exists a b, s = a ++ strip s ++ b.
Proof.
  unfold strip, rstrip.
  destruct (lstrip_spaces s) as (a & _ & Ea).
  destruct (lstrip_spaces (rev (lstrip s))) as (b & _ & Eb).
  exists a, (rev b). rewrite <- rev_app_distr, <- Eb, rev_involutive.
  exact Ea.
Qed.

Lemma contains_strip (c : char) (s : str) :
  contains c s = false -> contains c (strip s) = false.
Proof.
  destruct (strip_infix s) as (a & b & E). intros H. rewrite E in H.
  rewrite !contains_app in H. apply orb_false_iff in H.
  destruct H as [_ H]. apply orb_false_iff in H. tauto.
Qed.

Lemma split_lines_no_sep (sep : char) (s : str) :
  Forall (fun l => contains sep l = false) (split sep s).
Proof.
  induction s as [|x t IH]; [repeat constructor|].
  simpl. destruct (x =? sep) eqn:E.
  - constructor; [reflexivity | exact IH].
  - destruct (split sep t) as [|h r]; [repeat constructor|].
    + unfold contains. simpl. rewrite N.eqb_sym, E. reflexivity.
    + inversion IH as [|? ? Hh Hr]. subst. constructor; [|exact Hr].
      unfold contains in *. simpl. rewrite N.eqb_sym, E. exact Hh.
Qed.

(** What the pattern makes of a stripped line that holds no newline. *)
Lemma checkbox_of_stripped_line (l0 : str) :
  contains NEWLINE l0 = false ->
  checkbox_of_line (strip l0)
  = if box_line (strip l0) then Some (box_of_line (strip l0)) else None.
Proof.
  intros Hn. apply contains_strip in Hn. unfold checkbox_of_line.
  destruct (re_match GenericNotesParser.CHECKBOX_PATTERN (strip l0))
    as [m|] eqn:Em.
  - destruct (@checkbox_match_shape _ _ Em)
      as (w & c & w2 & body & tail & E & Hw & Hc & Hw2 & Hb & Ht & G1 & G2).
    rewrite G1, G2.
    destruct w as [|y w].
    2:{ simpl in Hw. apply andb_true_iff in Hw. destruct Hw as [Hy _].
        rewrite (@strip_head _ _ _ _ E) in Hy. discriminate. }
    assert (tail = []) as ->.
    { destruct Ht as [->| ->]; [reflexivity|]. exfalso.
      assert (Hs : isspace NEWLINE = false).
      { apply (@strip_last _ l0 (c :: w2 ++ body) NEWLINE).
        rewrite E. cbn [app]. rewrite <- app_assoc. reflexivity. }
      vm_compute in Hs. discriminate. }
    cbn [app] in E. rewrite app_nil_r in E. rewrite E.
    unfold box_line, box_of_line.
    destruct (w2 ++ body) as [|z u] eqn:Ez.
    { apply app_eq_nil in Ez. destruct Ez as [_ ->]. contradiction. }
    rewrite Hc, <- Ez, (@strip_app_spaces _ w2 body Hw2). do 2 f_equal.
    cbn [str_eqb]. rewrite andb_true_r. reflexivity.
  - destruct (box_line (strip l0)) eqn:Eb; [|reflexivity].
    exfalso. unfold box_line in Eb.
    destruct (strip l0) as [|c [|z u]] eqn:El; try discriminate.
    refine (@box_line_matches _ c (z :: u) Eb _ _ Em); [discriminate|].
    unfold contains in *. cbn [existsb] in Hn.
    apply orb_false_iff in Hn. tauto.
Qed.

Lemma box_text_nonempty (l0 : str) :
  box_line (strip l0) = true ->
  GenericNotesParser.text (box_of_line (strip l0)) <> [].
Proof.
  unfold box_line, box_of_line.
  destruct (strip l0) as [|c [|z u]] eqn:El; try discriminate.
  intros _. cbn [GenericNotesParser.text]. intros Hs.
  apply strip_nil_spaces in Hs.
  destruct (@exists_last _ (z :: u)) as (t & y & Et); [discriminate|].
  rewrite Et in Hs, El. rewrite forallb_app in Hs.
  apply andb_true_iff in Hs. destruct Hs as [_ Hy]. simpl in Hy.
  rewrite andb_true_r in Hy.
  change (c :: t ++ [y]) with ((c :: t) ++ [y]) in El.
  rewrite (@strip_last _ _ _ _ El) in Hy. discriminate.
Qed.
End BoxShape.


Section BoxLinesOfNotes.
Context {RT : Runtime}.
Import GenericNotesParser.

Lemma nonblank_lines_stripped (text : str) :
  Forall (fun l => exists l0, l = strip l0 /\ contains NEWLINE l0 = false)
         (nonblank_lines text).
Proof.
  apply Forall_forall. intros l Hl. unfold nonblank_lines, text_lines in Hl.
  apply filter_In in Hl. destruct Hl as [Hl _].
  apply in_map_iff in Hl. destruct Hl as (l0 & <- & Hl0).
  exists l0. split; [reflexivity|].
  exact (proj1 (Forall_forall _ _) (split_lines_no_sep NEWLINE text) _ Hl0).
Qed.

Lemma parse_by_lines (n : note) :
  exists r,
    parse (Dict n) = Ok r
    /\ checkboxes r
       = flat_map (fun l => match checkbox_of_line l with
                            | Some c => [c]
                            | None => []
                            end) (nonblank_lines (get_or [] (n_text n)))
    /\ rest r = filter (fun l => negb (is_checkbox_line l))
                  (nonblank_lines (get_or [] (n_text n))).
Proof.
  unfold parse. rewrite classify_lines. cbn [app].
  eexists. split; [reflexivity|]. split; reflexivity.
Qed.

(** X20: in the record the generic parser returns, the checkboxes are the
    non-blank stripped lines that open with one of the two ballot boxes
    and go on after it, in the order of the lines: each is checked when
    its box is the checked one, and has as text what follows the box,
    stripped, which is never empty.  Every other non-blank line, a box
    standing alone among them, is kept in the free text. *)
Theorem generic_checkboxes_are_box_lines :
  forall n : note,
    let lines := nonblank_lines (get_or [] (n_text n)) in
    exists r,
      parse (Dict n) = Ok r
      /\ checkboxes r = List.map box_of_line (filter box_line lines)
      /\ rest r = filter (fun l => negb (box_line l)) lines
      /\ Forall (fun c => text c <> []) (checkboxes r).
Proof.
  intros n lines. destruct (parse_by_lines n) as (r & Hr & Hc & Ht).
  fold lines in Hc, Ht. exists r. split; [exact Hr|].
  pose proof (nonblank_lines_stripped (get_or [] (n_text n))) as Hl.
  fold lines in Hl. clearbody lines. clear Hr.
  assert (Ec : checkboxes r = List.map box_of_line (filter box_line lines)).
  { rewrite Hc. clear Hc Ht. induction Hl as [|l t (l0 & -> & Hn) _ IH];
      [reflexivity|].
    cbn [flat_map filter]. rewrite (@checkbox_of_stripped_line _ l0 Hn), IH.
    destruct (box_line (strip l0)); reflexivity. }
  split; [exact Ec|]. split.
  - rewrite Ht. clear Hc Ht Ec. induction Hl as [|l t (l0 & -> & Hn) _ IH];
      [reflexivity|].
    cbn [filter]. rewrite IH, checkbox_of_line_is,
      (@checkbox_of_stripped_line _ l0 Hn).
    destruct (box_line (strip l0)); reflexivity.
  - rewrite Ec. apply Forall_forall. intros c Hin.
    apply in_map_iff in Hin. destruct Hin as (l & <- & Hin).
    apply filter_In in Hin. destruct Hin as [Hin Hb].
    destruct (proj1 (Forall_forall _ _) Hl _ Hin) as (l0 & -> & _).
    exact (@box_text_nonempty _ l0 Hb).
Qed.

End BoxLinesOfNotes.


(** ** Links of generic notes *)

Section FirstMatchFacts.
Context {RT : Runtime}.

(** The first way a sequence matches: some way of the first part, then the
    first way of the second from there. *)
Lemma matches_Seq_head (r1 r2 : re) (st st' : mstate) (w : str)
    (l : list (str * mstate)) :
  matches (Seq r1 r2) st = (w, st') :: l ->
  exists w1 s1 w2 l2,
    In (w1, s1) (matches r1 st) /\ matches r2 s1 = (w2, st') :: l2
    /\ w = w1 ++ w2.
Proof.
  cbn [matches]. induction (matches r1 st) as [|[w1 s1] t IH];
    [discriminate|].
  cbn [flat_map]. destruct (matches r2 s1) as [|[w2 s2] l2] eqn:E.
  - cbn [List.map app]. intros H.
    destruct (IH H) as (a & b & c & d & Hin & Hm & Hw).
    exists a, b, c, d. split; [right; exact Hin | auto].
  - cbn [List.map app]. intros [= <- <- _].
    exists w1, s1, w2, l2. split; [left; reflexivity | auto].
Qed.

Lemma matches_Seq_Eps_head (r : re) (st st' : mstate) (w : str)
    (l : list (str * mstate)) :
  matches (Seq r Eps) st = (w, st') :: l ->
  exists l', matches r st = (w, st') :: l'.
Proof.
  cbn [matches]. destruct (matches r st) as [|[w1 s1] t]; [discriminate|].
  cbn [flat_map List.map app]. rewrite app_nil_r. intros [= <- <- _]. eauto.
Qed.

Lemma matches_Alt_head (r1 r2 : re) (st : mstate) (x : str * mstate)
    (l : list (str * mstate)) :
  matches (Alt r1 r2) st = x :: l ->
  (exists l1, matches r1 st = x :: l1) \/ (exists l2, matches r2 st = x :: l2).
Proof.
  cbn [matches]. destruct (matches r1 st) as [|y t]; cbn [app].
  - eauto.
  - intros [= <- _]. eauto.
Qed.

(** The first way an unbounded repetition matches takes all it can. *)
Lemma rep_matches_head (test : char -> bool) (s : str) :
  forall lo p w e l,
    rep_matches test lo None p s = (w, e) :: l ->
    s = w ++ snd e /\ forallb test w = true
    /\ forall y t, snd e = y :: t -> test y = false.
Proof.
  induction s as [|x t IH]; intros lo p w e l H.
  - simpl in H. destruct lo; [|discriminate]. injection H as <- <- _.
    simpl. repeat split. discriminate.
  - cbn [rep_matches hi_allows hi_pred] in H. rewrite andb_true_r in H.
    destruct (test x) eqn:Hx.
    + destruct (rep_matches test (Nat.pred lo) None (Some x) t)
        as [|[w' e'] l'] eqn:E.
      * cbn [List.map app] in H. destruct lo; [|discriminate].
        exfalso. clear -E. destruct t as [|y t]; simpl in E;
          [discriminate|].
        destruct (test y && true);
          [destruct (List.map _ _); discriminate | discriminate].
      * cbn [List.map app] in H. injection H as <- <- _.
        destruct (IH _ _ _ _ _ E) as (Es & Hall & Hnext).
        simpl. rewrite Hx, Hall, <- Es. auto.
    + destruct lo; [|discriminate]. injection H as <- <- _. simpl.
      repeat split. intros y t' [= <- <-]. exact Hx.
Qed.

Lemma matches_Rep_head (lo : nat) (c : cls) (st st' : mstate) (w : str)
    (l : list (str * mstate)) :
  matches (Rep lo None c) st = (w, st') :: l ->
  rest st = w ++ rest st' /\ forallb (cls_test c) w = true
  /\ (lo <= length w)%nat
  /\ forall y t, rest st' = y :: t -> cls_test c y = false.
Proof.
  intros H.
  assert (Hin : In (w, st') (matches (Rep lo None c) st))
    by (rewrite H; left; reflexivity).
  apply matches_Rep_inv in Hin. destruct Hin as (_ & Hall & Hlo & _ & Hr).
  split; [exact Hr|]. split; [exact Hall|]. split; [exact Hlo|].
  cbn [matches] in H.
  destruct (rep_matches (cls_test c) lo None (prev st) (rest st))
    as [|[w' [p' s']] l'] eqn:E; [discriminate|].
  cbn [List.map] in H. injection H as <- <- _.
  apply rep_matches_head in E. cbn [rest snd] in *. tauto.
Qed.

End FirstMatchFacts.

Section LinkFacts.
Context {RT : Runtime}.

Lemma url_char_spec (c : char) :
  cls_test GenericNotesParser.URL_BODY c = url_char c.
Proof.
  unfold url_char, contains, GenericNotesParser.URL_BODY.
  cbn [cls_test existsb]. rewrite negb_orb, orb_false_r. reflexivity.
Qed.

Lemma url_body_chars (w : str) :
  forallb (cls_test GenericNotesParser.URL_BODY) w = forallb url_char w.
Proof.
  induction w as [|x w IH]; [reflexivity|].
  cbn [forallb]. rewrite url_char_spec, IH. reflexivity.
Qed.

(** The URL the pattern finds at a place: one of the openings, then all
    the URL characters that follow, of which there is one at least. *)
Lemma url_match_shape (pos : nat) (p : option char) (s : str)
    (m : match_obj) :
  match_at GenericNotesParser.URL_PATTERN pos p s = Some m ->
  exists opening body after,
    m_text m = opening ++ body /\ s = m_text m ++ after
    /\ In opening url_openings
    /\ body <> [] /\ forallb url_char body = true
    /\ forall c t, after = c :: t -> url_char c = false.
Proof.
  unfold match_at.
  destruct (matches GenericNotesParser.URL_PATTERN _) as [|[w st'] l] eqn:E;
    [discriminate|].
  intros [= <-]. cbn [m_text].
  unfold GenericNotesParser.URL_PATTERN in E.
  apply matches_Alt_head in E. destruct E as [[l1 E]|[l2 E]].
  - cbn [cat fold_right] in E.
    apply matches_Seq_head in E. destruct E as (w1 & s1 & v1 & k1 & H1 & E & ->).
    apply matches_Seq_head in E. destruct E as (w2 & s2 & v2 & k2 & H2 & E & ->).
    apply matches_Seq_head in E. destruct E as (w3 & s3 & v3 & k3 & H3 & E & ->).
    apply matches_Seq_Eps_head in E. destruct E as (k4 & E).
    apply matches_Rep_head in E. destruct E as (R4 & A4 & L4 & N4).
    let pat := eval cbv in (lits (lit "http")) in
    change (lits (lit "http")) with pat in H1.
    let pat := eval cbv in (lits (lit "://")) in
    change (lits (lit "://")) with pat in H3.
    unfold opt1 in H2.
    inv_matches H1. inv_matches H2. inv_matches H3. literal_chars. subst.
    cbn [rest] in *. specialize (U _ eq_refl).
    match goal with R : s = _ |- _ => rewrite R; clear R end.
    repeat match goal with R : rest _ = _ |- _ => rewrite R; clear R end.
    destruct (@optional_char _ _ _ A U) as [-> | ->];
      [exists (lit "http://") | exists (lit "https://")];
      exists v3, (rest st');
      (split; [reflexivity|]); (split; [reflexivity|]);
      (split; [unfold url_openings; simpl; auto|]);
      (split; [apply nonempty_of_length; exact L4|]);
      (split; [rewrite <- url_body_chars; exact A4|]);
      intros c t Hc; rewrite <- url_char_spec; exact (N4 _ _ Hc).
  - cbn [cat fold_right] in E.
    apply matches_Seq_head in E. destruct E as (w1 & s1 & v1 & k1 & H1 & E & ->).
    apply matches_Seq_Eps_head in E. destruct E as (k4 & E).
    apply matches_Rep_head in E. destruct E as (R4 & A4 & L4 & N4).
    let pat := eval cbv in (lits (lit "www.")) in
    change (lits (lit "www.")) with pat in H1.
    inv_matches H1. literal_chars. subst. cbn [rest] in *.
    match goal with R : s = _ |- _ => rewrite R; clear R end.
    repeat match goal with R : rest _ = _ |- _ => rewrite R; clear R end.
    match goal with A4 : forallb _ ?v = true |- _ => exists (lit "www."), v, (rest st') end.
    split; [reflexivity|]. split; [reflexivity|].
    split; [unfold url_openings; simpl; auto|].
    split; [apply nonempty_of_length; exact L4|].
    split; [rewrite <- url_body_chars; exact A4|].
    intros c t Hc. rewrite <- url_char_spec. exact (N4 _ _ Hc).
Qed.

End LinkFacts.


Section LinksOfNotes.
Context {RT : Runtime}.
Import GenericNotesParser.

Lemma extract_links_found (text u : str) :
  In u (_extract_links text) ->
  In u (List.map m_text (re_finditer URL_PATTERN text)).
Proof.
  unfold _extract_links. rewrite fold_see_link, fresh_first_occurrences.
  cbn [app]. intros H. apply filter_In in H. destruct H as [H _].
  apply (proj1 (first_occurrences_In _ _)) in H. exact H.
Qed.

(** X21: every link of the record the generic parser returns is a piece of
    the text of the note that opens with "http://", "https://" or "www."
    and goes on with one or more URL characters (no white space, angle
    bracket, quotation mark, apostrophe or closing bracket); it runs as
    far as such characters go, so what follows it in the text, if
    anything, is not a URL character. *)
Theorem generic_links_are_whole_urls :
  forall n : note,
    let text := get_or [] (n_text n) in
    exists r,
      parse (Dict n) = Ok r
      /\ Forall (fun l =>
                   exists opening body before after,
                     l = opening ++ body
                     /\ In opening url_openings
                     /\ body <> [] /\ forallb url_char body = true
                     /\ text = before ++ l ++ after
                     /\ forall c t, after = c :: t -> url_char c = false)
                (links r).
Proof.
  intros n text. unfold parse. fold text.
  destruct (fold_left classify_line (split NEWLINE text) ([], []))
    as [cb rs].
  eexists. split; [reflexivity|]. cbn [links].
  apply Forall_forall. intros l Hl. apply extract_links_found in Hl.
  apply in_map_iff in Hl. destruct Hl as (m & <- & Hm).
  apply finditer_from_places in Hm.
  destruct Hm as (before & p & a & Et & Hm).
  apply url_match_shape in Hm.
  destruct Hm as (opening & body & after & Em & Ea & Ho & Hb & Hall & Hnext).
  exists opening, body, before, after.
  split; [exact Em|]. split; [exact Ho|]. split; [exact Hb|].
  split; [exact Hall|]. split; [|exact Hnext].
  rewrite Et, Ea. reflexivity.
Qed.

End LinksOfNotes.


(** ** A match in a line is a match in the text *)

Section ExtendFacts.
Context {RT : Runtime}.

Lemma rep_matches_stop (test : char -> bool) (hi : option nat)
    (p : option char) (s : str) :
  In ([], (p, s)) (rep_matches test 0 hi p s).
Proof.
  destruct s as [|x t]; simpl; [auto|].
  destruct (test x && hi_allows hi); [apply in_or_app; right|]; simpl; auto.
Qed.

Lemma rep_matches_extend (test : char -> bool) (t s : str) :
  forall lo hi p1 p2 w p1' s',
    word_prev p1 = word_prev p2 ->
    In (w, (p1', s')) (rep_matches test lo hi p1 s) ->
    exists p2',
      In (w, (p2', s' ++ t)) (rep_matches test lo hi p2 (s ++ t))
      /\ word_prev p1' = word_prev p2'.
Proof.
  induction s as [|x u IH]; intros lo hi p1 p2 w p1' s' Hp H.
  - simpl in H. destruct lo; [|contradiction].
    destruct H as [[= <- <- <-]|[]]. exists p2.
    split; [apply rep_matches_stop | exact Hp].
  - assert (Stop : In (w, (p1', s'))
                      match lo with O => [([], (p1, x :: u))] | S _ => [] end ->
                   exists p2',
                     In (w, (p2', s' ++ t))
                        (rep_matches test lo hi p2 ((x :: u) ++ t))
                     /\ word_prev p1' = word_prev p2').
    { destruct lo; [|contradiction]. intros [[= <- <- <-]|[]]. exists p2.
      split; [apply rep_matches_stop | exact Hp]. }
    cbn [rep_matches] in H.
    destruct (test x && hi_allows hi) eqn:Hx; [|auto].
    apply in_app_or in H. destruct H as [H|H]; [|auto].
    apply in_map_iff in H. destruct H as ([w' [q s0]] & [= <- <- <-] & H).
    destruct (IH _ _ (Some x) (Some x) _ _ _ eq_refl H) as (p2' & Hin & Hw).
    exists p2'. split; [|exact Hw].
    cbn [app rep_matches]. rewrite Hx. apply in_or_app. left.
    apply in_map_iff. exists (w', (p2', s0 ++ t)).
    split; [reflexivity | exact Hin].
Qed.

Lemma matches_extend (r : re) (t : str) :
  anchor_free r = true -> no_word_ahead t = true ->
  forall st1 st2 w st1',
    follows t st1 st2 -> In (w, st1') (matches r st1) ->
    exists st2', In (w, st2') (matches r st2) /\ follows t st1' st2'.
Proof.
  intros Hr Ht.
  induction r as [ | c | r1 IH1 r2 IH2 | r1 IH1 r2 IH2 | lo hi c | r IH
                 | n r IH | | | ]; intros st1 st2 w st1' F H;
    cbn [anchor_free] in Hr; try discriminate.
  - apply matches_Eps_inv in H. destruct H as [-> ->].
    exists st2. split; [left; reflexivity | exact F].
  - destruct F as (Fr & Fc & Fw). cbn [matches] in H |- *.
    destruct (rest st1) as [|x u] eqn:E1; [contradiction|].
    destruct (cls_test c x) eqn:Hx; [|contradiction].
    destruct H as [[= <- <-]|[]]. rewrite Fr. cbn [app]. rewrite Hx.
    eexists. split; [left; reflexivity|].
    split; [reflexivity|]. split; [exact Fc | reflexivity].
  - apply andb_true_iff in Hr. destruct Hr as [Hr1 Hr2].
    apply in_matches_Seq in H. destruct H as (w1 & s1 & w2 & H1 & H2 & ->).
    destruct (IH1 Hr1 _ _ _ _ F H1) as (s1' & G1 & F1).
    destruct (IH2 Hr2 _ _ _ _ F1 H2) as (s2' & G2 & F2).
    exists s2'. split; [|exact F2].
    cbn [matches]. apply in_flat_map. exists (w1, s1').
    split; [exact G1|]. apply in_map_iff. exists (w2, s2').
    split; [reflexivity | exact G2].
  - apply andb_true_iff in Hr. destruct Hr as [Hr1 Hr2].
    apply matches_Alt_inv in H. cbn [matches]. destruct H as [H|H].
    + destruct (IH1 Hr1 _ _ _ _ F H) as (s' & G & F').
      exists s'. split; [apply in_or_app; left; exact G | exact F'].
    + destruct (IH2 Hr2 _ _ _ _ F H) as (s' & G & F').
      exists s'. split; [apply in_or_app; right; exact G | exact F'].
  - destruct F as (Fr & Fc & Fw). cbn [matches] in H |- *.
    apply in_map_iff in H. destruct H as ([w' [q s0]] & [= <- <-] & H).
    destruct (@rep_matches_extend (cls_test c) t (rest st1) lo hi
                (prev st1) (prev st2) _ _ _ (eq_sym Fw) H) as (p2' & Hin & Hw).
    exists {| prev := p2'; rest := s0 ++ t; caps := caps st2 |}.
    split.
    + apply in_map_iff. exists (w', (p2', s0 ++ t)).
      split; [reflexivity|]. rewrite Fr. exact Hin.
    + split; [reflexivity|]. split; [exact Fc|]. symmetry. exact Hw.
  - apply matches_Opt_inv in H. cbn [matches]. destruct H as [H|[-> ->]].
    + destruct (IH Hr _ _ _ _ F H) as (s' & G & F').
      exists s'. split; [apply in_or_app; left; exact G | exact F'].
    + exists st2. split; [apply in_or_app; right; left; reflexivity|exact F].
  - cbn [matches] in H |- *. apply in_map_iff in H.
    destruct H as ([w' s1] & [= <- <-] & H).
    destruct (IH Hr _ _ _ _ F H) as (s' & G & (Fr & Fc & Fw)).
    exists {| prev := prev s'; rest := rest s';
              caps := (n, w') :: caps s' |}.
    split.
    + apply in_map_iff. exists (w', s'). split; [reflexivity | exact G].
    + split; [exact Fr|]. split; [cbn [caps]; rewrite Fc; reflexivity|].
      exact Fw.
  - pose proof F as (Fr & Fc & Fw). cbn [matches] in H |- *.
    assert (Ea : word_after st2 = word_after st1).
    { unfold word_after. rewrite Fr.
      destruct (rest st1) as [|x u]; [|reflexivity]. cbn [app].
      unfold no_word_ahead in Ht. destruct t as [|y t']; [reflexivity|].
      apply negb_true_iff in Ht. exact Ht. }
    rewrite Fw, Ea.
    destruct (xorb (word_before st1) (word_after st1)); [|contradiction].
    destruct H as [[= <- <-]|[]].
    exists st2. split; [left; reflexivity | exact F].
Qed.

Lemma match_at_extend (r : re) (pos1 pos2 : nat) (p1 p2 : option char)
    (s t : str) :
  anchor_free r = true -> no_word_ahead t = true ->
  word_prev p1 = word_prev p2 ->
  match_at r pos1 p1 s <> None -> match_at r pos2 p2 (s ++ t) <> None.
Proof.
  intros Hr Ht Hp H. unfold match_at in H.
  destruct (matches r {| prev := p1; rest := s; caps := [] |})
    as [|[w st1'] l] eqn:E; [contradiction|].
  assert (Hin : In (w, st1')
                   (matches r {| prev := p1; rest := s; caps := [] |}))
    by (rewrite E; left; reflexivity).
  assert (F : follows t {| prev := p1; rest := s; caps := [] |}
                       {| prev := p2; rest := s ++ t; caps := [] |}).
  { split; [reflexivity|]. split; [reflexivity|]. symmetry. exact Hp. }
  destruct (@matches_extend r t Hr Ht _ _ _ _ F Hin) as (st2' & G & _).
  unfold match_at.
  destruct (matches r {| prev := p2; rest := s ++ t; caps := [] |})
    as [|[w2 s2] l2]; [contradiction | discriminate].
Qed.

Lemma prev_after_app (p : option char) (a b : str) :
  prev_after p (a ++ b) = prev_after (prev_after p a) b.
Proof.
  revert p; induction a as [|x a IH]; intros p; [reflexivity | apply IH].
Qed.

Lemma word_prev_after (p1 p2 : option char) (a : str) :
  word_prev p1 = word_prev p2 ->
  word_prev (prev_after p1 a) = word_prev (prev_after p2 a).
Proof. destruct a as [|x a]; [auto | reflexivity]. Qed.

Lemma search_from_place (r : re) (s : str) :
  forall pos p m,
    search_from r pos p s = Some m ->
    exists a b,
      s = a ++ b
      /\ match_at r (pos + length a) (prev_after p a) b = Some m.
Proof.
  induction s as [|x t IH]; intros pos p m H; cbn [search_from] in H.
  - destruct (match_at r pos p []) eqn:E; [|discriminate].
    exists [], []. simpl. rewrite Nat.add_0_r, E. auto.
  - destruct (match_at r pos p (x :: t)) eqn:E.
    + exists [], (x :: t). simpl. rewrite Nat.add_0_r, E. auto.
    + destruct (IH _ _ _ H) as (a & b & -> & Hm).
      exists (x :: a), b. simpl. rewrite Nat.add_succ_r. auto.
Qed.

Lemma search_from_finds (r : re) (a b : str) :
  forall pos pos' p,
    match_at r pos' (prev_after p a) b <> None ->
    search_from r pos p (a ++ b) <> None.
Proof.
  assert (Hpos : forall pos pos' p s,
             match_at r pos' p s <> None -> match_at r pos p s <> None).
  { intros pos pos' p s. unfold match_at.
    destruct (matches r _) as [|[w st] l]; [auto | discriminate]. }
  induction a as [|x a IH]; intros pos pos' p H.
  - simpl in H |- *. apply (Hpos pos) in H.
    destruct b as [|y b]; cbn [search_from];
      destruct (match_at r pos p _); auto; discriminate.
  - cbn [app search_from].
    destruct (match_at r pos p (x :: a ++ b)); [discriminate|].
    exact (IH _ _ _ H).
Qed.

(** A line of [s.split(sep)] lies in [s] between separators. *)
Lemma split_places (sep : char) (s : str) :
  forall h r,
    split sep s = h :: r ->
    (exists after,
        s = h ++ after /\ (after = [] \/ exists a, after = sep :: a))
    /\ forall line,
         In line r ->
         exists b after,
           s = (b ++ [sep]) ++ line ++ after
           /\ (after = [] \/ exists a, after = sep :: a).
Proof.
  induction s as [|c t IH]; intros h r H.
  - simpl in H. injection H as <- <-. split; [|contradiction].
    exists []. auto.
  - cbn [split] in H. destruct (split sep t) as [|h' r'] eqn:Es;
      [exfalso; exact (@split_nonempty _ _ Es)|].
    destruct (IH _ _ eq_refl) as ((after & Et & Ha) & Htail).
    destruct (c =? sep) eqn:Ec.
    + apply N.eqb_eq in Ec. subst c. injection H as <- <-. split.
      * exists (sep :: t). eauto.
      * intros line [<-|Hin].
        -- exists [], after. cbn [app]. rewrite <- Et. auto.
        -- destruct (Htail _ Hin) as (b & a' & E & Ha').
           exists (sep :: b), a'. cbn [app]. rewrite <- E. auto.
    + injection H as <- <-. split.
      * exists after. cbn [app]. rewrite <- Et. auto.
      * intros line Hin. destruct (Htail _ Hin) as (b & a' & E & Ha').
        exists (c :: b), a'. cbn [app]. rewrite <- E. auto.
Qed.

Lemma split_In_place (sep : char) (s line : str) :
  In line (split sep s) ->
  exists before after,
    s = before ++ line ++ after
    /\ (before = [] \/ exists b, before = b ++ [sep])
    /\ (after = [] \/ exists a, after = sep :: a).
Proof.
  destruct (split sep s) as [|h r] eqn:Es; [contradiction|].
  destruct (@split_places _ _ _ _ Es) as ((after & E & Ha) & Htail).
  intros [<-|Hin].
  - exists [], after. auto.
  - destruct (Htail _ Hin) as (b & a' & E' & Ha').
    exists (b ++ [sep]), a'. eauto.
Qed.

(** What [re.search] finds in a line of the text, it finds in the text,
    when the pattern has no anchor. *)
Lemma line_match_in_text (r : re) (text line : str) :
  anchor_free r = true -> In line (split NEWLINE text) ->
  re_search r line <> None -> re_search r text <> None.
Proof.
  intros Hr Hin H. unfold re_search in *.
  destruct (search_from r 0 None line) as [m|] eqn:E; [|contradiction].
  clear H. apply search_from_place in E. destruct E as (a & b & -> & Hm).
  apply split_In_place in Hin.
  destruct Hin as (before & after & -> & Hb & Ha).
  rewrite <- app_assoc, app_assoc.
  apply (@search_from_finds r (before ++ a) (b ++ after) 0 0 None).
  apply (@match_at_extend r (0 + length a) 0 (prev_after None a)).
  - exact Hr.
  - destruct Ha as [->|(a' & ->)]; reflexivity.
  - rewrite prev_after_app. apply word_prev_after.
    destruct Hb as [->|(b' & ->)]; [reflexivity|].
    rewrite prev_after_app. reflexivity.
  - rewrite Hm. discriminate.
Qed.

End ExtendFacts.


(** ** Exercises come from notes the parser accepts *)

Section AcceptFacts.
Context {RT : Runtime}.
Import TrainingParser.

Lemma anchor_free_litsI (s : str) : anchor_free (litsI s) = true.
Proof. induction s as [|c s IH]; [reflexivity | exact IH]. Qed.

Lemma anchor_free_abbr (a : str) : anchor_free (abbr_pattern a) = true.
Proof.
  unfold abbr_pattern. cbn [cat fold_right anchor_free].
  rewrite anchor_free_litsI. reflexivity.
Qed.

Lemma is_some_not_None {A} (o : option A) : is_some o = true <-> o <> None.
Proof. destruct o; simpl; split; congruence. Qed.

Lemma abbr_line_text (text line a : str) :
  In line (split NEWLINE text) ->
  abbr_found line a = true -> abbr_found text a = true.
Proof.
  unfold abbr_found. rewrite !is_some_not_None.
  apply line_match_in_text. apply anchor_free_abbr.
Qed.

Lemma sets_line_text (text line : str) :
  In line (split NEWLINE text) ->
  re_finditer SET_REP_WEIGHT_PATTERN line <> [] ->
  is_some (re_search SET_REP_WEIGHT_PATTERN text) = true.
Proof.
  intros Hin H. apply is_some_not_None.
  apply (@line_match_in_text _ SET_REP_WEIGHT_PATTERN text line);
    [reflexivity | exact Hin|].
  intros E. apply H. apply finditer_is_nil. exact E.
Qed.

Lemma scan_line_accepts (text line : str) (st st' : scan_state) :
  In line (split NEWLINE text) ->
  scan_line st line = Ok st' ->
  (exercises_dict st <> [] ->
   existsb (abbr_found text) abbreviations = true
   /\ is_some (re_search SET_REP_WEIGHT_PATTERN text) = true) ->
  (current_exercise st <> None ->
   existsb (abbr_found text) abbreviations = true) ->
  (exercises_dict st' <> [] ->
   existsb (abbr_found text) abbreviations = true
   /\ is_some (re_search SET_REP_WEIGHT_PATTERN text) = true)
  /\ (current_exercise st' <> None ->
      existsb (abbr_found text) abbreviations = true).
Proof.
  intros Hin H Hd Hc.
  assert (HP : first_matching_abbr line <> None ->
               existsb (abbr_found text) abbreviations = true).
  { destruct (first_matching_abbr line) as [a|] eqn:Ea; [|congruence].
    intros _. apply first_matching_abbr_Some in Ea.
    destruct Ea as (b & a' & Eab & Ha & _).
    apply existsb_exists. exists a. split.
    - rewrite Eab. apply in_or_app. right. left. reflexivity.
    - exact (@abbr_line_text _ _ _ Hin Ha). }
  assert (HQ : forall ls, _extract_sets line = Ok ls -> ls <> [] ->
               is_some (re_search SET_REP_WEIGHT_PATTERN text) = true).
  { intros ls Els Hne. apply (@sets_line_text _ _ Hin).
    intros E. unfold _extract_sets in Els. rewrite E in Els.
    simpl in Els. congruence. }
  unfold scan_line in H.
  destruct (_extract_sets line) as [ls|e] eqn:Es; [|discriminate].
  cbn [bind] in H. specialize (HQ _ eq_refl).
  destruct (match ls with [] => _ | _ :: _ => _ end) as [d1|e] eqn:Ed;
    [|discriminate].
  cbn [bind] in H. injection H as <-. cbn [exercises_dict current_exercise].
  split.
  - intros Hne. destruct ls as [|x ls'].
    + injection Ed as <-. exact (Hd Hne).
    + split; [|apply HQ; discriminate].
      destruct (first_matching_abbr line) as [a|]; [apply HP; discriminate|].
      cbn [truthy] in Ed.
      destruct (current_exercise st) as [a|]; [apply Hc; discriminate|].
      injection Ed as <-. exact (proj1 (Hd Hne)).
  - intros Hne.
    destruct (first_matching_abbr line) as [a|]; [apply HP; discriminate|].
    destruct (_ && _) in Hne; [contradiction|]. exact (Hc Hne).
Qed.

Lemma scan_accepts (text : str) (lines : list str) :
  forall st st',
    (forall line, In line lines -> In line (split NEWLINE text)) ->
    scan lines st = Ok st' ->
    (exercises_dict st <> [] ->
     existsb (abbr_found text) abbreviations = true
     /\ is_some (re_search SET_REP_WEIGHT_PATTERN text) = true) ->
    (current_exercise st <> None ->
     existsb (abbr_found text) abbreviations = true) ->
    exercises_dict st' <> [] ->
    existsb (abbr_found text) abbreviations = true
    /\ is_some (re_search SET_REP_WEIGHT_PATTERN text) = true.
Proof.
  induction lines as [|l t IH]; intros st st' Hin H Hd Hc.
  - injection H as <-. exact Hd.
  - unfold scan in *. cbn [foldM] in H.
    destruct (scan_line st l) as [st1|e] eqn:E1; [|discriminate].
    cbn [bind] in H.
    destruct (@scan_line_accepts text l st st1 (Hin _ (or_introl eq_refl))
                E1 Hd Hc) as [Hd1 Hc1].
    apply (IH st1 st'); auto. intros line Hl. apply Hin. right. exact Hl.
Qed.

(** X22: the training parser gives no exercise for a note it does not
    accept: when [parse] returns a record that has an exercise,
    [can_parse] is true of the note. *)
Theorem exercises_only_of_accepted_notes :
  forall (n : note) (r : WorkoutData),
    parse (Dict n) = Ok r -> exercises r <> [] -> can_parse (Dict n) = true.
Proof.
  intros n r H Hne. unfold parse in H.
  destruct (_extract_exercises _) as [exs|e] eqn:Ex; [|discriminate].
  cbn [bind] in H. injection H as <-. cbn [exercises] in Hne.
  unfold _extract_exercises in Ex.
  destruct (scan _ initial_state) as [final|e] eqn:Es; [|discriminate].
  cbn [bind] in Ex. injection Ex as <-.
  assert (Hd : exercises_dict final <> []).
  { intros E. rewrite E in Hne. apply Hne. reflexivity. }
  destruct (@scan_accepts _ _ _ _ (fun _ h => h) Es) as [HP HQ]; auto;
    try (cbn; congruence).
  unfold can_parse. destruct (get_or [] (n_text n)) as [|c t] eqn:Et.
  - exfalso. vm_compute in HQ. discriminate.
  - cbn [nonempty negb]. unfold abbreviations in HP. rewrite HP, HQ.
    reflexivity.
Qed.

End AcceptFacts.

(** A note of one bench-press line. *)
Lemma exercises_only_of_accepted_notes_witness :
  exists r,
    @TrainingParser.parse ascii_runtime
      (Dict (note_of None (Some (lit "Bp 3x5x60")))) = Ok r
    /\ length (TrainingParser.exercises r) = 1%nat
    /\ @TrainingParser.can_parse ascii_runtime
         (Dict (note_of None (Some (lit "Bp 3x5x60")))) = true.
Proof.
  destruct (@TrainingParser.parse ascii_runtime
              (Dict (note_of None (Some (lit "Bp 3x5x60")))))
    as [r|e] eqn:E; [|vm_compute in E; discriminate].
  exists r. split; [reflexivity|].
  assert (L : length (TrainingParser.exercises r) = 1%nat).
  { vm_compute in E. injection E as <-. reflexivity. }
  split; [exact L|].
  apply (@exercises_only_of_accepted_notes ascii_runtime _ r E).
  intros E0. rewrite E0 in L. discriminate.
Defined.
